(** * HVDC warehouse pipeline: movement normalisation and stock ledger

    A shallow embedding of the movement-normalisation and stock-ledger
    code of the repository:

    - [hvdc_ontology_pipeline.py]: [normalize_site_name], the per-row
      extraction of [EnhancedDataLoader._process_warehouse_file],
      [EnhancedTransactionEngine.create_transaction_log],
      [EnhancedAnalysisEngine.calculate_daily_stock],
      [validate_stock_integrity] and [analyze_dead_stock];
    - the analysis script ([run_hvdc_warehouse_analysis.py]): [map_loc],
      [StockEngine.create_proper_monthly_warehouse_analysis], the
      continuity check of [StockEngine.validate_stock_logic] and
      [StockEngine.reconcile].

    Conventions of the embedding.
    - A pandas DataFrame is the list of its rows, a row is a record.
    - Quantities are rationals ([Q]); a cell that may hold NaN is a [Num].
      What a frame adds up over its rows is stated for quantities on
      which the sums of an int64 or float64 column are exact
      ([exact_quantities]).
    - A pandas [Timestamp] is the integer number of nanoseconds since the
      epoch ([Z]); a calendar date is the number of days since the epoch.
    - A Python string is the [string] of its characters; the texts of the
      sheets (column names, location and site names) are ASCII, on which
      case conversion and white space are as defined here, and strings
      are ordered by [String.compare]. *)

From Stdlib Require Import ZArith QArith Qabs List Bool Ascii String Lia.
From Stdlib Require Import DecimalString.
From Stdlib Require Import Sorted Permutation.
Import ListNotations.

Local Open Scope string_scope.
Local Open Scope Z_scope.

(** ** Frames as lists: the pandas operations the code relies on *)

Section SortValues.
Context {A : Type}.

(** [sort_values]: a stable sort of the rows under a boolean "less or
    equal" on the sort key.  Sorting on several columns goes through
    pandas' lexsort indexer, which is stable; Python's [list.sort] and
    [sorted] are stable as well. *)
Fixpoint insert_row (leb : A -> A -> bool) (x : A) (l : list A) : list A :=
  match l with
  | [] => [x]
  | y :: l' => if leb x y then x :: y :: l' else y :: insert_row leb x l'
  end.

Definition sort_values (leb : A -> A -> bool) (l : list A) : list A :=
  fold_right (insert_row leb) [] l.

(** Two rows are in the order of [leb]. *)
Definition ordered_by (leb : A -> A -> bool) (a b : A) : Prop := leb a b = true.

End SortValues.

Section Unique.
Context {K : Type}.
Variable keqb : K -> K -> bool.

(** [Series.unique()]: the distinct values in order of first appearance. *)
Fixpoint unique (l : list K) : list K :=
  match l with
  | [] => []
  | k :: l' => k :: filter (fun k' => negb (keqb k' k)) (unique l')
  end.

(** [drop_duplicates(subset=key)], keeping the first row of each key. *)
Fixpoint drop_duplicates {A : Type} (key : A -> K) (l : list A) : list A :=
  match l with
  | [] => []
  | a :: l' =>
      a :: filter (fun b => negb (keqb (key b) (key a))) (drop_duplicates key l')
  end.

End Unique.

Section Groupby.
Context {A K : Type}.
Variable keqb : K -> K -> bool.
Variable key : A -> K.

Definition rows_of (k : K) (l : list A) : list A :=
  filter (fun a => keqb (key a) k) l.

(** [groupby(key)] with the default [sort=True]: the groups come in
    ascending key order and each keeps its rows in frame order. *)
Definition groupby (kleb : K -> K -> bool) (l : list A) : list (K * list A) :=
  map (fun k => (k, rows_of k l)) (sort_values kleb (unique keqb (map key l))).

End Groupby.

(** Sums of a numeric column ([Series.sum()]; the empty sum is 0). *)
Definition Qsum (l : list Q) : Q := fold_right Qplus 0%Q l.

(** ** Python strings *)

Definition is_lower (c : ascii) : bool :=
  ((97 <=? nat_of_ascii c) && (nat_of_ascii c <=? 122))%nat.

Definition is_upper (c : ascii) : bool :=
  ((65 <=? nat_of_ascii c) && (nat_of_ascii c <=? 90))%nat.

Definition upper_char (c : ascii) : ascii :=
  if is_lower c then ascii_of_nat (nat_of_ascii c - 32) else c.

Definition lower_char (c : ascii) : ascii :=
  if is_upper c then ascii_of_nat (nat_of_ascii c + 32) else c.

(** [str.upper()] and [str.lower()]. *)
Fixpoint str_upper (s : string) : string :=
  match s with
  | EmptyString => EmptyString
  | String c s' => String (upper_char c) (str_upper s')
  end.

Fixpoint str_lower (s : string) : string :=
  match s with
  | EmptyString => EmptyString
  | String c s' => String (lower_char c) (str_lower s')
  end.

(** [str.isascii()]: every character is below 128. *)
Fixpoint isascii (s : string) : bool :=
  match s with
  | EmptyString => true
  | String c s' => (nat_of_ascii c <? 128)%nat && isascii s'
  end.

(** [p in s]: [p] occurs in [s] as a substring. *)
Fixpoint str_in (p s : string) : bool :=
  String.prefix p s ||
  match s with
  | EmptyString => false
  | String _ s' => str_in p s'
  end.

(** The characters that [str.strip()] removes from an ASCII text: tab,
    line feed, vertical tab, form feed, carriage return, the four
    separators 28..31 and space. *)
Definition is_space (c : ascii) : bool :=
  let n := nat_of_ascii c in
  (((9 <=? n) && (n <=? 13)) || ((28 <=? n) && (n <=? 32)))%nat.

Fixpoint lstrip_chars (l : list ascii) : list ascii :=
  match l with
  | [] => []
  | c :: l' => if is_space c then lstrip_chars l' else l
  end.

Definition strip (s : string) : string :=
  string_of_list_ascii
    (rev (lstrip_chars (rev (lstrip_chars (list_ascii_of_string s))))).

(** ** Regular expressions of the rule tables

    The patterns of [LOC_MAP] are made of literal characters and [.*];
    on an ASCII text [re.IGNORECASE] compares the letters A to Z without
    case, and [.] matches any character except a line feed. *)

Inductive tok : Type :=
| Chr (c : ascii)
| AnyStar.

Fixpoint parse_pattern (p : string) : list tok :=
  match p with
  | EmptyString => []
  | String "." (String "*" p') => AnyStar :: parse_pattern p'
  | String c p' => Chr c :: parse_pattern p'
  end.

Definition ci_eqb (a b : ascii) : bool :=
  Ascii.eqb (lower_char a) (lower_char b).

Definition is_newline (c : ascii) : bool := Ascii.eqb c "010"%char.

(** [re.fullmatch(pattern, s, re.IGNORECASE)] succeeds. *)
Fixpoint tokens_fullmatch (p : list tok) : string -> bool :=
  match p with
  | [] => fun s => match s with EmptyString => true | _ => false end
  | Chr c :: p' =>
      fun s =>
        match s with
        | EmptyString => false
        | String a s' => ci_eqb c a && tokens_fullmatch p' s'
        end
  | AnyStar :: p' =>
      fix star (s : string) : bool :=
        tokens_fullmatch p' s ||
        match s with
        | EmptyString => false
        | String a s' => negb (is_newline a) && star s'
        end
  end.

Definition re_fullmatch (pattern s : string) : bool :=
  tokens_fullmatch (parse_pattern pattern) s.

(** What it means for a string to match a pattern in full: [Chr c] takes
    one character equal to [c] up to case, [AnyStar] takes any number of
    characters none of which is a line feed. *)
Inductive Matches : list tok -> string -> Prop :=
| Matches_nil : Matches [] EmptyString
| Matches_chr (c a : ascii) (p : list tok) (s : string) :
    ci_eqb c a = true -> Matches p s -> Matches (Chr c :: p) (String a s)
| Matches_star_done (p : list tok) (s : string) :
    Matches p s -> Matches (AnyStar :: p) s
| Matches_star_more (a : ascii) (p : list tok) (s : string) :
    is_newline a = false -> Matches (AnyStar :: p) s ->
    Matches (AnyStar :: p) (String a s).

(** ** Location and site canonicalisation *)

(** [LOC_MAP] of the analysis script, in insertion order. *)
Definition LOC_MAP : list (string * string) :=
  [ ("M44.*", "DSV Indoor");
    ("M1.*", "DSV Al Markaz");
    ("OUT.*", "DSV Outdoor");
    ("MOSB.*", "MOSB");
    ("MZP.*", "DSV MZP");
    (".*Indoor.*", "DSV Indoor");
    (".*Outdoor.*", "DSV Outdoor");
    (".*Al.*Markaz.*", "DSV Al Markaz");
    (".*Markaz.*", "DSV Al Markaz");
    ("Hauler.*Indoor", "DSV Indoor");
    ("DHL.*WH", "DHL WH");
    ("AAA.*Storage", "AAA Storage");
    ("Shifting", "Shifting") ].

(** The loop of [map_loc] over a rule table: the canonical name of the
    first rule whose pattern matches the whole string. *)
Fixpoint first_fullmatch (rules : list (string * string)) (raw_str : string)
  : option string :=
  match rules with
  | [] => None
  | (pattern, canonical) :: rules' =>
      if re_fullmatch pattern raw_str then Some canonical
      else first_fullmatch rules' raw_str
  end.

(** [map_loc(raw_code)]; [None] stands for a value on which [pd.isna]
    holds ([None] or NaN). *)
Definition map_loc (raw_code : option string) : string :=
  match raw_code with
  | None => "UNKNOWN"
  | Some raw =>
      let raw_str := strip raw in
      match first_fullmatch LOC_MAP raw_str with
      | Some canonical => canonical
      | None => raw_str
      end
  end.

(** [site_patterns] of [normalize_site_name]. *)
Definition site_patterns : list (string * list string) :=
  [ ("AGI", ["AGI"]); ("DAS", ["DAS"]); ("MIR", ["MIR"]); ("SHU", ["SHU"]) ].

Fixpoint first_site (rules : list (string * list string)) (name_upper : string)
  : option string :=
  match rules with
  | [] => None
  | (site, patterns) :: rules' =>
      if existsb (fun p => str_in p name_upper) patterns then Some site
      else first_site rules' name_upper
  end.

(** [normalize_site_name(raw_name)]. *)
Definition normalize_site_name (raw_name : option string) : string :=
  match raw_name with
  | None => "UNK"
  | Some raw =>
      match first_site site_patterns (str_upper raw) with
      | Some site => site
      | None => "UNK"
      end
  end.

(** ** Cell values and the loader's per-row extraction *)

(** What a spreadsheet cell holds once read by pandas. *)
Inductive PyVal : Type :=
| VNum (q : Q)        (* an int or a float other than NaN *)
| VNaN                (* an empty cell *)
| VStr (s : string)   (* text *)
| VDate (t : Z).      (* a Timestamp *)

(** A numeric result that may be NaN. *)
Inductive Num : Type :=
| Fin (q : Q)
| NaN.

(** Python truthiness of a number: zero is false, NaN is true. *)
Definition truthy (x : Num) : bool :=
  match x with
  | Fin q => negb (Qeq_bool q 0)
  | NaN => true
  end.

(** [x or d]. *)
Definition py_or (x d : Num) : Num := if truthy x then x else d.

Definition notna (v : PyVal) : bool :=
  match v with VNaN => false | _ => true end.

(** Nanoseconds per second and per day. *)
Definition ns_per_sec : Z := 1000000000.
Definition ns_per_day : Z := 86400 * ns_per_sec.

(** One extracted movement event (a row of the loader's frame). *)
Record Event : Type := mkEvent {
  ev_Case_No : string;
  ev_Date : Z;
  ev_Qty : Num;
  ev_Location : string;
  ev_Raw_Location : string;
  ev_Source_File : string
}.

Definition date_keywords : list string :=
  ["etd"; "eta"; "atd"; "ata"; "date"; "time"; "departure"; "arrival"].

Definition warehouse_patterns : list (string * list string) :=
  [ ("DSV Indoor", ["indoor"; "m44"; "hauler indoor"]);
    ("DSV Outdoor", ["outdoor"; "out "]);
    ("DSV Al Markaz", ["markaz"; "al markaz"; "m1"]);
    ("MOSB", ["mosb"; "barge"]);
    ("DSV MZP", ["mzp"]);
    ("DHL WH", ["dhl"]);
    ("AAA Storage", ["aaa"]);
    ("Shifting", ["shifting"]) ].

Definition column_site_patterns : list string := ["agi"; "das"; "mir"; "shu"].

(** [_extract_warehouse_from_column_name(col_name)]. *)
Definition _extract_warehouse_from_column_name (col_name : string) : string :=
  let col_lower := str_lower col_name in
  if existsb (fun keyword => str_in keyword col_lower) date_keywords then "UNKNOWN"
  else
    match first_site warehouse_patterns col_lower with
    | Some warehouse => warehouse
    | None =>
        match find (fun site => str_in site col_lower) column_site_patterns with
        | Some site => str_upper site
        | None => "UNKNOWN"
        end
    end.

Definition ev_Date_leb (a b : Event) : bool := ev_Date a <=? ev_Date b.

Section Loader.

(** pandas' conversions of one cell, taken as given:
    [pd.to_numeric(v, errors='coerce')] on a cell that is not already a
    number, [pd.to_datetime(v, errors='coerce')] ([None] is NaT) and
    Python's [str(v)]. *)
Variable coerce_numeric : PyVal -> Num.
Variable to_datetime : PyVal -> option Z.
Variable py_str : PyVal -> string.

(** [pd.to_numeric(v, errors='coerce')] on a scalar: a number is returned
    as it is, anything else goes through the parser and becomes NaN when
    it is not numeric. *)
Definition to_numeric (v : PyVal) : Num :=
  match v with
  | VNum q => Fin q
  | VNaN => NaN
  | _ => coerce_numeric v
  end.

(** [row.get(qty_col, 1)]: the default is used when no quantity column was
    found. *)
Definition row_get_qty (row : string -> PyVal) (qty_col : option string) : PyVal :=
  match qty_col with
  | Some col => row col
  | None => VNum 1
  end.

(** Line 259: [qty = pd.to_numeric(row.get(qty_col, 1), errors='coerce') or 1]. *)
Definition resolve_qty (row : string -> PyVal) (qty_col : option string) : Num :=
  py_or (to_numeric (row_get_qty row qty_col)) (Fin 1).

(** The events of one row, before they are sorted. *)
Fixpoint row_events (case_no : string) (qty : Num) (source_file : string)
  (row : string -> PyVal) (date_cols : list string) : list Event :=
  match date_cols with
  | [] => []
  | date_col :: rest =>
      let tail := row_events case_no qty source_file row rest in
      if notna (row date_col) then
        match to_datetime (row date_col) with
        | Some event_date =>
            let location := _extract_warehouse_from_column_name date_col in
            if String.eqb location "UNKNOWN" then tail
            else mkEvent case_no event_date qty location date_col source_file :: tail
        | None => tail
        end
      else tail
  end.

(** The body of the row loop of [_process_warehouse_file] for the row of
    index [idx]. *)
Definition process_row (case_col : string) (qty_col : option string)
  (date_cols : list string) (source_file : string) (idx : nat)
  (row : string -> PyVal) : list Event :=
  let case_no :=
    if notna (row case_col) then py_str (row case_col)
    else "CASE_" ++ NilZero.string_of_uint (Nat.to_uint idx) in
  let qty := resolve_qty row qty_col in
  sort_values ev_Date_leb (row_events case_no qty source_file row date_cols).

End Loader.

(** ** The transaction engine *)

(** [TxType]: 'IN' or 'OUT'. *)
Inductive TxDirection : Type := IN | OUT.

(** [TxType_Refined]: 'IN', 'TRANSFER_OUT' or 'FINAL_OUT'. *)
Inductive TxRefined : Type := R_IN | TRANSFER_OUT | FINAL_OUT.

(** A [Tx_ID] is the text [{case_no}_{date:%Y%m%d%H%M%S}_{IN|OUT}].  The
    date part has a fixed width, so two identifiers are equal exactly when
    the case number, the timestamp cut to the second and the suffix are:
    the identifier is kept as that triple. *)
Definition TxId : Type := string * Z * TxDirection.

Record Tx : Type := mkTx {
  Tx_ID : TxId;
  Case_No : string;
  Date : Z;
  Qty : Num;
  TxType : TxDirection;
  TxType_Refined : TxRefined;
  Loc_From : string;
  Loc_To : string;
  Location : string;
  Site : string;
  Source_File : string
}.

Definition TxDirection_eqb (a b : TxDirection) : bool :=
  match a, b with
  | IN, IN | OUT, OUT => true
  | _, _ => false
  end.

Definition TxId_eqb (a b : TxId) : bool :=
  let '(c1, t1, d1) := a in
  let '(c2, t2, d2) := b in
  String.eqb c1 c2 && (t1 =? t2) && TxDirection_eqb d1 d2.

Definition make_Tx_ID (case_no : string) (date : Z) (suffix : TxDirection) : TxId :=
  (case_no, date / ns_per_sec, suffix).

(** The order of [sort_values(['Case_No', 'Date'])]. *)
Definition case_date_leb (a b : Event) : bool :=
  match String.compare (ev_Case_No a) (ev_Case_No b) with
  | Lt => true
  | Eq => ev_Date a <=? ev_Date b
  | Gt => false
  end.

(** The 'IN' transaction of an event ([tx_in]). *)
Definition tx_in (case_no loc_from : string) (row : Event) : Tx :=
  let loc_to := ev_Location row in
  mkTx (make_Tx_ID case_no (ev_Date row) IN) case_no (ev_Date row) (ev_Qty row)
       IN R_IN loc_from loc_to loc_to (normalize_site_name (Some loc_to))
       (ev_Source_File row).

(** The 'OUT' transaction of an event that has a predecessor ([tx_out]). *)
Definition tx_out (case_no prev_location : string) (row : Event) : Tx :=
  let loc_to := ev_Location row in
  let site_name := normalize_site_name (Some loc_to) in
  let tx_type_refined :=
    if negb (String.eqb site_name "UNK") then FINAL_OUT else TRANSFER_OUT in
  mkTx (make_Tx_ID case_no (ev_Date row) OUT) case_no (ev_Date row) (ev_Qty row)
       OUT tx_type_refined prev_location loc_to prev_location site_name
       (ev_Source_File row).

(** The inner loop over the events of one case; [prev] is the location of
    the previous event of the group ([group.loc[i-1, 'Location']]), absent
    for the first one ([i = 0]). *)
Fixpoint case_transactions (case_no : string) (prev : option string)
  (group : list Event) : list Tx :=
  match group with
  | [] => []
  | row :: rest =>
      match prev with
      | None => [tx_in case_no "SOURCE" row]
      | Some prev_location =>
          [tx_in case_no prev_location row; tx_out case_no prev_location row]
      end ++ case_transactions case_no (Some (ev_Location row)) rest
  end.

(** The events as [create_transaction_log] walks them: sorted on case and
    date, then grouped by case. *)
Definition sorted_events (raw_events : list Event) : list Event :=
  sort_values case_date_leb raw_events.

Definition case_groups (raw_events : list Event) : list (string * list Event) :=
  groupby String.eqb ev_Case_No String.leb (sorted_events raw_events).

(** [EnhancedTransactionEngine.create_transaction_log]. *)
Definition create_transaction_log (raw_events : list Event) : list Tx :=
  drop_duplicates TxId_eqb Tx_ID
    (flat_map (fun g => case_transactions (fst g) None (snd g))
              (case_groups raw_events)).

(** ** The analysis engine: daily stock *)

(** [pd.to_datetime(...).dt.date]: the day of a timestamp. *)
Definition date_of (t : Z) : Z := t / ns_per_day.

(** [sum] of a column skips NaN. *)
Definition sum_skipna (l : list Num) : Q :=
  Qsum (flat_map (fun x => match x with Fin q => [q] | NaN => [] end) l).

(** The values of a column that are not NaN. *)
Definition dropna (l : list Num) : list Q :=
  flat_map (fun x => match x with Fin q => [q] | NaN => [] end) l.

Definition is_whole (q : Q) : bool := Qnum q mod Z.pos (Qden q) =? 0.

(** Quantities on which the sums and differences of a column are exact,
    in an int64 column as in a float64 one: whole numbers whose absolute
    values add up to less than 2^53. *)
Definition exact_quantities (l : list Q) : Prop :=
  forallb is_whole l = true /\ (Qsum (map Qabs l) < inject_Z (2 ^ 53))%Q.

Definition TxRefined_eqb (a b : TxRefined) : bool :=
  match a, b with
  | R_IN, R_IN | TRANSFER_OUT, TRANSFER_OUT | FINAL_OUT, FINAL_OUT => true
  | _, _ => false
  end.

(** The text of a refined type, for the order of the group keys. *)
Definition TxRefined_name (k : TxRefined) : string :=
  match k with
  | R_IN => "IN"
  | TRANSFER_OUT => "TRANSFER_OUT"
  | FINAL_OUT => "FINAL_OUT"
  end.

Definition LocDate : Type := string * Z.

Definition LocDate_eqb (a b : LocDate) : bool :=
  String.eqb (fst a) (fst b) && (snd a =? snd b).

Definition LocDate_leb (a b : LocDate) : bool :=
  match String.compare (fst a) (fst b) with
  | Lt => true
  | Eq => snd a <=? snd b
  | Gt => false
  end.

Definition SummaryKey : Type := LocDate * TxRefined.

Definition SummaryKey_eqb (a b : SummaryKey) : bool :=
  LocDate_eqb (fst a) (fst b) && TxRefined_eqb (snd a) (snd b).

Definition SummaryKey_leb (a b : SummaryKey) : bool :=
  if LocDate_eqb (fst a) (fst b)
  then String.leb (TxRefined_name (snd a)) (TxRefined_name (snd b))
  else LocDate_leb (fst a) (fst b).

Definition summary_key (t : Tx) : SummaryKey :=
  ((Location t, date_of (Date t)), TxType_Refined t).

(** [tx_df.groupby(['Location', 'Date', 'TxType_Refined']).agg({'Qty': 'sum'})]. *)
Definition daily_summary (tx_df : list Tx) : list (SummaryKey * Q) :=
  map (fun g => (fst g, sum_skipna (map Qty (snd g))))
      (groupby SummaryKey_eqb summary_key SummaryKey_leb tx_df).

(** One cell of [pivot_table(..., values='Qty', fill_value=0)]: the mean
    (the default [aggfunc]) of the summary rows of that index and column,
    0 where there is none or where the column had to be added. *)
Definition pivot_cell (summary : list (SummaryKey * Q)) (idx : LocDate)
  (col : TxRefined) : Q :=
  match map snd (filter (fun r => SummaryKey_eqb (fst r) (idx, col)) summary) with
  | [] => 0%Q
  | vs => (Qsum vs / inject_Z (Z.of_nat (List.length vs)))%Q
  end.

Record PivotRow : Type := mkPivotRow {
  pv_Location : string;
  pv_Date : Z;
  pv_IN : Q;
  pv_TRANSFER_OUT : Q;
  pv_FINAL_OUT : Q
}.

Definition daily_pivot (tx_df : list Tx) : list PivotRow :=
  let summary := daily_summary tx_df in
  map (fun idx => mkPivotRow (fst idx) (snd idx)
                    (pivot_cell summary idx R_IN)
                    (pivot_cell summary idx TRANSFER_OUT)
                    (pivot_cell summary idx FINAL_OUT))
      (sort_values LocDate_leb (unique LocDate_eqb (map (fun r => fst (fst r)) summary))).

Record StockRecord : Type := mkStockRecord {
  sr_Location : string;
  sr_Date : Z;
  Opening_Stock : Q;
  Inbound : Q;
  Transfer_Out : Q;
  Final_Out : Q;
  Total_Outbound : Q;
  Closing_Stock : Q;
  Date_Snapshot : Z
}.

(** The loop over the rows of one location, [opening_stock] being the
    variable carried from one iteration to the next. *)
Fixpoint stock_rows (location : string) (opening_stock : Q)
  (loc_data : list PivotRow) : list StockRecord :=
  match loc_data with
  | [] => []
  | row :: rest =>
      let inbound := pv_IN row in
      let transfer_out := pv_TRANSFER_OUT row in
      let final_out := pv_FINAL_OUT row in
      let total_outbound := (transfer_out + final_out)%Q in
      let closing_stock := (opening_stock + inbound - total_outbound)%Q in
      mkStockRecord location (pv_Date row) opening_stock inbound transfer_out
                    final_out total_outbound closing_stock (pv_Date row)
      :: stock_rows location closing_stock rest
  end.

Definition pv_Date_leb (a b : PivotRow) : bool := pv_Date a <=? pv_Date b.

Definition excluded_location (location : string) : bool :=
  String.eqb location "UNKNOWN" || String.eqb location "UNK".

Definition location_stock (pivot : list PivotRow) (location : string)
  : list StockRecord :=
  if excluded_location location then []
  else
    stock_rows location 0%Q
      (sort_values pv_Date_leb
         (filter (fun r => String.eqb (pv_Location r) location) pivot)).

(** [EnhancedAnalysisEngine.calculate_daily_stock]. *)
Definition calculate_daily_stock (tx_df : list Tx) : list StockRecord :=
  let pivot := daily_pivot tx_df in
  flat_map (location_stock pivot) (unique String.eqb (map pv_Location pivot)).

(** [calculate_daily_stock] also overwrites the 'Date' column of the frame
    it is given with the dates; read back as timestamps they are the
    midnights of those days. *)
Definition set_Date (t : Tx) (d : Z) : Tx :=
  mkTx (Tx_ID t) (Case_No t) d (Qty t) (TxType t) (TxType_Refined t)
       (Loc_From t) (Loc_To t) (Location t) (Site t) (Source_File t).

Definition dates_truncated (tx_df : list Tx) : list Tx :=
  map (fun t => set_Date t (date_of (Date t) * ns_per_day)) tx_df.

(** ** The analysis engine: integrity validation *)

Definition tolerance : Q := (1 # 100)%Q.

Record IntegrityDetail : Type := mkIntegrityDetail {
  det_Location : string;
  det_Date : Z;
  Expected : Q;
  Actual : Q;
  Difference : Q
}.

Inductive IntegrityStatus : Type := SKIP | PASS | FAIL.

(** The dictionary returned by [validate_stock_integrity] (the "SKIP"
    dictionary carries a message instead of the two other entries). *)
Record IntegrityReport : Type := mkIntegrityReport {
  status : IntegrityStatus;
  errors : nat;
  details : list IntegrityDetail
}.

Definition expected_closing (row : StockRecord) : Q :=
  (Opening_Stock row + Inbound row - Total_Outbound row)%Q.

Definition closing_difference (row : StockRecord) : Q :=
  Qabs (Closing_Stock row - expected_closing row).

(** [difference > 0.01]. *)
Definition out_of_balance (row : StockRecord) : bool :=
  negb (Qle_bool (closing_difference row) tolerance).

(** The entry appended to [validation_results] for a row. *)
Definition integrity_detail (row : StockRecord) : IntegrityDetail :=
  mkIntegrityDetail (sr_Location row) (sr_Date row) (expected_closing row)
                    (Closing_Stock row) (closing_difference row).

(** The validation loop: the error count and the list of results after the
    rows of [daily_stock_df], starting from [total_errors] and
    [validation_results]. *)
Fixpoint integrity_loop (daily_stock_df : list StockRecord) (total_errors : nat)
  (validation_results : list IntegrityDetail) : nat * list IntegrityDetail :=
  match daily_stock_df with
  | [] => (total_errors, validation_results)
  | row :: rest =>
      if out_of_balance row then
        integrity_loop rest (S total_errors)
          (validation_results ++ [integrity_detail row])
      else integrity_loop rest total_errors validation_results
  end.

(** [EnhancedAnalysisEngine.validate_stock_integrity]. *)
Definition validate_stock_integrity (daily_stock_df : list StockRecord)
  : IntegrityReport :=
  match daily_stock_df with
  | [] => mkIntegrityReport SKIP 0 []
  | _ =>
      let '(total_errors, validation_results) :=
        integrity_loop daily_stock_df 0 [] in
      if Nat.eqb total_errors 0 then mkIntegrityReport PASS 0 []
      else mkIntegrityReport FAIL total_errors (firstn 10 validation_results)
  end.

(** ** The analysis engine: dead stock *)

Definition default_threshold_days : Z := 180.

(** [max] of a column of dates (of a group, never empty). *)
Definition Zmax_list (l : list Z) : Z :=
  match l with
  | [] => 0
  | x :: l' => fold_left Z.max l' x
  end.

(** The 'first' aggregation: the first value that is not NaN. *)
Fixpoint first_valid (l : list Num) : Num :=
  match l with
  | [] => NaN
  | Fin q :: _ => Fin q
  | NaN :: l' => first_valid l'
  end.

(** [latest_moves]: per case, the last move date and the days since. *)
Record LatestMove : Type := mkLatestMove {
  lm_Case_No : string;
  lm_Last_Move_Date : Z;
  lm_Days_Since_Last_Move : Z
}.

Definition latest_moves (tx_df : list Tx) (current_date : Z) : list LatestMove :=
  map (fun g =>
         let last_move_date := Zmax_list (map Date (snd g)) in
         mkLatestMove (fst g) last_move_date
                      ((current_date - last_move_date) / ns_per_day))
      (groupby String.eqb Case_No String.leb tx_df).

(** [case_info]: per case, the first quantity, the location of the last
    row and the first source file. *)
Record CaseInfo : Type := mkCaseInfo {
  ci_Case_No : string;
  ci_Qty : Num;
  ci_Location : option string;
  ci_Source_File : option string
}.

Definition case_info (tx_df : list Tx) : list CaseInfo :=
  map (fun g =>
         mkCaseInfo (fst g) (first_valid (map Qty (snd g)))
                    (last (map (fun t => Some (Location t)) (snd g)) None)
                    (hd None (map (fun t => Some (Source_File t)) (snd g))))
      (groupby String.eqb Case_No String.leb tx_df).

Record DeadStock : Type := mkDeadStock {
  ds_Case_No : string;
  Last_Move_Date : Z;
  Days_Since_Last_Move : Z;
  ds_Qty : Num;
  ds_Location : option string;
  ds_Source_File : option string
}.

(** [dead_stock.merge(case_info, on='Case_No', how='left')] for one row. *)
Definition merge_case_info (info : list CaseInfo) (m : LatestMove) : list DeadStock :=
  match filter (fun i => String.eqb (ci_Case_No i) (lm_Case_No m)) info with
  | [] =>
      [mkDeadStock (lm_Case_No m) (lm_Last_Move_Date m)
                   (lm_Days_Since_Last_Move m) NaN None None]
  | matches =>
      map (fun i =>
             mkDeadStock (lm_Case_No m) (lm_Last_Move_Date m)
                         (lm_Days_Since_Last_Move m)
                         (ci_Qty i) (ci_Location i) (ci_Source_File i))
          matches
  end.

(** [EnhancedAnalysisEngine.analyze_dead_stock]; [current_date] is the
    value of [datetime.now()]. *)
Definition analyze_dead_stock (tx_df : list Tx) (current_date threshold_days : Z)
  : list DeadStock :=
  let dead_stock :=
    filter (fun m => threshold_days <=? lm_Days_Since_Last_Move m)
           (latest_moves tx_df current_date) in
  flat_map (merge_case_info (case_info tx_df)) dead_stock.

(** ** The analysis script: monthly warehouse analysis *)

(** Days since the epoch to (year, month, day) in the Gregorian calendar. *)
Definition civil_from_days (z : Z) : Z * Z * Z :=
  let z := z + 719468 in
  let era := z / 146097 in
  let doe := z - era * 146097 in
  let yoe := (doe - doe / 1460 + doe / 36524 - doe / 146096) / 365 in
  let doy := doe - (365 * yoe + yoe / 4 - yoe / 100) in
  let mp := (5 * doy + 2) / 153 in
  let d := doy - (153 * mp + 2) / 5 + 1 in
  let m := if mp <? 10 then mp + 3 else mp - 9 in
  let y := yoe + era * 400 in
  (if m <=? 2 then y + 1 else y, m, d).

(** [strftime('%Y-%m')].  For the four-digit years of a Timestamp the
    texts are ordered like the numbers [year * 100 + month], which stand
    for them here. *)
Definition year_month (t : Z) : Z :=
  let '(y, m, _) := civil_from_days (date_of t) in y * 100 + m.

(** A row of the movement frame built by [DataExtractor] (the columns the
    monthly analysis reads). *)
Record Movement : Type := mkMovement {
  mv_Case_No : string;
  mv_Date : Z;
  mv_Loc_From : option string;
  mv_Loc_To : option string;
  mv_Site : option string;
  mv_Qty : Q;
  mv_SQM : Q;
  mv_TxType : string
}.

Record MonthlyTx : Type := mkMonthlyTx {
  mt_Case_No : string;
  mt_Date : Z;
  mt_YearMonth : Z;
  mt_Location : option string;
  mt_TxType : TxDirection;
  mt_Qty : Q;
  mt_SQM : Q
}.

Definition is_some {A : Type} (o : option A) : bool :=
  match o with Some _ => true | None => false end.

(** Step 1: the transactions of one movement row. *)
Definition normalize_movement (row : Movement) : list MonthlyTx :=
  (match mv_Loc_To row with
   | Some loc_to =>
       [mkMonthlyTx (mv_Case_No row) (mv_Date row) (year_month (mv_Date row))
                    (Some loc_to) IN (mv_Qty row) (mv_SQM row)]
   | None => []
   end) ++
  (if is_some (mv_Site row) && String.eqb (mv_TxType row) "OUT" then
     [mkMonthlyTx (mv_Case_No row) (mv_Date row) (year_month (mv_Date row))
                  (mv_Loc_From row) OUT (mv_Qty row) (mv_SQM row)]
   else []).

Definition MonthKey : Type := string * Z * TxDirection.

Definition TxDirection_name (d : TxDirection) : string :=
  match d with IN => "IN" | OUT => "OUT" end.

Definition MonthKey_eqb (a b : MonthKey) : bool :=
  let '(l1, m1, d1) := a in
  let '(l2, m2, d2) := b in
  String.eqb l1 l2 && (m1 =? m2) && TxDirection_eqb d1 d2.

Definition MonthKey_leb (a b : MonthKey) : bool :=
  let '(l1, m1, d1) := a in
  let '(l2, m2, d2) := b in
  match String.compare l1 l2 with
  | Lt => true
  | Gt => false
  | Eq =>
      if m1 =? m2 then String.leb (TxDirection_name d1) (TxDirection_name d2)
      else m1 <=? m2
  end.

(** The rows that take part in a [groupby] on 'Location': those whose
    location is not missing, with that location. *)
Definition located (tx_df : list MonthlyTx) : list (string * MonthlyTx) :=
  flat_map (fun t => match mt_Location t with
                     | Some l => [(l, t)]
                     | None => []
                     end) tx_df.

Definition month_key (r : string * MonthlyTx) : MonthKey :=
  (fst r, mt_YearMonth (snd r), mt_TxType (snd r)).

Record MonthlySummary : Type := mkMonthlySummary {
  ms_Location : string;
  ms_YearMonth : Z;
  ms_TxType : TxDirection;
  ms_Qty : Q;
  ms_SQM : Q;
  ms_Case_No : nat
}.

(** Step 2: [tx_df.groupby(['Location', 'YearMonth', 'TxType']).agg(...)]. *)
Definition monthly_summary (tx_df : list MonthlyTx) : list MonthlySummary :=
  map (fun g =>
         let '(l, m, d) := fst g in
         mkMonthlySummary l m d
           (Qsum (map (fun r => mt_Qty (snd r)) (snd g)))
           (Qsum (map (fun r => mt_SQM (snd r)) (snd g)))
           (List.length (unique String.eqb (map (fun r => mt_Case_No (snd r)) (snd g)))))
      (groupby MonthKey_eqb month_key MonthKey_leb (located tx_df)).

(** [frame[(frame['Location'] == location) & (frame['YearMonth'] == month)]];
    a missing [location] equals no row. *)
Definition select_month (frame : list MonthlySummary) (location : option string)
  (month : Z) : list MonthlySummary :=
  filter (fun r =>
            match location with
            | Some l => String.eqb (ms_Location r) l
            | None => false
            end && (ms_YearMonth r =? month)) frame.

Definition option_string_eqb (a b : option string) : bool :=
  match a, b with
  | Some x, Some y => String.eqb x y
  | None, None => true
  | _, _ => false
  end.

Definition some_leb (a b : option string) : bool :=
  match a, b with
  | Some x, Some y => String.leb x y
  | _, _ => true
  end.

(** [sorted] on distinct locations: comparing a missing location with a
    text raises TypeError ([None] here); a single value is compared with
    nothing. *)
Definition sorted_locations (l : list (option string)) : option (list (option string)) :=
  match l with
  | [] => Some []
  | [x] => Some [x]
  | _ => if forallb is_some l then Some (sort_values some_leb l) else None
  end.

Record MonthlyRow : Type := mkMonthlyRow {
  mr_Location : option string;
  mr_YearMonth : Z;
  mr_Opening_Stock : Q;
  Inbound_Qty : Q;
  Outbound_Qty : Q;
  mr_Closing_Stock : Q;
  Inbound_SQM : Q;
  Outbound_SQM : Q;
  Net_Movement : Q
}.

(** The loop over the months for one location (step 5). *)
Fixpoint month_rows (inbound outbound : list MonthlySummary)
  (location : option string) (opening_stock : Q) (months : list Z)
  : list MonthlyRow :=
  match months with
  | [] => []
  | month :: rest =>
      let month_inbound := Qsum (map ms_Qty (select_month inbound location month)) in
      let month_outbound := Qsum (map ms_Qty (select_month outbound location month)) in
      let month_inbound_sqm := Qsum (map ms_SQM (select_month inbound location month)) in
      let month_outbound_sqm := Qsum (map ms_SQM (select_month outbound location month)) in
      let closing_stock := (opening_stock + month_inbound - month_outbound)%Q in
      mkMonthlyRow location month opening_stock month_inbound month_outbound
                   closing_stock month_inbound_sqm month_outbound_sqm
                   (month_inbound - month_outbound)%Q
      :: month_rows inbound outbound location closing_stock rest
  end.

Definition monthly_transactions (df : list Movement) : list MonthlyTx :=
  flat_map normalize_movement df.

Definition all_months (tx_df : list MonthlyTx) : list Z :=
  sort_values Z.leb (unique Z.eqb (map mt_YearMonth tx_df)).

(** Step 3: the inbound and the outbound rows of the summary. *)
Definition monthly_inbound (tx_df : list MonthlyTx) : list MonthlySummary :=
  filter (fun r => TxDirection_eqb (ms_TxType r) IN) (monthly_summary tx_df).

Definition monthly_outbound (tx_df : list MonthlyTx) : list MonthlySummary :=
  filter (fun r => TxDirection_eqb (ms_TxType r) OUT) (monthly_summary tx_df).

(** The body of the loop over the locations: 'UNKNOWN' is skipped, any
    other location gets its rows for all the months, from an opening
    stock of 0. *)
Definition location_months (tx_df : list MonthlyTx) (location : option string)
  : list MonthlyRow :=
  if option_string_eqb location (Some "UNKNOWN") then []
  else month_rows (monthly_inbound tx_df) (monthly_outbound tx_df) location 0%Q
                  (all_months tx_df).

(** What a call of [create_proper_monthly_warehouse_analysis] comes to:
    the dictionary it returns, kept as its entry 'monthly_stock_detail'
    ([None] for the empty dictionary), or the exception it raises. *)
Inductive MonthlyAnalysis : Type :=
| Returns (monthly_results : option (list MonthlyRow))
| TypeError
| KeyError.

(** [StockEngine.create_proper_monthly_warehouse_analysis(df)].  Without a
    movement, or without a transaction, it returns the empty dictionary;
    [sorted] raises TypeError on locations that cannot be compared; when
    'UNKNOWN' is the only location, [stock_df] is a frame without rows or
    columns, on which the first [pivot_table] of step 6 raises KeyError
    ('Inbound_Qty'); otherwise [stock_df], built in steps 1 to 5, is
    returned as 'monthly_stock_detail'. *)
Definition create_proper_monthly_warehouse_analysis (df : list Movement)
  : MonthlyAnalysis :=
  match df with
  | [] => Returns None
  | _ :: _ =>
      let tx_df := monthly_transactions df in
      match tx_df with
      | [] => Returns None
      | _ :: _ =>
          match sorted_locations
                  (unique option_string_eqb (map mt_Location tx_df)) with
          | None => TypeError
          | Some all_locations =>
              match flat_map (location_months tx_df) all_locations with
              | [] => KeyError
              | stock_df => Returns (Some stock_df)
              end
          end
      end
  end.

(** The frame 'monthly_stock_detail' of the dictionary returned, when the
    call returns and the dictionary has it. *)
Definition monthly_stock_detail (df : list Movement) : option (list MonthlyRow) :=
  match create_proper_monthly_warehouse_analysis df with
  | Returns monthly_results => monthly_results
  | TypeError | KeyError => None
  end.

(** *** The continuity check of [validate_stock_logic] *)

(** A continuity error: the location, the earlier month with its closing
    stock and the later month with its opening stock (the function words
    them into a message). *)
Record ContinuityError : Type := mkContinuityError {
  ce_Location : option string;
  ce_Prev_Month : Z;
  ce_Prev_Closing : Q;
  ce_Month : Z;
  ce_Curr_Opening : Q
}.

Definition mr_YearMonth_leb (a b : MonthlyRow) : bool :=
  mr_YearMonth a <=? mr_YearMonth b.

(** [column == location] on one cell: a missing value equals nothing. *)
Definition cell_equals (cell location : option string) : bool :=
  match cell, location with
  | Some a, Some b => String.eqb a b
  | _, _ => false
  end.

(** The loop [for i in range(1, len(loc_data))], [prev] being the row
    [i-1] and the list the rows from [i] on. *)
Fixpoint continuity_loop (location : option string) (prev : MonthlyRow)
  (loc_data : list MonthlyRow) : list ContinuityError :=
  match loc_data with
  | [] => []
  | curr :: rest =>
      let prev_closing := mr_Closing_Stock prev in
      let curr_opening := mr_Opening_Stock curr in
      (if negb (Qle_bool (Qabs (prev_closing - curr_opening)) tolerance)
       then [mkContinuityError location (mr_YearMonth prev) prev_closing
                               (mr_YearMonth curr) curr_opening]
       else []) ++ continuity_loop location curr rest
  end.

Definition location_continuity_errors (stock_df : list MonthlyRow)
  (location : option string) : list ContinuityError :=
  match sort_values mr_YearMonth_leb
          (filter (fun r => cell_equals (mr_Location r) location) stock_df) with
  | [] => []
  | first :: rest => continuity_loop location first rest
  end.

(** Step 2 of [StockEngine.validate_stock_logic]: the continuity errors it
    appends for the frame 'monthly_stock_detail'. *)
Definition continuity_errors (stock_df : list MonthlyRow) : list ContinuityError :=
  flat_map (location_continuity_errors stock_df)
           (unique option_string_eqb (map mr_Location stock_df)).

(** ** The analysis script: reconciliation *)

(** A row of the daily stock frame of [StockEngine.stock_daily]. *)
Record DailyRow : Type := mkDailyRow {
  dr_Loc : string;
  dr_Date : Z;
  dr_Opening : Q;
  dr_Inbound : Q;
  dr_Outbound : Q;
  dr_Closing : Q;
  dr_SQM : Q
}.

(** A row of the on-hand snapshot. *)
Record SnapRow : Type := mkSnapRow {
  sn_Loc_To : string;
  sn_Qty : Num
}.

Inductive ReconStatus : Type := OK | ATTENTION.
Inductive AlertLevel : Type := LOW | MEDIUM | HIGH.

Record Comparison : Type := mkComparison {
  cmp_Loc : string;
  Tx_Closing : Q;
  OnHand_Qty : Q;
  Delta : Q;
  Status : ReconStatus;
  Alert_Level : AlertLevel
}.

Definition dr_Date_leb (a b : DailyRow) : bool := dr_Date a <=? dr_Date b.

(** [groupby('Loc').tail(1)]: the rows that are the last of their
    location, in frame order. *)
Fixpoint groupby_tail1 (l : list DailyRow) : list DailyRow :=
  match l with
  | [] => []
  | r :: rest =>
      if existsb (fun r' => String.eqb (dr_Loc r') (dr_Loc r)) rest
      then groupby_tail1 rest
      else r :: groupby_tail1 rest
  end.

(** [tx_last]: the closing stock of the last row of each location. *)
Definition tx_last (daily_stock : list DailyRow) : list (string * Q) :=
  map (fun r => (dr_Loc r, dr_Closing r))
      (groupby_tail1 (sort_values dr_Date_leb daily_stock)).

(** [snap_sum]: the snapshot quantity summed per location. *)
Definition snap_sum (onhand_df : list SnapRow) : list (string * Q) :=
  map (fun g => (fst g, sum_skipna (map sn_Qty (snd g))))
      (groupby String.eqb sn_Loc_To String.leb onhand_df).

(** The value of a series at a label, 0 where [fillna(0)] filled it in. *)
Fixpoint series_get (s : list (string * Q)) (loc : string) : Q :=
  match s with
  | [] => 0%Q
  | (l, v) :: s' => if String.eqb l loc then v else series_get s' loc
  end.

(** The index of [pd.concat([tx_last, snap_sum], axis=1)]: the labels of
    the first series, then the new ones of the second. *)
Definition concat_index (a b : list (string * Q)) : list string :=
  unique String.eqb (map fst a ++ map fst b).

Definition compare_row (a b : list (string * Q)) (loc : string) : Comparison :=
  let tx_closing := series_get a loc in
  let onhand_qty := series_get b loc in
  let delta := (onhand_qty - tx_closing)%Q in
  mkComparison loc tx_closing onhand_qty delta
    (if Qle_bool (Qabs delta) 5 then OK else ATTENTION)
    (if negb (Qle_bool (Qabs delta) 10) then HIGH
     else if negb (Qle_bool (Qabs delta) 5) then MEDIUM else LOW).

(** The on-hand snapshot handed to [reconcile]: a frame, as the signature
    has it, or the list of the records of [load_onhand_snapshot], as
    [main] passes it. *)
Inductive Snapshot : Type :=
| SnapFrame (onhand_df : list SnapRow)
| SnapRecords (onhand_movements : list SnapRow).

(** What a call of [reconcile] comes to: the comparison frame, or the
    AttributeError of [onhand_snap.empty] on a list. *)
Inductive Reconciliation : Type :=
| Compared (comparison : list Comparison)
| AttributeError.

(** [StockEngine.reconcile].  The guard reads [daily_stock.empty] first
    and [onhand_snap.empty] only when the ledger has rows. *)
Definition reconcile (daily_stock : list DailyRow) (onhand_snap : Snapshot)
  : Reconciliation :=
  match daily_stock with
  | [] => Compared []
  | _ :: _ =>
      match onhand_snap with
      | SnapRecords _ => AttributeError
      | SnapFrame [] => Compared []
      | SnapFrame onhand_df =>
          let a := tx_last daily_stock in
          let b := snap_sum onhand_df in
          Compared (map (compare_row a b) (concat_index a b))
      end
  end.

(** The call in [main]:
    [reconcile(daily_stock, onhand_movements) if onhand_movements else pd.DataFrame()]. *)
Definition reconcile_result (daily_stock : list DailyRow)
  (onhand_movements : list SnapRow) : Reconciliation :=
  match onhand_movements with
  | [] => Compared []
  | _ :: _ => reconcile daily_stock (SnapRecords onhand_movements)
  end.

(** ** Sample data

    The two scenarios of the specification: case C1 enters DSV Indoor on
    2024-01-01 and is delivered to site MIR on 2024-01-05; case C2 moves
    from DSV Outdoor (2024-02-01) to DSV Indoor (2024-02-10). *)

Definition sample_file : string := "HVDC WAREHOUSE_HITACHI(HE).xlsx".

Definition ev_c1_indoor : Event :=
  mkEvent "C1" (19723 * ns_per_day) (Fin 10) "DSV Indoor" "DSV Indoor" sample_file.

Definition ev_c1_mir : Event :=
  mkEvent "C1" (19727 * ns_per_day) (Fin 10) "MIR" "MIR" sample_file.

Definition ev_c2_outdoor : Event :=
  mkEvent "C2" (19754 * ns_per_day) (Fin 5) "DSV Outdoor" "DSV Outdoor" sample_file.

Definition ev_c2_indoor : Event :=
  mkEvent "C2" (19763 * ns_per_day) (Fin 5) "DSV Indoor" "DSV Indoor" sample_file.

Definition sample_events : list Event :=
  [ev_c1_mir; ev_c2_indoor; ev_c1_indoor; ev_c2_outdoor].

Definition sample_log : list Tx := create_transaction_log sample_events.

Definition sample_exit : Tx := tx_out "C1" "DSV Indoor" ev_c1_mir.

(** Two later events of case C1 at one and the same instant. *)
Definition ev_tie_markaz : Event :=
  mkEvent "C1" (19730 * ns_per_day) (Fin 10) "DSV Al Markaz" "DSV Al Markaz" sample_file.

Definition ev_tie_mosb : Event :=
  mkEvent "C1" (19730 * ns_per_day) (Fin 10) "MOSB" "MOSB" sample_file.

(** Sample cell conversions: a Timestamp cell is a date, a text of
    decimal digits is a number. *)
Definition sample_to_datetime (v : PyVal) : option Z :=
  match v with
  | VDate t => Some t
  | _ => None
  end.

Definition sample_coerce_numeric (v : PyVal) : Num :=
  match v with
  | VStr s =>
      match NilEmpty.uint_of_string s with
      | Some u => match s with
                  | EmptyString => NaN
                  | _ => Fin (inject_Z (Z.of_uint u))
                  end
      | None => NaN
      end
  | _ => NaN
  end.

Definition sample_py_str (v : PyVal) : string :=
  match v with
  | VStr s => s
  | _ => ""
  end.

(** Sample sheet rows with the columns Case No., Q'ty and DSV Indoor:
    the quantity cell is 0, empty, or a text that is not a number. *)
Definition sample_row (qty : PyVal) (col : string) : PyVal :=
  if String.eqb col "Case No." then VStr "C7"
  else if String.eqb col "Q'ty" then qty
  else if String.eqb col "DSV Indoor" then VDate (19723 * ns_per_day)
  else VNaN.

Definition sample_process_row (qty_col : option string) (qty : PyVal) : list Event :=
  process_row sample_coerce_numeric sample_to_datetime sample_py_str
    "Case No." qty_col ["DSV Indoor"] sample_file 0 (sample_row qty).

(** The second row of the sample ledger, and a row that is out of
    balance: opening 100, inbound 20, outbound 50, stored closing 60. *)
Definition sample_stock_row : StockRecord :=
  mkStockRecord "DSV Indoor" 19727 10 0 0 10 10 0 19727.

Definition unbalanced_row : StockRecord :=
  mkStockRecord "DSV Indoor" 19723 100 20 50 0 50 60 19723.

Definition sample_indoor_rows : list StockRecord :=
  filter (fun r => String.eqb (sr_Location r) "DSV Indoor")
         (calculate_daily_stock sample_log).

Definition sample_indoor_first : StockRecord :=
  mkStockRecord "DSV Indoor" 19723 0 10 0 0 0 10 19723.

(** Sample movement rows of the analysis script: DSV Indoor receives case
    C1 in January and case C3 in March 2024, DSV Outdoor receives case C2
    in February, and case C1 is delivered to MIR in February. *)
Definition sample_movements : list Movement :=
  [ mkMovement "C1" (19723 * ns_per_day) None (Some "DSV Indoor") (Some "UNK")
               10 0 "IN";
    mkMovement "C2" (19754 * ns_per_day) None (Some "DSV Outdoor") (Some "UNK")
               5 0 "IN";
    mkMovement "C3" (19790 * ns_per_day) None (Some "DSV Indoor") (Some "UNK")
               4 0 "IN";
    mkMovement "C1" (19760 * ns_per_day) (Some "WAREHOUSE") None (Some "MIR")
               10 0 "OUT" ].

(** The February row of DSV Indoor in the monthly detail of the sample. *)
Definition sample_idle_month_row : MonthlyRow :=
  mkMonthlyRow (Some "DSV Indoor") 202402 10 0 0 10 0 0 0.

Definition sample_detail : list MonthlyRow :=
  match monthly_stock_detail sample_movements with
  | Some detail => detail
  | None => []
  end.

(** A sample daily stock frame and on-hand snapshot: DSV Indoor closes at
    812 against a count of 820 (scenario 5), DSV Outdoor is only in the
    ledger and MOSB only in the snapshot. *)
Definition sample_daily_stock : list DailyRow :=
  [ mkDailyRow "DSV Indoor" 19723 0 800 0 800 0;
    mkDailyRow "DSV Indoor" 19727 800 12 0 812 0;
    mkDailyRow "DSV Outdoor" 19754 0 5 0 5 0 ].

Definition sample_snapshot : list SnapRow :=
  [ mkSnapRow "DSV Indoor" (Fin 500);
    mkSnapRow "MOSB" (Fin 3);
    mkSnapRow "DSV Indoor" (Fin 320) ].

Definition sample_comparison : Comparison :=
  mkComparison "DSV Indoor" 812 820 8 ATTENTION MEDIUM.

(** An analysis time exactly 180 days after the last move of case C1 (its
    delivery to MIR on day 19727), and one a day earlier. *)
Definition sample_now : Z := (19727 + 180) * ns_per_day.

Definition sample_dead_entry : DeadStock :=
  mkDeadStock "C1" (19727 * ns_per_day) 180 (Fin 10) (Some "DSV Indoor")
              (Some sample_file).

(** * Further code of the two scripts *)

(** ** The analysis script: [validate_stock_logic]

    The validator for a frame with the columns of 'monthly_stock_detail'.
    Its errors and its warning are kept as data (the function words them
    into messages). *)

Inductive LogicError : Type :=
| StockMismatch (location : option string) (year_month : Z) (expected got : Q)
| Continuity (e : ContinuityError)
| BalanceError (location : option string)
    (total_inbound total_outbound expected_final final_stock : Q).

Record LogicReport : Type := mkLogicReport {
  validation_passed : bool;
  lr_errors : list LogicError;
  lr_warnings : list nat;
  total_records_checked : nat;
  locations_checked : nat;
  months_checked : nat
}.

(** What a call comes to: the early answer for a dictionary without the
    detail frame, the report, or the IndexError of [.iloc[-1]] on a
    selection without rows. *)
Inductive LogicOutcome : Type :=
| NoStockDetail
| Checked (report : LogicReport)
| IndexError.

(** Step 1, for one row. *)
Definition stock_mismatch (row : MonthlyRow) : list LogicError :=
  let expected_closing :=
    (mr_Opening_Stock row + Inbound_Qty row - Outbound_Qty row)%Q in
  if negb (Qle_bool (Qabs (mr_Closing_Stock row - expected_closing)) tolerance)
  then [StockMismatch (mr_Location row) (mr_YearMonth row) expected_closing
                      (mr_Closing_Stock row)]
  else [].

(** Step 4, for one location; [None] when [.iloc[-1]] raises. *)
Definition location_balance_errors (stock_df : list MonthlyRow)
  (location : option string) : option (list LogicError) :=
  let loc_data := filter (fun r => cell_equals (mr_Location r) location) stock_df in
  let total_inbound := Qsum (map Inbound_Qty loc_data) in
  let total_outbound := Qsum (map Outbound_Qty loc_data) in
  match loc_data with
  | [] => None
  | first :: _ =>
      let final_stock := mr_Closing_Stock (last loc_data first) in
      let expected_final := (total_inbound - total_outbound)%Q in
      Some (if negb (Qle_bool (Qabs (final_stock - expected_final)) tolerance)
            then [BalanceError location total_inbound total_outbound
                               expected_final final_stock]
            else [])
  end.

Fixpoint balance_errors (stock_df : list MonthlyRow)
  (locations : list (option string)) : option (list LogicError) :=
  match locations with
  | [] => Some []
  | location :: rest =>
      match location_balance_errors stock_df location with
      | None => None
      | Some found =>
          match balance_errors stock_df rest with
          | None => None
          | Some more => Some (found ++ more)%list
          end
      end
  end.

(** [nunique()] of the 'Location' column: missing values are not counted. *)
Definition present_locations (stock_df : list MonthlyRow) : list string :=
  flat_map (fun r => match mr_Location r with
                     | Some l => [l]
                     | None => []
                     end) stock_df.

(** [StockEngine.validate_stock_logic(monthly_results)]; the argument is
    [monthly_results.get('monthly_stock_detail')]. *)
Definition validate_stock_logic (monthly_results : option (list MonthlyRow))
  : LogicOutcome :=
  match monthly_results with
  | None => NoStockDetail
  | Some stock_df =>
      let locations := unique option_string_eqb (map mr_Location stock_df) in
      let mismatches := flat_map stock_mismatch stock_df in
      let continuity := map Continuity (continuity_errors stock_df) in
      let negative_stock :=
        filter (fun r => negb (Qle_bool 0 (mr_Closing_Stock r))) stock_df in
      let warnings :=
        match negative_stock with
        | [] => []
        | _ :: _ => [List.length negative_stock]
        end in
      match balance_errors stock_df locations with
      | None => IndexError
      | Some balance =>
          let errors := (mismatches ++ continuity ++ balance)%list in
          Checked
            (mkLogicReport
               (match errors with [] => true | _ :: _ => false end)
               errors warnings
               (List.length stock_df)
               (List.length (unique String.eqb (present_locations stock_df)))
               (List.length (unique Z.eqb (map mr_YearMonth stock_df))))
      end
  end.

(** ** The pipeline's column finder *)

(** [d[k] = v] on a dictionary kept as its items in insertion order: a key
    that is there keeps its place and takes the new value. *)
Fixpoint dict_set (d : list (string * string)) (k v : string)
  : list (string * string) :=
  match d with
  | [] => [(k, v)]
  | (k', v') :: d' =>
      if String.eqb k' k then (k', v) :: d' else (k', v') :: dict_set d' k v
  end.

(** [{str(col).lower(): str(col) for col in df.columns}]; the columns are
    given by their texts [str(col)]. *)
Definition df_cols_lower (columns : list string) : list (string * string) :=
  fold_left (fun d col => dict_set d (str_lower col) col) columns [].

(** [find_column(df, patterns)] of [hvdc_ontology_pipeline.py]. *)
Fixpoint find_column (columns : list string) (patterns : list string)
  : option string :=
  match patterns with
  | [] => None
  | pattern :: rest =>
      let p_lower := str_lower pattern in
      match find (fun item => str_in p_lower (fst item)) (df_cols_lower columns) with
      | Some (col_lower, col_original) => Some col_original
      | None => find_column columns rest
      end
  end.

(** ** The analysis engine: monthly summary *)

(** The year and month of a day, written as [year_month] writes them. *)
Definition day_year_month (d : Z) : Z :=
  let '(y, m, _) := civil_from_days d in y * 100 + m.

Definition month_summary_key (t : Tx) : SummaryKey :=
  ((Location t, year_month (Date t)), TxType_Refined t).

(** [tx_df.groupby(['Location', 'YearMonth', 'TxType_Refined']).agg({'Qty': 'sum'})]. *)
Definition monthly_tx (tx_df : list Tx) : list (SummaryKey * Q) :=
  map (fun g => (fst g, sum_skipna (map Qty (snd g))))
      (groupby SummaryKey_eqb month_summary_key SummaryKey_leb tx_df).

(** The pivot table on 'Location' and 'YearMonth'; the field [pv_Date] of
    its rows holds the year and month. *)
Definition monthly_pivot (tx_df : list Tx) : list PivotRow :=
  let summary := monthly_tx tx_df in
  map (fun idx => mkPivotRow (fst idx) (snd idx)
                    (pivot_cell summary idx R_IN)
                    (pivot_cell summary idx TRANSFER_OUT)
                    (pivot_cell summary idx FINAL_OUT))
      (sort_values LocDate_leb (unique LocDate_eqb (map (fun r => fst (fst r)) summary))).

Definition closing_key (r : StockRecord) : LocDate :=
  (sr_Location r, day_year_month (sr_Date r)).

(** [daily_stock.groupby(['Location', 'YearMonth'])['Closing_Stock'].last()]:
    per location and month, the closing stock of the last row of the
    group (no closing stock is NaN). *)
Definition monthly_closing (daily_stock : list StockRecord) : list (LocDate * Q) :=
  map (fun g => (fst g, last (map Closing_Stock (snd g)) 0%Q))
      (groupby LocDate_eqb closing_key LocDate_leb daily_stock).

Record MonthlySummaryRow : Type := mkMonthlySummaryRow {
  msr_Location : string;
  msr_YearMonth : Z;
  msr_IN : Q;
  msr_TRANSFER_OUT : Q;
  msr_FINAL_OUT : Q;
  msr_Closing_Stock : Q
}.

Definition with_closing (p : PivotRow) (closing_stock : Q) : MonthlySummaryRow :=
  mkMonthlySummaryRow (pv_Location p) (pv_Date p) (pv_IN p) (pv_TRANSFER_OUT p)
                      (pv_FINAL_OUT p) closing_stock.

(** [monthly_pivot.merge(monthly_closing, on=['Location', 'YearMonth'],
    how='left')] for one row, with the [fillna(0)] that follows. *)
Definition merge_closing (closing : list (LocDate * Q)) (p : PivotRow)
  : list MonthlySummaryRow :=
  match filter (fun c => LocDate_eqb (fst c) (pv_Location p, pv_Date p)) closing with
  | [] => [with_closing p 0%Q]
  | matches => map (fun c => with_closing p (snd c)) matches
  end.

(** [EnhancedAnalysisEngine.create_monthly_summary]. *)
Definition create_monthly_summary (tx_df : list Tx) (daily_stock : list StockRecord)
  : list MonthlySummaryRow :=
  match tx_df with
  | [] => []
  | _ :: _ =>
      let pivot := monthly_pivot tx_df in
      match daily_stock with
      | [] => map (fun p => with_closing p 0%Q) pivot
      | _ :: _ => flat_map (merge_closing (monthly_closing daily_stock)) pivot
      end
  end.

(** ** The pipeline's [main]

    Steps 2 to 4 of [main] of [hvdc_ontology_pipeline.py], up to the dead
    stock: nothing is analysed when no event was loaded ([None]);
    otherwise the log, the daily stock, its validation and the dead stock.
    [calculate_daily_stock] has overwritten the dates of the log by the
    time [analyze_dead_stock], called with its default threshold, reads
    it. *)
Definition main_analysis (raw_data : list Event) (current_date : Z)
  : option (list StockRecord * IntegrityReport * list DeadStock) :=
  match raw_data with
  | [] => None
  | _ :: _ =>
      let transaction_log := create_transaction_log raw_data in
      let daily_stock := calculate_daily_stock transaction_log in
      let transaction_log := dates_truncated transaction_log in
      let validation_results := validate_stock_integrity daily_stock in
      let dead_stock :=
        analyze_dead_stock transaction_log current_date default_threshold_days in
      Some (daily_stock, validation_results, dead_stock)
  end.

(** * Properties *)

(** ** Facts about the frame operations *)

Section SortFacts.
Context {A : Type}.
Variable leb : A -> A -> bool.

Lemma insert_row_Permutation (x : A) (l : list A) :
  Permutation (insert_row leb x l) (x :: l).
Proof.
  induction l as [|y l IH]; simpl; [reflexivity|].
  destruct (leb x y); [reflexivity|].
  rewrite IH. apply perm_swap.
Qed.

Lemma sort_values_Permutation (l : list A) : Permutation (sort_values leb l) l.
Proof.
  induction l as [|x l IH]; simpl; [constructor|].
  rewrite insert_row_Permutation. now constructor.
Qed.

Lemma sort_values_In (a : A) (l : list A) : In a (sort_values leb l) <-> In a l.
Proof.
  split; apply Permutation_in;
    [ | symmetry ]; apply sort_values_Permutation.
Qed.

Lemma sort_values_NoDup (l : list A) : NoDup l -> NoDup (sort_values leb l).
Proof.
  intro H. eapply Permutation_NoDup; [symmetry; apply sort_values_Permutation|exact H].
Qed.

(** A sort is stable: rows that the order does not tell apart keep their
    relative order. *)
Lemma filter_insert_row_stable (p : A -> bool) (x : A) (s : list A) :
  (forall y, In y s -> p x = true -> p y = true -> leb x y = true) ->
  filter p (insert_row leb x s) = filter p (x :: s).
Proof.
  induction s as [|y s IH]; intros H; [reflexivity|].
  cbn [insert_row]. destruct (leb x y) eqn:Hxy; [reflexivity|].
  cbn [filter]. rewrite IH by (intros; apply H; simpl; auto).
  cbn [filter].
  destruct (p x) eqn:Hx, (p y) eqn:Hy; try reflexivity.
  rewrite H in Hxy; simpl; auto. discriminate.
Qed.

Lemma sort_values_stable (p : A -> bool) (l : list A) :
  (forall a b, In a l -> In b l -> p a = true -> p b = true -> leb a b = true) ->
  filter p (sort_values leb l) = filter p l.
Proof.
  induction l as [|x l IH]; intros H; [reflexivity|].
  cbn [sort_values fold_right]. fold (sort_values leb l).
  rewrite filter_insert_row_stable.
  - cbn [filter]. rewrite IH; [reflexivity|].
    intros; apply H; simpl; auto.
  - intros y Hy. apply H; simpl; auto.
    right. now apply (proj1 (sort_values_In _ _)) in Hy.
Qed.

Hypothesis leb_total : forall a b, leb a b = true \/ leb b a = true.
Hypothesis leb_trans :
  forall a b c, leb a b = true -> leb b c = true -> leb a c = true.

Lemma insert_row_sorted (x : A) (l : list A) :
  StronglySorted (ordered_by leb) l -> StronglySorted (ordered_by leb) (insert_row leb x l).
Proof.
  induction 1 as [|y l Hs IH Hall]; simpl.
  - repeat constructor.
  - destruct (leb x y) eqn:Hxy.
    + constructor; [now constructor|].
      constructor; [exact Hxy|].
      eapply Forall_impl; [|exact Hall].
      intros z Hz. eapply leb_trans; eauto.
    + constructor; [exact IH|].
      assert (Hyx : leb y x = true) by (destruct (leb_total x y); congruence).
      rewrite Forall_forall in *. intros z Hz.
      apply (Permutation_in _ (insert_row_Permutation x l)) in Hz.
      destruct Hz as [<-|Hz]; [exact Hyx|now apply Hall].
Qed.

Lemma sort_values_sorted (l : list A) : StronglySorted (ordered_by leb) (sort_values leb l).
Proof.
  induction l; simpl; [constructor|now apply insert_row_sorted].
Qed.

(** Selecting rows commutes with sorting. *)
Lemma filter_insert_row (p : A -> bool) (x : A) (l : list A) :
  StronglySorted (ordered_by leb) l ->
  filter p (insert_row leb x l) =
  if p x then insert_row leb x (filter p l) else filter p l.
Proof.
  induction 1 as [|y l Hs IH Hall].
  - simpl. now destruct (p x).
  - cbn [insert_row]. destruct (leb x y) eqn:Hxy.
    + change (filter p (x :: y :: l))
        with (if p x then x :: filter p (y :: l) else filter p (y :: l)).
      destruct (p x) eqn:Hx; [|reflexivity].
      assert (Hhd : forall z, In z (filter p (y :: l)) -> leb x z = true).
      { intros z Hz. apply filter_In in Hz. destruct Hz as [[<-|Hz] _]; [exact Hxy|].
        rewrite Forall_forall in Hall. eapply leb_trans; eauto. now apply Hall. }
      destruct (filter p (y :: l)) as [|z r]; [reflexivity|].
      simpl. rewrite Hhd by (simpl; auto). reflexivity.
    + cbn [filter]. rewrite IH.
      destruct (p x), (p y); simpl; try rewrite Hxy; reflexivity.
Qed.

Lemma filter_sort_values (p : A -> bool) (l : list A) :
  filter p (sort_values leb l) = sort_values leb (filter p l).
Proof.
  induction l as [|x l IH]; [reflexivity|].
  cbn [sort_values fold_right]. fold (sort_values leb l).
  rewrite filter_insert_row by apply sort_values_sorted.
  rewrite IH. cbn [filter]. now destruct (p x).
Qed.

(** Sorting a sorted frame again changes nothing. *)
Lemma insert_row_head (x : A) (l : list A) :
  Forall (ordered_by leb x) l -> insert_row leb x l = x :: l.
Proof.
  destruct l as [|y l]; [reflexivity|].
  intro H. inversion H; subst. simpl. unfold ordered_by in *. now rewrite H2.
Qed.

Lemma sort_values_of_sorted (l : list A) :
  StronglySorted (ordered_by leb) l -> sort_values leb l = l.
Proof.
  induction 1 as [|x l Hs IH Hall]; [reflexivity|].
  cbn [sort_values fold_right]. fold (sort_values leb l).
  rewrite IH. now apply insert_row_head.
Qed.

Lemma sort_values_idempotent (l : list A) :
  sort_values leb (sort_values leb l) = sort_values leb l.
Proof. apply sort_values_of_sorted, sort_values_sorted. Qed.

End SortFacts.

Lemma insert_row_ext {A : Type} (leb1 leb2 : A -> A -> bool) (x : A) (s : list A) :
  (forall y, In y s -> leb1 x y = leb2 x y) ->
  insert_row leb1 x s = insert_row leb2 x s.
Proof.
  induction s as [|y s IHs]; intros Hin; [reflexivity|].
  simpl. rewrite Hin by (simpl; auto).
  destruct (leb2 x y); [reflexivity|].
  f_equal. apply IHs. intros; apply Hin; simpl; auto.
Qed.

Lemma sort_values_ext {A : Type} (leb1 leb2 : A -> A -> bool) (l : list A) :
  (forall a b, In a l -> In b l -> leb1 a b = leb2 a b) ->
  sort_values leb1 l = sort_values leb2 l.
Proof.
  induction l as [|x l IH]; intros H; [reflexivity|].
  cbn [sort_values fold_right]. fold (sort_values leb1 l) (sort_values leb2 l).
  rewrite IH by (intros; apply H; simpl; auto).
  apply insert_row_ext.
  intros y Hy. apply (proj1 (sort_values_In _ _ _)) in Hy. apply H; simpl; auto.
Qed.

Lemma StronglySorted_weaken {A : Type} (R1 R2 : A -> A -> Prop) (l : list A) :
  (forall a b, R1 a b -> R2 a b) -> StronglySorted R1 l -> StronglySorted R2 l.
Proof.
  intros H. induction 1 as [|x l Hs IH Hall]; constructor; [exact IH|].
  eapply Forall_impl; [|exact Hall]. auto.
Qed.

Lemma filter_all {A : Type} (p : A -> bool) (l : list A) :
  (forall a, In a l -> p a = true) -> filter p l = l.
Proof.
  induction l as [|x l IH]; intros H; [reflexivity|].
  simpl. rewrite H by (simpl; auto). f_equal. apply IH. intros; apply H; simpl; auto.
Qed.

Lemma filter_none {A : Type} (p : A -> bool) (l : list A) :
  (forall a, In a l -> p a = false) -> filter p l = [].
Proof.
  induction l as [|x l IH]; intros H; [reflexivity|].
  simpl. rewrite H by (simpl; auto). apply IH. intros; apply H; simpl; auto.
Qed.

Section UniqueFacts.
Context {K : Type}.
Variable keqb : K -> K -> bool.
Hypothesis keqb_spec : forall a b, keqb a b = true <-> a = b.

Lemma keqb_refl (a : K) : keqb a a = true.
Proof. now apply keqb_spec. Qed.

Lemma unique_In (k : K) (l : list K) : In k (unique keqb l) <-> In k l.
Proof.
  induction l as [|x l IH]; simpl; [tauto|].
  rewrite filter_In, IH, negb_true_iff.
  split.
  - intros [H|[H _]]; auto.
  - intros [H|H]; auto.
    destruct (keqb k x) eqn:E; [left; symmetry; now apply keqb_spec|right; auto].
Qed.

Lemma unique_NoDup (l : list K) : NoDup (unique keqb l).
Proof.
  induction l as [|x l IH]; simpl; constructor.
  - rewrite filter_In, keqb_refl. simpl. intros [_ H]. discriminate.
  - now apply NoDup_filter.
Qed.

Lemma drop_duplicates_In {A : Type} (key : A -> K) (a : A) (l : list A) :
  In a (drop_duplicates keqb key l) -> In a l.
Proof.
  induction l as [|x l IH]; simpl; [tauto|].
  rewrite filter_In. intros [H|[H _]]; auto.
Qed.

Lemma groupby_In {A : Type} (key : A -> K) (kleb : K -> K -> bool)
  (l : list A) (k : K) (g : list A) :
  In (k, g) (groupby keqb key kleb l) <-> In k (map key l) /\ g = rows_of keqb key k l.
Proof.
  unfold groupby. rewrite in_map_iff. split.
  - intros (k' & E & Hin). inversion E; subst.
    apply (proj1 (sort_values_In _ _ _)) in Hin. apply (proj1 (unique_In _ _)) in Hin. auto.
  - intros [Hin ->]. exists k. split; [reflexivity|].
    apply sort_values_In. now apply (proj2 (unique_In _ _)).
Qed.

Lemma groupby_keys_NoDup {A : Type} (key : A -> K) (kleb : K -> K -> bool)
  (l : list A) : NoDup (map fst (groupby keqb key kleb l)).
Proof.
  unfold groupby. rewrite map_map. simpl. rewrite map_id.
  apply sort_values_NoDup, unique_NoDup.
Qed.

Lemma rows_of_nonempty {A : Type} (key : A -> K) (k : K) (l : list A) :
  In k (map key l) -> rows_of keqb key k l <> [].
Proof.
  rewrite in_map_iff. intros (a & <- & Hin) E.
  assert (H : In a (rows_of keqb key (key a) l)).
  { apply filter_In. split; [exact Hin|apply keqb_refl]. }
  rewrite E in H. exact H.
Qed.

Lemma flat_map_filter_none {B : Type} (f : K -> list B) (key : B -> K)
  (ks : list K) (k : K) :
  (forall a b, In b (f a) -> key b = a) -> ~ In k ks ->
  filter (fun b => keqb (key b) k) (flat_map f ks) = [].
Proof.
  intros Hkey Hnotin. apply filter_none. intros b Hb.
  apply in_flat_map in Hb. destruct Hb as (a & Ha & Hb).
  destruct (keqb (key b) k) eqn:E; [|reflexivity].
  apply keqb_spec in E. rewrite (Hkey a b Hb) in E. subst. contradiction.
Qed.

(** Rows produced location by location: selecting one key picks the
    block of that key. *)
Lemma filter_flat_map_in {B : Type} (f : K -> list B) (key : B -> K)
  (ks : list K) (k : K) :
  NoDup ks -> (forall a b, In b (f a) -> key b = a) -> In k ks ->
  filter (fun b => keqb (key b) k) (flat_map f ks) = f k.
Proof.
  intros Hnd Hkey.
  assert (Hall : filter (fun b => keqb (key b) k) (f k) = f k).
  { apply filter_all. intros b Hb. apply keqb_spec. now apply Hkey. }
  assert (Hnone : forall a, a <> k -> filter (fun b => keqb (key b) k) (f a) = []).
  { intros a Hne. apply filter_none. intros b Hb.
    destruct (keqb (key b) k) eqn:E; [|reflexivity].
    apply keqb_spec in E. rewrite (Hkey a b Hb) in E. contradiction. }
  induction Hnd as [|a ks Hnotin Hnd IH]; simpl; [tauto|].
  rewrite filter_app. intros [->|Hin].
  - rewrite Hall. rewrite (flat_map_filter_none f key ks k); [apply app_nil_r| |exact Hnotin]; auto.
  - rewrite Hnone, IH by (auto; intros ->; contradiction). reflexivity.
Qed.

Lemma filter_flat_map_notin {B : Type} (f : K -> list B) (key : B -> K)
  (ks : list K) (k : K) :
  (forall a b, In b (f a) -> key b = a) -> ~ In k ks ->
  filter (fun b => keqb (key b) k) (flat_map f ks) = [].
Proof. intros; now apply flat_map_filter_none. Qed.

End UniqueFacts.

(** ** The order on case numbers *)

Lemma string_eqb_spec (a b : string) : String.eqb a b = true <-> a = b.
Proof. apply String.eqb_eq. Qed.

Lemma ascii_compare_refl (a : ascii) : Ascii.compare a a = Eq.
Proof. unfold Ascii.compare. apply N.compare_refl. Qed.

Lemma ascii_compare_lt_trans (a b c : ascii) :
  Ascii.compare a b = Lt -> Ascii.compare b c = Lt -> Ascii.compare a c = Lt.
Proof.
  unfold Ascii.compare. rewrite !N.compare_lt_iff. apply N.lt_trans.
Qed.

Lemma string_compare_refl (s : string) : String.compare s s = Eq.
Proof.
  induction s as [|a s IH]; simpl; [reflexivity|].
  now rewrite ascii_compare_refl.
Qed.

Lemma string_compare_lt_trans (a b c : string) :
  String.compare a b = Lt -> String.compare b c = Lt -> String.compare a c = Lt.
Proof.
  revert b c. induction a as [|x a IH]; intros [|y b] [|z c]; simpl;
    try discriminate; try reflexivity.
  destruct (Ascii.compare x y) eqn:Hxy, (Ascii.compare y z) eqn:Hyz;
    try discriminate; intros H1 H2.
  - apply Ascii.compare_eq_iff in Hxy, Hyz. subst.
    rewrite ascii_compare_refl. eauto.
  - apply Ascii.compare_eq_iff in Hxy. subst. now rewrite Hyz.
  - apply Ascii.compare_eq_iff in Hyz. subst. now rewrite Hxy.
  - now rewrite (ascii_compare_lt_trans _ _ _ Hxy Hyz).
Qed.

Lemma string_compare_gt_lt (a b : string) :
  String.compare a b = Gt <-> String.compare b a = Lt.
Proof.
  rewrite (String.compare_antisym a b).
  destruct (String.compare b a); simpl; split; congruence.
Qed.

Lemma case_date_leb_total (a b : Event) :
  case_date_leb a b = true \/ case_date_leb b a = true.
Proof.
  unfold case_date_leb.
  rewrite (String.compare_antisym (ev_Case_No b) (ev_Case_No a)).
  destruct (String.compare (ev_Case_No a) (ev_Case_No b)); simpl; auto.
  rewrite !Z.leb_le. lia.
Qed.

Lemma case_date_leb_trans (a b c : Event) :
  case_date_leb a b = true -> case_date_leb b c = true -> case_date_leb a c = true.
Proof.
  unfold case_date_leb.
  destruct (String.compare (ev_Case_No a) (ev_Case_No b)) eqn:Hab;
    destruct (String.compare (ev_Case_No b) (ev_Case_No c)) eqn:Hbc;
    try discriminate; intros H1 H2.
  - apply String.compare_eq_iff in Hab, Hbc. rewrite Hab, Hbc, string_compare_refl.
    rewrite Z.leb_le in *. lia.
  - apply String.compare_eq_iff in Hab. now rewrite Hab, Hbc.
  - apply String.compare_eq_iff in Hbc. now rewrite <- Hbc, Hab.
  - now rewrite (string_compare_lt_trans _ _ _ Hab Hbc).
Qed.

Lemma ev_Date_leb_total (a b : Event) :
  ev_Date_leb a b = true \/ ev_Date_leb b a = true.
Proof. unfold ev_Date_leb. rewrite !Z.leb_le. lia. Qed.

Lemma ev_Date_leb_trans (a b c : Event) :
  ev_Date_leb a b = true -> ev_Date_leb b c = true -> ev_Date_leb a c = true.
Proof. unfold ev_Date_leb. rewrite !Z.leb_le. lia. Qed.

(** ** The transaction engine *)

(** The events of one case, as the engine walks them, are the events of
    that case in source order, sorted on the date by a stable sort. *)
Lemma case_group_sorted_by_date (raw_events : list Event) (case_no : string) :
  rows_of String.eqb ev_Case_No case_no (sorted_events raw_events) =
  sort_values ev_Date_leb (rows_of String.eqb ev_Case_No case_no raw_events).
Proof.
  unfold sorted_events, rows_of.
  rewrite (filter_sort_values _ case_date_leb_total case_date_leb_trans).
  apply sort_values_ext. intros a b Ha Hb.
  apply filter_In in Ha, Hb. destruct Ha as [_ Ha], Hb as [_ Hb].
  apply String.eqb_eq in Ha, Hb.
  unfold case_date_leb, ev_Date_leb. now rewrite Ha, Hb, string_compare_refl.
Qed.

Lemma case_transactions_In (case_no : string) (group : list Event)
  (prev : option string) (t : Tx) :
  In t (case_transactions case_no prev group) ->
  exists row loc_from,
    In row group /\ (t = tx_in case_no loc_from row \/ t = tx_out case_no loc_from row).
Proof.
  revert prev. induction group as [|row rest IH]; intros prev; simpl; [tauto|].
  rewrite in_app_iff. intros [H|H].
  - destruct prev as [p|]; simpl in H.
    + destruct H as [<-|[<-|[]]]; eauto 6.
    + destruct H as [<-|[]]; eauto 6.
  - destruct (IH _ H) as (r & p & Hin & Ht). eauto 6.
Qed.

Lemma create_transaction_log_In (raw_events : list Event) (t : Tx) :
  In t (create_transaction_log raw_events) ->
  exists row loc_from,
    In row raw_events /\
    (t = tx_in (ev_Case_No row) loc_from row \/
     t = tx_out (ev_Case_No row) loc_from row).
Proof.
  unfold create_transaction_log. intros H.
  apply drop_duplicates_In in H. apply in_flat_map in H.
  destruct H as ([case_no group] & Hg & Ht). simpl in Ht.
  apply (groupby_In _ string_eqb_spec) in Hg. destruct Hg as [_ ->].
  apply case_transactions_In in Ht. destruct Ht as (row & p & Hrow & Ht).
  apply filter_In in Hrow. destruct Hrow as [Hrow Hc].
  apply String.eqb_eq in Hc. subst case_no.
  exists row, p. split; [|exact Ht].
  now apply (proj1 (sort_values_In _ _ _)) in Hrow.
Qed.

(** C3: an 'OUT' transaction of the log is the exit of a move from a
    previous location to the location [Loc_To] of an event of the input;
    it is recorded against the origin, and its refined type is FINAL_OUT
    exactly when [normalize_site_name] of the destination is not 'UNK',
    and TRANSFER_OUT otherwise. *)
Theorem exit_kind_follows_destination_site (raw_events : list Event) (t : Tx) :
  In t (create_transaction_log raw_events) ->
  TxType t = OUT ->
  (exists row, In row raw_events /\ Loc_To t = ev_Location row /\
               Case_No t = ev_Case_No row /\ Date t = ev_Date row) /\
  Location t = Loc_From t /\
  (TxType_Refined t = FINAL_OUT <-> normalize_site_name (Some (Loc_To t)) <> "UNK") /\
  (TxType_Refined t = TRANSFER_OUT <-> normalize_site_name (Some (Loc_To t)) = "UNK").
Proof.
  intros Hin Hout.
  destruct (create_transaction_log_In _ _ Hin) as (row & p & Hrow & [->| ->]);
    [discriminate|].
  split; [exists row; auto|].
  split; [reflexivity|].
  unfold tx_out; cbn [TxType_Refined Loc_To].
  destruct (String.eqb (normalize_site_name (Some (ev_Location row))) "UNK") eqn:E;
    cbn [negb].
  - apply String.eqb_eq in E. rewrite E. split; split; congruence.
  - apply String.eqb_neq in E. split; split; congruence.
Qed.

Lemma exit_kind_follows_destination_site_witness :
  In sample_exit (create_transaction_log sample_events) /\
  TxType sample_exit = OUT /\
  (exists row, In row sample_events /\ Loc_To sample_exit = ev_Location row /\
               Case_No sample_exit = ev_Case_No row /\
               Date sample_exit = ev_Date row) /\
  Location sample_exit = Loc_From sample_exit /\
  (TxType_Refined sample_exit = FINAL_OUT <->
   normalize_site_name (Some (Loc_To sample_exit)) <> "UNK") /\
  (TxType_Refined sample_exit = TRANSFER_OUT <->
   normalize_site_name (Some (Loc_To sample_exit)) = "UNK").
Proof.
  assert (Hin : In sample_exit (create_transaction_log sample_events)).
  { vm_compute. right. right. left. reflexivity. }
  split; [exact Hin|]. split; [reflexivity|].
  exact (exit_kind_follows_destination_site sample_events sample_exit Hin eq_refl).
Defined.

(** The two exits of the sample log: the delivery to MIR is a FINAL_OUT,
    the move to DSV Indoor a TRANSFER_OUT. *)
Example sample_log_exits :
  map (fun t => (Location t, Loc_To t, TxType_Refined t))
      (filter (fun t => TxDirection_eqb (TxType t) OUT) sample_log) =
  [("DSV Indoor", "MIR", FINAL_OUT); ("DSV Outdoor", "DSV Indoor", TRANSFER_OUT)].
Proof. vm_compute. reflexivity. Qed.

(** Two events of one case at the same instant: the one that comes first
    in the source is walked first, whichever way round they are given. *)
Example tie_keeps_source_order :
  map ev_Location (sorted_events [ev_tie_markaz; ev_tie_mosb; ev_c1_indoor]) =
    ["DSV Indoor"; "DSV Al Markaz"; "MOSB"] /\
  map ev_Location (sorted_events [ev_tie_mosb; ev_tie_markaz; ev_c1_indoor]) =
    ["DSV Indoor"; "MOSB"; "DSV Al Markaz"].
Proof. split; vm_compute; reflexivity. Qed.

(** ** The loader: quantity of the extracted events *)

Section LoaderFacts.
Variable coerce_numeric : PyVal -> Num.
Variable to_datetime : PyVal -> option Z.
Variable py_str : PyVal -> string.

Lemma row_events_Qty (case_no : string) (qty : Num) (source_file : string)
  (row : string -> PyVal) (date_cols : list string) (e : Event) :
  In e (row_events to_datetime case_no qty source_file row date_cols) ->
  ev_Qty e = qty.
Proof.
  induction date_cols as [|c rest IH]; simpl; [tauto|].
  destruct (notna (row c)); [|exact IH].
  destruct (to_datetime (row c)); [|exact IH].
  destruct (String.eqb _ _); [exact IH|].
  intros [<-|H]; [reflexivity|now apply IH].
Qed.

(** Every event of a row carries the quantity resolved for the row. *)
Lemma process_row_Qty (case_col : string) (qty_col : option string)
  (date_cols : list string) (source_file : string) (idx : nat)
  (row : string -> PyVal) (e : Event) :
  In e (process_row coerce_numeric to_datetime py_str case_col qty_col
          date_cols source_file idx row) ->
  ev_Qty e = resolve_qty coerce_numeric row qty_col.
Proof.
  unfold process_row. intros H.
  apply (proj1 (sort_values_In _ _ _)) in H.
  now apply row_events_Qty in H.
Qed.

Lemma py_or_zero (q : Q) (d : Num) : (q == 0)%Q -> py_or (Fin q) d = d.
Proof.
  intros H. unfold py_or, truthy.
  apply Qeq_bool_iff in H. now rewrite H.
Qed.

Lemma py_or_NaN (d : Num) : py_or NaN d = NaN.
Proof. reflexivity. Qed.

Lemma resolve_qty_missing_cell (row : string -> PyVal) (col : string) :
  row col = VNaN -> resolve_qty coerce_numeric row (Some col) = NaN.
Proof. unfold resolve_qty, row_get_qty. now intros ->. Qed.

Lemma resolve_qty_not_numeric (row : string -> PyVal) (col : string) :
  to_numeric coerce_numeric (row col) = NaN ->
  resolve_qty coerce_numeric row (Some col) = NaN.
Proof. unfold resolve_qty, row_get_qty. now intros ->. Qed.

Lemma resolve_qty_no_column (row : string -> PyVal) :
  resolve_qty coerce_numeric row None = Fin 1.
Proof. reflexivity. Qed.

Lemma resolve_qty_nonzero (row : string -> PyVal) (col : string) (q : Q) :
  to_numeric coerce_numeric (row col) = Fin q -> ~ (q == 0)%Q ->
  resolve_qty coerce_numeric row (Some col) = Fin q.
Proof.
  unfold resolve_qty, row_get_qty, py_or, truthy. intros -> Hq.
  destruct (Qeq_bool q 0) eqn:E; [|reflexivity].
  apply Qeq_bool_iff in E. contradiction.
Qed.

(** A date column of the row whose cell holds a date, and whose name is
    that of a warehouse, gives an event. *)
Lemma row_events_complete (case_no : string) (qty : Num) (source_file : string)
  (row : string -> PyVal) (date_cols : list string) (date_col : string)
  (event_date : Z) :
  In date_col date_cols ->
  notna (row date_col) = true ->
  to_datetime (row date_col) = Some event_date ->
  _extract_warehouse_from_column_name date_col <> "UNKNOWN" ->
  In (mkEvent case_no event_date qty
              (_extract_warehouse_from_column_name date_col) date_col source_file)
     (row_events to_datetime case_no qty source_file row date_cols).
Proof.
  intros Hin Hcell Hdate Hname.
  induction date_cols as [|c rest IH]; [contradiction|].
  cbn [row_events]. destruct Hin as [->|Hin].
  - rewrite Hcell, Hdate. apply String.eqb_neq in Hname. rewrite Hname.
    left. reflexivity.
  - specialize (IH Hin).
    destruct (notna (row c)); [|exact IH].
    destruct (to_datetime (row c)); [|exact IH].
    destruct (String.eqb _ _); [exact IH|]. right. exact IH.
Qed.

(** C10: when the quantity cell of a row parses to the number 0, the
    quantity resolved by [... or 1] is 1, as it is when there is no
    quantity column at all; the row gives the events it gives without a
    quantity column: one for every date column of a warehouse whose cell
    holds a date, and every one of them carries the quantity 1. *)
Theorem zero_quantity_is_replaced_by_one (case_col qty_col : string)
  (date_cols : list string) (source_file : string) (idx : nat)
  (row : string -> PyVal) (q : Q) :
  to_numeric coerce_numeric (row qty_col) = Fin q ->
  (q == 0)%Q ->
  let events :=
    process_row coerce_numeric to_datetime py_str case_col (Some qty_col)
      date_cols source_file idx row in
  resolve_qty coerce_numeric row (Some qty_col) = Fin 1 /\
  events = process_row coerce_numeric to_datetime py_str case_col None
             date_cols source_file idx row /\
  (forall e, In e events -> ev_Qty e = Fin 1) /\
  (forall date_col event_date,
     In date_col date_cols ->
     notna (row date_col) = true ->
     to_datetime (row date_col) = Some event_date ->
     _extract_warehouse_from_column_name date_col <> "UNKNOWN" ->
     exists e,
       In e events /\ ev_Qty e = Fin 1 /\ ev_Date e = event_date /\
       ev_Location e = _extract_warehouse_from_column_name date_col /\
       ev_Raw_Location e = date_col).
Proof.
  intros Hparse Hq events.
  assert (H1 : resolve_qty coerce_numeric row (Some qty_col) = Fin 1).
  { unfold resolve_qty, row_get_qty. rewrite Hparse. now apply py_or_zero. }
  split; [exact H1|]. split; [|split].
  - unfold events, process_row. cbv zeta. rewrite H1. reflexivity.
  - intros e He. apply process_row_Qty in He. now rewrite He.
  - intros date_col event_date Hin Hcell Hdate Hname.
    eexists. split.
    + unfold events, process_row. cbv zeta. apply sort_values_In.
      apply (row_events_complete _ _ _ _ _ _ _ Hin Hcell Hdate Hname).
    + cbn [ev_Qty ev_Date ev_Location ev_Raw_Location].
      split; [exact H1|]. repeat split.
Qed.

End LoaderFacts.

Lemma zero_quantity_is_replaced_by_one_witness :
  to_numeric sample_coerce_numeric (sample_row (VNum 0) "Q'ty") = Fin 0 /\
  (0 == 0)%Q /\
  resolve_qty sample_coerce_numeric (sample_row (VNum 0)) (Some "Q'ty") = Fin 1 /\
  sample_process_row (Some "Q'ty") (VNum 0) = sample_process_row None (VNum 0) /\
  exists e,
    In e (sample_process_row (Some "Q'ty") (VNum 0)) /\ ev_Qty e = Fin 1 /\
    ev_Date e = 19723 * ns_per_day /\ ev_Location e = "DSV Indoor".
Proof.
  split; [reflexivity|]. split; [reflexivity|].
  destruct (zero_quantity_is_replaced_by_one sample_coerce_numeric sample_to_datetime
              sample_py_str "Case No." "Q'ty" ["DSV Indoor"] sample_file 0%nat
              (sample_row (VNum 0)) 0%Q eq_refl (Qeq_refl 0))
    as (Hqty & Hsame & _ & Hevents).
  split; [exact Hqty|]. split; [exact Hsame|].
  destruct (Hevents "DSV Indoor" (19723 * ns_per_day)) as (e & He & Hq & Hd & Hl & _).
  - left. reflexivity.
  - reflexivity.
  - reflexivity.
  - vm_compute. discriminate.
  - exists e. split; [exact He|]. split; [exact Hq|]. split; [exact Hd|exact Hl].
Defined.

(** The row with quantity 0, read as text or as a number, yields one event
    of quantity 1; a quantity of 3 is kept. *)
Example zero_quantity_events :
  map ev_Qty (sample_process_row (Some "Q'ty") (VNum 0)) = [Fin 1] /\
  map ev_Qty (sample_process_row (Some "Q'ty") (VStr "0")) = [Fin 1] /\
  map ev_Qty (sample_process_row (Some "Q'ty") (VStr "3")) = [Fin 3] /\
  map ev_Qty (sample_process_row None VNaN) = [Fin 1].
Proof. repeat split; vm_compute; reflexivity. Qed.

(** C8 at its failing inputs: with an empty quantity cell, whatever the
    parser, and with a text that is not a number, the quantity resolved
    for the row is NaN, not the default 1: NaN is true for [or]. *)
Theorem unparsable_quantity_is_nan_not_one :
  (forall coerce_numeric,
     resolve_qty coerce_numeric (sample_row VNaN) (Some "Q'ty") = NaN) /\
  to_numeric sample_coerce_numeric (VStr "abc") = NaN /\
  map ev_Qty (sample_process_row (Some "Q'ty") (VStr "abc")) = [NaN] /\
  map ev_Qty (sample_process_row (Some "Q'ty") VNaN) = [NaN].
Proof.
  split; [intros; now apply resolve_qty_missing_cell|].
  repeat split; vm_compute; reflexivity.
Qed.

(** ** Location canonicalisation *)

Lemma tokens_fullmatch_star (p : list tok) (s : string) :
  tokens_fullmatch (AnyStar :: p) s =
  tokens_fullmatch p s ||
  match s with
  | EmptyString => false
  | String a s' => negb (is_newline a) && tokens_fullmatch (AnyStar :: p) s'
  end.
Proof. destruct s; reflexivity. Qed.

Lemma tokens_fullmatch_sound (p : list tok) (s : string) :
  tokens_fullmatch p s = true -> Matches p s.
Proof.
  revert s. induction p as [|[c|] p IH]; intros s.
  - destruct s; simpl; [constructor|discriminate].
  - destruct s as [|a s]; simpl; [discriminate|].
    rewrite andb_true_iff. intros [H1 H2]. constructor; auto.
  - induction s as [|a s IHs]; rewrite tokens_fullmatch_star.
    + rewrite orb_false_r. intros H. apply Matches_star_done. auto.
    + rewrite orb_true_iff, andb_true_iff, negb_true_iff.
      intros [H|[Hn H]].
      * apply Matches_star_done. auto.
      * apply Matches_star_more; auto.
Qed.

Lemma tokens_fullmatch_complete (p : list tok) (s : string) :
  Matches p s -> tokens_fullmatch p s = true.
Proof.
  induction 1 as [|c a p s Hc _ IH|p s _ IH|a p s Hn _ IH].
  - reflexivity.
  - simpl. now rewrite Hc, IH.
  - rewrite tokens_fullmatch_star, IH. reflexivity.
  - rewrite tokens_fullmatch_star, IH, Hn. simpl. apply orb_true_r.
Qed.

Lemma re_fullmatch_spec (pattern s : string) :
  re_fullmatch pattern s = true <-> Matches (parse_pattern pattern) s.
Proof.
  split; [apply tokens_fullmatch_sound|apply tokens_fullmatch_complete].
Qed.

Lemma first_fullmatch_first (rules before after : list (string * string))
  (pattern canonical raw_str : string) :
  rules = (before ++ (pattern, canonical) :: after)%list ->
  Matches (parse_pattern pattern) raw_str ->
  (forall p c, In (p, c) before -> ~ Matches (parse_pattern p) raw_str) ->
  first_fullmatch rules raw_str = Some canonical.
Proof.
  intros -> Hm. induction before as [|[p c] before IH]; intros Hno; simpl.
  - apply (proj2 (re_fullmatch_spec _ _)) in Hm. now rewrite Hm.
  - destruct (re_fullmatch p raw_str) eqn:E.
    + apply (proj1 (re_fullmatch_spec _ _)) in E. exfalso. apply (Hno p c); simpl; auto.
    + apply IH. intros p' c' Hin. apply (Hno p' c'). simpl; auto.
Qed.

Lemma first_fullmatch_none (rules : list (string * string)) (raw_str : string) :
  (forall p c, In (p, c) rules -> ~ Matches (parse_pattern p) raw_str) ->
  first_fullmatch rules raw_str = None.
Proof.
  induction rules as [|[p c] rules IH]; intros Hno; simpl; [reflexivity|].
  destruct (re_fullmatch p raw_str) eqn:E.
  - apply (proj1 (re_fullmatch_spec _ _)) in E. exfalso. apply (Hno p c); simpl; auto.
  - apply IH. intros p' c' Hin. apply (Hno p' c'). simpl; auto.
Qed.

Lemma lstrip_chars_decompose (l : list ascii) :
  exists spaces,
    l = (spaces ++ lstrip_chars l)%list /\ forallb is_space spaces = true.
Proof.
  induction l as [|c l IH]; [exists []; auto|].
  simpl. destruct (is_space c) eqn:E.
  - destruct IH as (spaces & Hl & Hs). exists (c :: spaces). simpl.
    rewrite E, Hs. split; [now f_equal|reflexivity].
  - exists []. auto.
Qed.

Lemma lstrip_chars_head (l : list ascii) (c : ascii) (rest : list ascii) :
  lstrip_chars l = c :: rest -> is_space c = false.
Proof.
  induction l as [|a l IH]; simpl; [discriminate|].
  destruct (is_space a) eqn:E; [exact IH|].
  intros H. injection H as <- _. exact E.
Qed.

Lemma lstrip_chars_fixed (l : list ascii) :
  match l with [] => True | c :: _ => is_space c = false end ->
  lstrip_chars l = l.
Proof. destruct l as [|c l]; simpl; [reflexivity|]. now intros ->. Qed.

(** A stripped text neither begins nor ends with a white-space character. *)
Lemma strip_chars_ends (l : list ascii) :
  let stripped := rev (lstrip_chars (rev (lstrip_chars l))) in
  match stripped with [] => True | c :: _ => is_space c = false end /\
  match rev stripped with [] => True | c :: _ => is_space c = false end.
Proof.
  cbv zeta. rewrite rev_involutive.
  set (m := lstrip_chars l).
  destruct (lstrip_chars_decompose (rev m)) as (spaces & Hm & _).
  set (n := lstrip_chars (rev m)) in *.
  split.
  - apply (f_equal (@rev ascii)) in Hm. rewrite rev_involutive, rev_app_distr in Hm.
    destruct (rev n) as [|c k] eqn:En; [exact I|].
    rewrite <- app_comm_cons in Hm.
    exact (lstrip_chars_head l c _ Hm).
  - destruct n as [|c k] eqn:En; [exact I|].
    exact (lstrip_chars_head (rev m) c k En).
Qed.

Lemma strip_idempotent (s : string) : strip (strip s) = strip s.
Proof.
  unfold strip. rewrite list_ascii_of_string_of_list_ascii.
  destruct (strip_chars_ends (list_ascii_of_string s)) as [Hhead Hlast].
  cbv zeta in Hhead, Hlast.
  set (t := rev (lstrip_chars (rev (lstrip_chars (list_ascii_of_string s))))) in *.
  rewrite (lstrip_chars_fixed t Hhead).
  rewrite (lstrip_chars_fixed (rev t) Hlast).
  now rewrite rev_involutive.
Qed.

(** Stripping takes white space off the two ends of a text and nothing
    else. *)
Lemma strip_decompose (s : string) :
  exists leading trailing,
    list_ascii_of_string s =
      (leading ++ list_ascii_of_string (strip s) ++ trailing)%list /\
    forallb is_space leading = true /\ forallb is_space trailing = true.
Proof.
  unfold strip. rewrite list_ascii_of_string_of_list_ascii.
  set (l := list_ascii_of_string s).
  destruct (lstrip_chars_decompose l) as (leading & Hl & Hleading).
  destruct (lstrip_chars_decompose (rev (lstrip_chars l))) as (spaces & Hm & Hspaces).
  exists leading, (rev spaces). split; [|split; [exact Hleading|]].
  - rewrite <- rev_app_distr, <- Hm, rev_involutive. exact Hl.
  - apply forallb_forall. intros c Hc. apply in_rev in Hc.
    exact (proj1 (forallb_forall _ _) Hspaces c Hc).
Qed.

(** C7, as the code has it, for ASCII text: a missing input gives UNKNOWN;
    otherwise the input is stripped of the white space at its two ends
    (the stripped text is the input without a leading and a trailing run
    of white space, and neither begins nor ends with white space) and the
    rules of [LOC_MAP] are tried in order, the first whose pattern matches
    the whole stripped text, letters compared without case, giving the
    result; when no rule matches the stripped text itself is returned, so
    that the empty text comes back as the empty text. *)
Theorem map_loc_first_full_match_or_stripped (raw : string) :
  isascii raw = true ->
  map_loc None = "UNKNOWN" /\
  (exists leading trailing,
     list_ascii_of_string raw =
       (leading ++ list_ascii_of_string (strip raw) ++ trailing)%list /\
     forallb is_space leading = true /\ forallb is_space trailing = true /\
     match list_ascii_of_string (strip raw) with
     | [] => True
     | c :: _ => is_space c = false
     end /\
     match rev (list_ascii_of_string (strip raw)) with
     | [] => True
     | c :: _ => is_space c = false
     end) /\
  (forall before pattern canonical after,
     LOC_MAP = (before ++ (pattern, canonical) :: after)%list ->
     Matches (parse_pattern pattern) (strip raw) ->
     (forall p c, In (p, c) before -> ~ Matches (parse_pattern p) (strip raw)) ->
     map_loc (Some raw) = canonical) /\
  ((forall p c, In (p, c) LOC_MAP -> ~ Matches (parse_pattern p) (strip raw)) ->
   map_loc (Some raw) = strip raw) /\
  map_loc (Some "") = "".
Proof.
  intros _.
  split; [reflexivity|]. split; [|split; [|split; [|reflexivity]]].
  - destruct (strip_decompose raw) as (leading & trailing & Hraw & Hl & Ht).
    exists leading, trailing.
    split; [exact Hraw|]. split; [exact Hl|]. split; [exact Ht|].
    unfold strip. rewrite list_ascii_of_string_of_list_ascii.
    exact (strip_chars_ends (list_ascii_of_string raw)).
  - intros before pattern canonical after HL Hm Hno. unfold map_loc.
    now rewrite (first_fullmatch_first _ _ _ _ _ _ HL Hm Hno).
  - intros Hno. unfold map_loc. now rewrite (first_fullmatch_none _ _ Hno).
Qed.

Lemma no_rule_matches_unlisted_zone (p c : string) :
  In (p, c) LOC_MAP -> ~ Matches (parse_pattern p) (strip "UNLISTED-ZONE").
Proof.
  intros Hin Hm. apply tokens_fullmatch_complete in Hm.
  unfold LOC_MAP in Hin. simpl in Hin.
  repeat (destruct Hin as [Hin|Hin];
          [inversion Hin; subst; vm_compute in Hm; discriminate|]).
  exact Hin.
Defined.

Lemma map_loc_first_full_match_or_stripped_witness :
  isascii "M44-BAY07" = true /\ isascii "UNLISTED-ZONE" = true /\
  map_loc (Some "M44-BAY07") = "DSV Indoor" /\
  map_loc (Some "UNLISTED-ZONE") = "UNLISTED-ZONE".
Proof.
  split; [reflexivity|]. split; [reflexivity|]. split.
  - apply (proj1 (proj2 (proj2 (map_loc_first_full_match_or_stripped
                                  "M44-BAY07" eq_refl)))
             [] "M44.*" "DSV Indoor" (tl LOC_MAP)).
    + reflexivity.
    + apply tokens_fullmatch_sound. vm_compute. reflexivity.
    + intros p c [].
  - apply (proj1 (proj2 (proj2 (proj2 (map_loc_first_full_match_or_stripped
                                         "UNLISTED-ZONE" eq_refl))))).
    exact no_rule_matches_unlisted_zone.
Defined.

(** The claim as stated fails on the empty text, which is returned as it
    is, and on a text with surrounding blanks, which is not returned
    verbatim. *)
Lemma map_loc_empty_text_is_not_unknown :
  map_loc (Some "") = "" /\ map_loc (Some "") <> "UNKNOWN" /\
  map_loc (Some " UNLISTED-ZONE ") <> " UNLISTED-ZONE ".
Proof. repeat split; vm_compute; discriminate. Qed.

Example map_loc_scenario :
  map_loc (Some "M44-BAY07") = "DSV Indoor" /\
  map_loc (Some "m44-bay07") = "DSV Indoor" /\
  map_loc (Some "UNLISTED-ZONE") = "UNLISTED-ZONE" /\
  map_loc (Some "Hauler Indoor") = "DSV Indoor" /\
  map_loc (Some " Al Markaz ") = "DSV Al Markaz" /\
  map_loc None = "UNKNOWN".
Proof. repeat split; vm_compute; reflexivity. Qed.

(** ** The daily stock ledger *)

Lemma LocDate_eqb_spec (a b : LocDate) : LocDate_eqb a b = true <-> a = b.
Proof.
  destruct a as [l1 d1], b as [l2 d2]. unfold LocDate_eqb. simpl.
  rewrite andb_true_iff, String.eqb_eq, Z.eqb_eq.
  split; [intros [-> ->]; reflexivity|intros E; inversion E; auto].
Qed.

Lemma TxRefined_eqb_spec (a b : TxRefined) : TxRefined_eqb a b = true <-> a = b.
Proof. destruct a, b; simpl; split; congruence. Qed.

Lemma SummaryKey_eqb_spec (a b : SummaryKey) : SummaryKey_eqb a b = true <-> a = b.
Proof.
  destruct a as [i1 k1], b as [i2 k2]. unfold SummaryKey_eqb. simpl.
  rewrite andb_true_iff, LocDate_eqb_spec, TxRefined_eqb_spec.
  split; [intros [-> ->]; reflexivity|intros E; inversion E; auto].
Qed.

Lemma stock_rows_In (location : string) (loc_data : list PivotRow)
  (opening_stock : Q) (row : StockRecord) :
  In row (stock_rows location opening_stock loc_data) ->
  sr_Location row = location /\
  Total_Outbound row = (Transfer_Out row + Final_Out row)%Q /\
  Closing_Stock row = (Opening_Stock row + Inbound row - Total_Outbound row)%Q /\
  exists p, In p loc_data /\ sr_Date row = pv_Date p /\ Inbound row = pv_IN p /\
            Transfer_Out row = pv_TRANSFER_OUT p /\ Final_Out row = pv_FINAL_OUT p.
Proof.
  revert opening_stock.
  induction loc_data as [|p rest IH]; intros opening_stock; simpl; [tauto|].
  intros [<-|H].
  - simpl. repeat split; try reflexivity. exists p. simpl. auto 6.
  - destruct (IH _ H) as (H1 & H2 & H3 & q & Hq & H4).
    repeat split; auto. exists q. simpl. auto.
Qed.

Lemma location_stock_In (pivot : list PivotRow) (location : string)
  (row : StockRecord) :
  In row (location_stock pivot location) ->
  excluded_location location = false /\
  In row (stock_rows location 0%Q
            (sort_values pv_Date_leb
               (filter (fun r => String.eqb (pv_Location r) location) pivot))).
Proof.
  unfold location_stock. destruct (excluded_location location); simpl; [tauto|auto].
Qed.

Lemma calculate_daily_stock_In (tx_df : list Tx) (row : StockRecord) :
  In row (calculate_daily_stock tx_df) ->
  In row (location_stock (daily_pivot tx_df) (sr_Location row)).
Proof.
  unfold calculate_daily_stock. intros H. apply in_flat_map in H.
  destruct H as (location & _ & H).
  destruct (location_stock_In _ _ _ H) as [_ H'].
  apply stock_rows_In in H'. destruct H' as [-> _]. exact H.
Qed.

Lemma Qabs_self_difference (x : Q) : (Qabs (x - x) <= tolerance)%Q.
Proof.
  assert (E : (x - x == 0)%Q) by ring.
  rewrite E. discriminate.
Qed.

Lemma out_of_balance_iff (row : StockRecord) :
  out_of_balance row = true <->
  ~ (Qabs (Closing_Stock row -
           (Opening_Stock row + Inbound row - Total_Outbound row)) <= tolerance)%Q.
Proof.
  unfold out_of_balance, closing_difference, expected_closing.
  rewrite negb_true_iff, <- Qle_bool_iff.
  destruct (Qle_bool _ _); split; congruence.
Qed.

Lemma integrity_loop_spec (df : list StockRecord) (n : nat)
  (acc : list IntegrityDetail) :
  integrity_loop df n acc =
  ((n + List.length (filter out_of_balance df))%nat,
   (acc ++ map integrity_detail (filter out_of_balance df))%list).
Proof.
  revert n acc. induction df as [|row rest IH]; intros n acc; simpl.
  - now rewrite Nat.add_0_r, app_nil_r.
  - destruct (out_of_balance row); rewrite IH; simpl.
    + rewrite <- app_assoc. simpl. f_equal. lia.
    + reflexivity.
Qed.

Lemma validate_stock_integrity_spec (df : list StockRecord) :
  df <> [] ->
  validate_stock_integrity df =
  match filter out_of_balance df with
  | [] => mkIntegrityReport PASS 0 []
  | bad => mkIntegrityReport FAIL (List.length bad)
                             (firstn 10 (map integrity_detail bad))
  end.
Proof.
  intros Hne. unfold validate_stock_integrity.
  destruct df as [|r df']; [contradiction|].
  rewrite integrity_loop_spec. cbn [Nat.add app].
  destruct (filter out_of_balance (r :: df')); reflexivity.
Qed.

(** C1: every row of the daily ledger stores as closing stock exactly the
    opening stock plus the inbound minus the total outbound, which is the
    transfers out plus the final exits, hence within the tolerance 0.01;
    on any frame the validator counts one error for each row that is
    out of balance by more than 0.01, reports FAIL as soon as there is
    one and lists the first ten; it finds no error in the ledger. *)
Theorem daily_stock_balance_and_validation (tx_df : list Tx)
  (daily_stock_df : list StockRecord) :
  (forall row, In row (calculate_daily_stock tx_df) ->
     Total_Outbound row = (Transfer_Out row + Final_Out row)%Q /\
     Closing_Stock row = (Opening_Stock row + Inbound row - Total_Outbound row)%Q /\
     (Qabs (Closing_Stock row -
            (Opening_Stock row + Inbound row - Total_Outbound row)) <= tolerance)%Q) /\
  (forall row, In row daily_stock_df ->
     ~ (Qabs (Closing_Stock row -
              (Opening_Stock row + Inbound row - Total_Outbound row)) <= tolerance)%Q ->
     status (validate_stock_integrity daily_stock_df) = FAIL /\
     (1 <= errors (validate_stock_integrity daily_stock_df))%nat /\
     In (integrity_detail row) (map integrity_detail (filter out_of_balance daily_stock_df))) /\
  errors (validate_stock_integrity daily_stock_df) =
    List.length (filter out_of_balance daily_stock_df) /\
  details (validate_stock_integrity daily_stock_df) =
    firstn 10 (map integrity_detail (filter out_of_balance daily_stock_df)) /\
  status (validate_stock_integrity (calculate_daily_stock tx_df)) <> FAIL /\
  errors (validate_stock_integrity (calculate_daily_stock tx_df)) = 0%nat.
Proof.
  assert (Hbal : forall row, In row (calculate_daily_stock tx_df) ->
            Total_Outbound row = (Transfer_Out row + Final_Out row)%Q /\
            Closing_Stock row =
              (Opening_Stock row + Inbound row - Total_Outbound row)%Q).
  { intros row H. apply calculate_daily_stock_In, location_stock_In in H.
    destruct H as [_ H]. apply stock_rows_In in H. tauto. }
  assert (Hok : filter out_of_balance (calculate_daily_stock tx_df) = []).
  { apply filter_none. intros row H.
    destruct (out_of_balance row) eqn:E; [|reflexivity].
    apply out_of_balance_iff in E. exfalso. apply E.
    destruct (Hbal row H) as [_ ->]. apply Qabs_self_difference. }
  split; [|split; [|split; [|split; [|split]]]].
  - intros row H. destruct (Hbal row H) as [H1 H2].
    split; [exact H1|]. split; [exact H2|].
    rewrite H2 at 1. apply Qabs_self_difference.
  - intros row Hin Hbad.
    assert (Hf : In row (filter out_of_balance daily_stock_df)).
    { apply filter_In. split; [exact Hin|]. now apply out_of_balance_iff. }
    assert (Hne : daily_stock_df <> []) by (intros ->; contradiction).
    rewrite (validate_stock_integrity_spec _ Hne).
    destruct (filter out_of_balance daily_stock_df) as [|b bad] eqn:E;
      [contradiction|].
    split; [reflexivity|]. split; [simpl; lia|]. now apply in_map.
  - destruct daily_stock_df as [|r df']; [reflexivity|].
    rewrite validate_stock_integrity_spec by discriminate.
    destruct (filter out_of_balance (r :: df')); reflexivity.
  - destruct daily_stock_df as [|r df']; [reflexivity|].
    rewrite validate_stock_integrity_spec by discriminate.
    destruct (filter out_of_balance (r :: df')); reflexivity.
  - destruct (calculate_daily_stock tx_df) as [|r df'] eqn:E; [discriminate|].
    rewrite validate_stock_integrity_spec by discriminate.
    rewrite Hok. discriminate.
  - destruct (calculate_daily_stock tx_df) as [|r df'] eqn:E; [reflexivity|].
    rewrite validate_stock_integrity_spec by discriminate.
    now rewrite Hok.
Qed.

Lemma daily_stock_balance_and_validation_witness :
  In sample_stock_row (calculate_daily_stock sample_log) /\
  Closing_Stock sample_stock_row =
    (Opening_Stock sample_stock_row + Inbound sample_stock_row -
     Total_Outbound sample_stock_row)%Q /\
  In unbalanced_row [unbalanced_row] /\
  status (validate_stock_integrity [unbalanced_row]) = FAIL /\
  (1 <= errors (validate_stock_integrity [unbalanced_row]))%nat.
Proof.
  destruct (daily_stock_balance_and_validation sample_log [unbalanced_row])
    as (Hledger & Hvalid & _).
  assert (Hin : In sample_stock_row (calculate_daily_stock sample_log)).
  { vm_compute. right. left. reflexivity. }
  assert (Hbad : ~ (Qabs (Closing_Stock unbalanced_row -
                          (Opening_Stock unbalanced_row + Inbound unbalanced_row -
                           Total_Outbound unbalanced_row)) <= tolerance)%Q).
  { intros H. vm_compute in H. apply H. reflexivity. }
  split; [exact Hin|].
  split; [exact (proj1 (proj2 (Hledger _ Hin)))|].
  split; [left; reflexivity|].
  destruct (Hvalid unbalanced_row (or_introl eq_refl) Hbad) as (H1 & H2 & _).
  split; [exact H1|exact H2].
Defined.

(** The row of scenario 4: one balance error, expected 70, actual 60. *)
Example unbalanced_row_report :
  validate_stock_integrity [sample_stock_row; unbalanced_row] =
  mkIntegrityReport FAIL 1
    [mkIntegrityDetail "DSV Indoor" 19723 70 60 10].
Proof. vm_compute. reflexivity. Qed.

(** *** Continuity *)

Lemma stock_rows_dates (location : string) (loc_data : list PivotRow)
  (opening_stock : Q) :
  map sr_Date (stock_rows location opening_stock loc_data) = map pv_Date loc_data.
Proof.
  revert opening_stock. induction loc_data as [|p rest IH]; intros o; simpl;
    [reflexivity|now rewrite IH].
Qed.

Lemma stock_rows_head (location : string) (loc_data : list PivotRow)
  (opening_stock : Q) (first : StockRecord) (rest : list StockRecord) :
  stock_rows location opening_stock loc_data = first :: rest ->
  Opening_Stock first = opening_stock.
Proof.
  destruct loc_data as [|p l]; simpl; [discriminate|].
  intros E. inversion E. reflexivity.
Qed.

Lemma stock_rows_carry (location : string) (loc_data : list PivotRow)
  (opening_stock : Q) (before after : list StockRecord)
  (earlier later : StockRecord) :
  stock_rows location opening_stock loc_data =
    (before ++ earlier :: later :: after)%list ->
  Opening_Stock later = Closing_Stock earlier.
Proof.
  revert opening_stock before.
  induction loc_data as [|p l IH]; intros o before; simpl.
  - destruct before; discriminate.
  - destruct before as [|x before]; simpl; intros E; inversion E as [[E1 E2]].
    + apply stock_rows_head in E2. rewrite E2. reflexivity.
    + eapply IH. exact E2.
Qed.

Lemma StronglySorted_map {A B : Type} (f : A -> B) (R : B -> B -> Prop)
  (l : list A) :
  StronglySorted R (map f l) -> StronglySorted (fun a b => R (f a) (f b)) l.
Proof.
  induction l as [|x l IH]; simpl; intros H; constructor;
    inversion H as [|? ? Hs Hall]; subst.
  - auto.
  - rewrite Forall_forall in *. intros y Hy. apply Hall. now apply in_map.
Qed.

Lemma StronglySorted_map_intro {A B : Type} (f : A -> B) (R : B -> B -> Prop)
  (l : list A) :
  StronglySorted (fun a b => R (f a) (f b)) l -> StronglySorted R (map f l).
Proof.
  induction 1 as [|x l Hs IH Hall]; simpl; constructor; [exact IH|].
  rewrite Forall_forall in *. intros y Hy.
  apply in_map_iff in Hy. destruct Hy as (a & <- & Ha). now apply Hall.
Qed.

Lemma StronglySorted_le_NoDup_lt (l : list Z) :
  StronglySorted Z.le l -> NoDup l -> StronglySorted Z.lt l.
Proof.
  induction 1 as [|x l Hs IH Hall]; intros Hnd; constructor;
    inversion Hnd as [|? ? Hnotin Hnd']; subst.
  - auto.
  - rewrite Forall_forall in *. intros y Hy.
    assert (x <> y) by (intros ->; contradiction).
    specialize (Hall y Hy). lia.
Qed.

Lemma StronglySorted_adjacent {A : Type} (R : A -> A -> Prop)
  (before after : list A) (a b : A) :
  StronglySorted R (before ++ a :: b :: after)%list -> R a b.
Proof.
  induction before as [|x before IH]; simpl; intros H;
    inversion H as [|? ? Hs Hall]; subst.
  - inversion Hall; assumption.
  - auto.
Qed.

Lemma daily_pivot_keys (tx_df : list Tx) :
  NoDup (map (fun r => (pv_Location r, pv_Date r)) (daily_pivot tx_df)).
Proof.
  unfold daily_pivot. rewrite map_map. cbn [pv_Location pv_Date].
  rewrite (map_ext _ (fun idx => idx)) by (intros [l d]; reflexivity).
  rewrite map_id.
  apply sort_values_NoDup, (unique_NoDup _ LocDate_eqb_spec).
Qed.

Lemma location_dates_NoDup (pivot : list PivotRow) (location : string) :
  NoDup (map (fun r => (pv_Location r, pv_Date r)) pivot) ->
  NoDup (map pv_Date
           (filter (fun r => String.eqb (pv_Location r) location) pivot)).
Proof.
  induction pivot as [|r pivot IH]; simpl; intros H; [constructor|].
  inversion H as [|? ? Hnotin Hnd]; subst.
  destruct (String.eqb (pv_Location r) location) eqn:E; [|auto].
  simpl. constructor; [|auto].
  intros Hin. apply in_map_iff in Hin. destruct Hin as (r' & Hd & Hr').
  apply filter_In in Hr'. destruct Hr' as [Hr' E'].
  apply String.eqb_eq in E, E'. apply Hnotin.
  apply in_map_iff. exists r'. split; [|exact Hr']. congruence.
Qed.

Lemma pv_Date_leb_total (a b : PivotRow) :
  pv_Date_leb a b = true \/ pv_Date_leb b a = true.
Proof. unfold pv_Date_leb. rewrite !Z.leb_le. lia. Qed.

Lemma pv_Date_leb_trans (a b c : PivotRow) :
  pv_Date_leb a b = true -> pv_Date_leb b c = true -> pv_Date_leb a c = true.
Proof. unfold pv_Date_leb. rewrite !Z.leb_le. lia. Qed.

(** The rows of one location come out in strictly increasing date order. *)
Lemma location_stock_sorted (tx_df : list Tx) (location : string) :
  StronglySorted (fun a b => sr_Date a < sr_Date b)
    (location_stock (daily_pivot tx_df) location).
Proof.
  unfold location_stock. destruct (excluded_location location); [constructor|].
  apply StronglySorted_map. rewrite stock_rows_dates.
  set (loc_data := filter _ (daily_pivot tx_df)).
  apply StronglySorted_le_NoDup_lt.
  - apply StronglySorted_map_intro.
    eapply StronglySorted_weaken;
      [|apply (sort_values_sorted _ pv_Date_leb_total pv_Date_leb_trans)].
    intros a b H. unfold pv_Date_leb in H. now apply Z.leb_le.
  - eapply Permutation_NoDup.
    + apply Permutation_map. symmetry. apply sort_values_Permutation.
    + apply location_dates_NoDup, daily_pivot_keys.
Qed.

Lemma location_stock_location (pivot : list PivotRow) (location : string)
  (row : StockRecord) :
  In row (location_stock pivot location) -> sr_Location row = location.
Proof.
  intros H. apply location_stock_In in H. destruct H as [_ H].
  now apply stock_rows_In in H.
Qed.

(** The rows of a location in the ledger are the block computed for it. *)
Lemma rows_of_location (tx_df : list Tx) (location : string) :
  let rows := filter (fun r => String.eqb (sr_Location r) location)
                     (calculate_daily_stock tx_df) in
  rows = location_stock (daily_pivot tx_df) location \/ rows = [].
Proof.
  unfold calculate_daily_stock. cbv zeta.
  set (pivot := daily_pivot tx_df).
  destruct (in_dec string_dec location (unique String.eqb (map pv_Location pivot)))
    as [Hin|Hnotin].
  - left. apply (filter_flat_map_in _ string_eqb_spec).
    + apply (unique_NoDup _ string_eqb_spec).
    + intros a b. apply location_stock_location.
    + exact Hin.
  - right. apply (filter_flat_map_notin _ string_eqb_spec).
    + intros a b. apply location_stock_location.
    + exact Hnotin.
Qed.


(** *** Which rows the daily ledger has *)

Lemma daily_summary_keys (tx_df : list Tx) (idx : LocDate) :
  In idx (map (fun r => fst (fst r)) (daily_summary tx_df)) <->
  exists t, In t tx_df /\ (Location t, date_of (Date t)) = idx.
Proof.
  unfold daily_summary. rewrite map_map. cbn [fst]. rewrite in_map_iff. split.
  - intros ([k g] & <- & Hg). cbn [fst].
    apply (groupby_In _ SummaryKey_eqb_spec) in Hg. destruct Hg as [Hk _].
    apply in_map_iff in Hk. destruct Hk as (t & <- & Ht).
    exists t. split; [exact Ht|reflexivity].
  - intros (t & Ht & <-).
    exists (summary_key t, rows_of SummaryKey_eqb summary_key (summary_key t) tx_df).
    split; [reflexivity|].
    apply (groupby_In _ SummaryKey_eqb_spec). split; [|reflexivity].
    now apply in_map.
Qed.

Lemma daily_pivot_rows (tx_df : list Tx) (location : string) (d : Z) :
  (exists p, In p (daily_pivot tx_df) /\ pv_Location p = location /\ pv_Date p = d) <->
  exists t, In t tx_df /\ Location t = location /\ date_of (Date t) = d.
Proof.
  unfold daily_pivot. cbv zeta. split.
  - intros (p & Hp & <- & <-). apply in_map_iff in Hp.
    destruct Hp as (idx & <- & Hidx). cbn [pv_Location pv_Date].
    apply (proj1 (sort_values_In _ _ _)) in Hidx.
    apply (proj1 (unique_In _ LocDate_eqb_spec _ _)) in Hidx.
    apply daily_summary_keys in Hidx. destruct Hidx as (t & Ht & <-).
    exists t. auto.
  - intros (t & Ht & <- & <-).
    eexists. split.
    + apply in_map_iff. exists (Location t, date_of (Date t)).
      split; [reflexivity|].
      apply sort_values_In, (proj2 (unique_In _ LocDate_eqb_spec _ _)).
      apply daily_summary_keys. exists t. auto.
    + split; reflexivity.
Qed.

(** The daily ledger has a row for a location and a date exactly when the
    location is not one of the excluded ones and has a transaction on
    that date. *)
Lemma daily_stock_rows_iff_activity (tx_df : list Tx) (location : string) (d : Z) :
  (exists row, In row (calculate_daily_stock tx_df) /\
               sr_Location row = location /\ sr_Date row = d) <->
  excluded_location location = false /\
  exists t, In t tx_df /\ Location t = location /\ date_of (Date t) = d.
Proof.
  split.
  - intros (row & Hrow & <- & <-).
    apply calculate_daily_stock_In, location_stock_In in Hrow.
    destruct Hrow as [Hex Hrow]. split; [exact Hex|].
    apply stock_rows_In in Hrow. destruct Hrow as (_ & _ & _ & p & Hp & -> & _).
    apply (proj1 (sort_values_In _ _ _)) in Hp. apply filter_In in Hp.
    destruct Hp as [Hp E]. apply String.eqb_eq in E.
    apply daily_pivot_rows. exists p. auto.
  - intros (Hex & Ht). apply daily_pivot_rows in Ht. destruct Ht as (p & Hp & Hl & Hd).
    set (loc_data := sort_values pv_Date_leb
           (filter (fun r => String.eqb (pv_Location r) location) (daily_pivot tx_df))).
    assert (Hin : In d (map sr_Date (stock_rows location 0%Q loc_data))).
    { rewrite stock_rows_dates. apply in_map_iff. exists p. split; [exact Hd|].
      apply sort_values_In, filter_In. split; [exact Hp|]. now apply String.eqb_eq. }
    apply in_map_iff in Hin. destruct Hin as (row & Hd' & Hrow).
    exists row. split; [|split; [|exact Hd']].
    + unfold calculate_daily_stock. apply in_flat_map. exists location. split.
      * apply (proj2 (unique_In _ string_eqb_spec _ _)). apply in_map_iff. eauto.
      * unfold location_stock. rewrite Hex. exact Hrow.
    + now apply stock_rows_In in Hrow.
Qed.

(** The claim as stated fails on the sample log: DSV Indoor is active on
    2024-01-01 (day 19723) and on 2024-01-05 (day 19727), and the ledger
    has no row for it on the days between. *)
Lemma daily_ledger_has_gaps :
  (exists t, In t sample_log /\ Location t = "DSV Indoor" /\ date_of (Date t) = 19723) /\
  (exists t, In t sample_log /\ Location t = "DSV Indoor" /\ date_of (Date t) = 19727) /\
  19723 < 19725 < 19727 /\
  ~ (exists row, In row (calculate_daily_stock sample_log) /\
                 sr_Location row = "DSV Indoor" /\ sr_Date row = 19725) /\
  map sr_Date sample_indoor_rows = [19723; 19727; 19763].
Proof.
  split; [exists (tx_in "C1" "SOURCE" ev_c1_indoor); vm_compute; auto|].
  split; [exists sample_exit; vm_compute; auto 6|].
  split; [lia|]. split; [|vm_compute; reflexivity].
  intros (row & Hrow & Hl & Hd). vm_compute in Hrow.
  repeat (destruct Hrow as [<-|Hrow]; [vm_compute in Hd; discriminate|]).
  exact Hrow.
Qed.

(** ** The monthly warehouse analysis *)

Lemma TxDirection_eqb_spec (a b : TxDirection) : TxDirection_eqb a b = true <-> a = b.
Proof. destruct a, b; simpl; split; congruence. Qed.

Lemma MonthKey_eqb_spec (a b : MonthKey) : MonthKey_eqb a b = true <-> a = b.
Proof.
  destruct a as [[l1 m1] d1], b as [[l2 m2] d2]. unfold MonthKey_eqb.
  rewrite !andb_true_iff, String.eqb_eq, Z.eqb_eq, TxDirection_eqb_spec.
  split; [intros [[-> ->] ->]; reflexivity|intros E; inversion E; auto].
Qed.

Lemma option_string_eqb_spec (a b : option string) :
  option_string_eqb a b = true <-> a = b.
Proof.
  destruct a as [x|], b as [y|]; simpl; try (split; congruence).
  rewrite String.eqb_eq. split; congruence.
Qed.

Lemma located_In (tx_df : list MonthlyTx) (l : string) (t : MonthlyTx) :
  In (l, t) (located tx_df) <-> In t tx_df /\ mt_Location t = Some l.
Proof.
  unfold located. rewrite in_flat_map. split.
  - intros (t' & Ht' & H). destruct (mt_Location t') as [l'|] eqn:E; simpl in H.
    + destruct H as [H|[]]. inversion H; subst. auto.
    + contradiction.
  - intros [Ht E]. exists t. split; [exact Ht|]. rewrite E. simpl. auto.
Qed.

(** Every row of the monthly summary stems from a transaction of its
    location, month and direction. *)
Lemma monthly_summary_In (tx_df : list MonthlyTx) (r : MonthlySummary) :
  In r (monthly_summary tx_df) ->
  exists t, In t tx_df /\ mt_Location t = Some (ms_Location r) /\
            mt_YearMonth t = ms_YearMonth r /\ mt_TxType t = ms_TxType r.
Proof.
  unfold monthly_summary. rewrite in_map_iff.
  intros ([[[l m] d] g] & <- & Hg). cbn [fst snd ms_Location ms_YearMonth ms_TxType].
  apply (groupby_In _ MonthKey_eqb_spec) in Hg. destruct Hg as [Hk _].
  apply in_map_iff in Hk. destruct Hk as ([l' t] & Hkey & Hlt).
  unfold month_key in Hkey. cbn [fst snd] in Hkey. inversion Hkey; subst.
  apply located_In in Hlt. destruct Hlt as [Ht Hl]. exists t. auto.
Qed.

Lemma select_month_idle (tx_df : list MonthlyTx) (p : MonthlySummary -> bool)
  (location : string) (month : Z) :
  (forall t, In t tx_df -> mt_Location t = Some location -> mt_YearMonth t <> month) ->
  select_month (filter p (monthly_summary tx_df)) (Some location) month = [].
Proof.
  intros Hidle. unfold select_month. apply filter_none. intros r Hr.
  apply filter_In in Hr. destruct Hr as [Hr _].
  apply monthly_summary_In in Hr. destruct Hr as (t & Ht & Hl & Hm & _).
  destruct (String.eqb (ms_Location r) location) eqn:E; [|reflexivity].
  apply String.eqb_eq in E. simpl.
  apply Z.eqb_neq. rewrite <- Hm. apply (Hidle t Ht). now rewrite Hl, E.
Qed.

Lemma month_rows_In (inbound outbound : list MonthlySummary)
  (location : option string) (months : list Z) (opening_stock : Q) (row : MonthlyRow) :
  In row (month_rows inbound outbound location opening_stock months) ->
  mr_Location row = location /\
  In (mr_YearMonth row) months /\
  Inbound_Qty row = Qsum (map ms_Qty (select_month inbound location (mr_YearMonth row))) /\
  Outbound_Qty row = Qsum (map ms_Qty (select_month outbound location (mr_YearMonth row))) /\
  mr_Closing_Stock row = (mr_Opening_Stock row + Inbound_Qty row - Outbound_Qty row)%Q.
Proof.
  revert opening_stock. induction months as [|m rest IH]; intros o; simpl; [tauto|].
  intros [<-|H].
  - simpl. auto 6.
  - destruct (IH _ H) as (H1 & H2 & H3). auto.
Qed.

Lemma month_rows_months (inbound outbound : list MonthlySummary)
  (location : option string) (months : list Z) (opening_stock : Q) :
  map mr_YearMonth (month_rows inbound outbound location opening_stock months) = months.
Proof.
  revert opening_stock. induction months as [|m rest IH]; intros o; simpl;
    [reflexivity|now rewrite IH].
Qed.

Lemma month_rows_head (inbound outbound : list MonthlySummary)
  (location : option string) (months : list Z) (opening_stock : Q)
  (first : MonthlyRow) (rest : list MonthlyRow) :
  month_rows inbound outbound location opening_stock months = first :: rest ->
  mr_Opening_Stock first = opening_stock.
Proof.
  destruct months as [|m l]; simpl; [discriminate|].
  intros E. inversion E. reflexivity.
Qed.

Lemma month_rows_carry (inbound outbound : list MonthlySummary)
  (location : option string) (months : list Z) (opening_stock : Q)
  (before after : list MonthlyRow) (earlier later : MonthlyRow) :
  month_rows inbound outbound location opening_stock months =
    (before ++ earlier :: later :: after)%list ->
  mr_Opening_Stock later = mr_Closing_Stock earlier.
Proof.
  revert opening_stock before.
  induction months as [|m l IH]; intros o before; simpl.
  - destruct before; discriminate.
  - destruct before as [|x before]; simpl; intros E; inversion E as [[E1 E2]].
    + apply month_rows_head in E2. rewrite E2. reflexivity.
    + eapply IH. exact E2.
Qed.

Lemma Z_leb_total (a b : Z) : (a <=? b) = true \/ (b <=? a) = true.
Proof. rewrite !Z.leb_le. lia. Qed.

Lemma Z_leb_trans (a b c : Z) :
  (a <=? b) = true -> (b <=? c) = true -> (a <=? c) = true.
Proof. rewrite !Z.leb_le. lia. Qed.

Lemma Z_eqb_spec (a b : Z) : (a =? b) = true <-> a = b.
Proof. apply Z.eqb_eq. Qed.

Lemma all_months_In (tx_df : list MonthlyTx) (month : Z) :
  In month (all_months tx_df) <-> In month (map mt_YearMonth tx_df).
Proof.
  unfold all_months. rewrite sort_values_In. apply (unique_In _ Z_eqb_spec).
Qed.

Lemma all_months_increasing (tx_df : list MonthlyTx) :
  StronglySorted Z.lt (all_months tx_df).
Proof.
  unfold all_months. apply StronglySorted_le_NoDup_lt.
  - eapply StronglySorted_weaken;
      [|apply (sort_values_sorted _ Z_leb_total Z_leb_trans)].
    intros a b H. now apply Z.leb_le.
  - apply sort_values_NoDup, (unique_NoDup _ Z_eqb_spec).
Qed.

Lemma sorted_locations_Permutation (l l' : list (option string)) :
  sorted_locations l = Some l' -> Permutation l' l.
Proof.
  unfold sorted_locations. destruct l as [|x [|y l]].
  - intros E. inversion E. constructor.
  - intros E. inversion E. reflexivity.
  - destruct (forallb is_some (x :: y :: l)); [|discriminate].
    intros E. injection E as <-. exact (sort_values_Permutation some_leb (x :: y :: l)).
Qed.

Lemma sorted_locations_total (l : list (option string)) :
  (forall x, In x l -> x <> None) -> exists l', sorted_locations l = Some l'.
Proof.
  intros H. unfold sorted_locations. destruct l as [|x [|y l]]; eauto.
  assert (E : forallb is_some (x :: y :: l) = true).
  { apply forallb_forall. intros z Hz. specialize (H z Hz). now destruct z. }
  rewrite E. eauto.
Qed.

Lemma location_months_location (tx_df : list MonthlyTx) (location : option string)
  (row : MonthlyRow) :
  In row (location_months tx_df location) -> mr_Location row = location.
Proof.
  unfold location_months. destruct (option_string_eqb _ _); [contradiction|].
  intros H. now apply month_rows_In in H.
Qed.

Lemma analysis_returns_detail (df : list Movement) (detail : list MonthlyRow) :
  create_proper_monthly_warehouse_analysis df = Returns (Some detail) <->
  monthly_stock_detail df = Some detail.
Proof.
  unfold monthly_stock_detail.
  destruct (create_proper_monthly_warehouse_analysis df) as [results| |];
    split; intros H; try discriminate; congruence.
Qed.

Lemma monthly_stock_detail_Some (df : list Movement) (detail : list MonthlyRow) :
  monthly_stock_detail df = Some detail ->
  exists all_locations,
    Permutation all_locations
      (unique option_string_eqb (map mt_Location (monthly_transactions df))) /\
    detail = flat_map (location_months (monthly_transactions df)) all_locations.
Proof.
  unfold monthly_stock_detail, create_proper_monthly_warehouse_analysis. cbv zeta.
  destruct df as [|mv df]; [discriminate|].
  destruct (monthly_transactions (mv :: df)) as [|t tx]; [discriminate|].
  destruct (sorted_locations _) as [all_locations|] eqn:E; [|discriminate].
  destruct (flat_map _ all_locations) as [|row rows] eqn:Erows; [discriminate|].
  intros H. injection H as <-. exists all_locations. split; [|now symmetry].
  now apply sorted_locations_Permutation.
Qed.

Lemma option_string_dec (a b : option string) : {a = b} + {a <> b}.
Proof. decide equality. apply string_dec. Qed.

(** The rows of one location in the monthly detail. *)
Lemma monthly_rows_of_location (df : list Movement) (detail : list MonthlyRow)
  (location : option string) :
  monthly_stock_detail df = Some detail ->
  let rows := filter (fun r => option_string_eqb (mr_Location r) location) detail in
  rows = location_months (monthly_transactions df) location \/ rows = [].
Proof.
  intros H. apply monthly_stock_detail_Some in H.
  destruct H as (all_locations & Hperm & ->). cbv zeta.
  assert (Hnd : NoDup all_locations).
  { eapply Permutation_NoDup; [symmetry; exact Hperm|].
    apply (unique_NoDup _ option_string_eqb_spec). }
  destruct (in_dec option_string_dec location all_locations) as [Hin|Hnotin].
  - left. apply (filter_flat_map_in _ option_string_eqb_spec); auto.
    intros a b. apply location_months_location.
  - right. apply (filter_flat_map_notin _ option_string_eqb_spec); auto.
    intros a b. apply location_months_location.
Qed.

(** The rows of a location in the monthly detail are in strictly
    increasing month order, the first opens at 0 and each later one at the
    closing stock of the one before. *)
Lemma monthly_rows_chain (df : list Movement) (detail : list MonthlyRow)
  (location : option string) :
  monthly_stock_detail df = Some detail ->
  let rows := filter (fun r => option_string_eqb (mr_Location r) location) detail in
  StronglySorted (fun a b => mr_YearMonth a < mr_YearMonth b) rows /\
  (forall first rest, rows = first :: rest -> mr_Opening_Stock first = 0%Q) /\
  (forall before earlier later after,
     rows = (before ++ earlier :: later :: after)%list ->
     mr_Opening_Stock later = mr_Closing_Stock earlier).
Proof.
  intros Hdetail rows.
  destruct (monthly_rows_of_location _ _ location Hdetail) as [E|E];
    fold rows in E; rewrite E.
  - unfold location_months.
    destruct (option_string_eqb location (Some "UNKNOWN")).
    + split; [constructor|]. split; [discriminate|]. intros [|? ?]; discriminate.
    + split; [|split].
      * apply StronglySorted_map. rewrite month_rows_months.
        apply all_months_increasing.
      * intros first rest E'. now apply month_rows_head in E'.
      * intros before earlier later after E'. now apply month_rows_carry in E'.
  - split; [constructor|]. split; [discriminate|]. intros [|? ?]; discriminate.
Qed.

(** The rows of a location in the daily ledger are in strictly increasing
    date order and each later one opens at the closing stock of the one
    before. *)
Lemma daily_rows_chain (tx_df : list Tx) (location : string)
  (before : list StockRecord) (earlier later : StockRecord)
  (after : list StockRecord) :
  filter (fun r => String.eqb (sr_Location r) location)
         (calculate_daily_stock tx_df) =
    (before ++ earlier :: later :: after)%list ->
  sr_Date earlier < sr_Date later /\ Opening_Stock later = Closing_Stock earlier.
Proof.
  intros E.
  destruct (rows_of_location tx_df location) as [E'|E']; cbv zeta in E';
    rewrite E in E'; [|destruct before; discriminate].
  split.
  - pose proof (location_stock_sorted tx_df location) as Hs.
    rewrite <- E' in Hs. now apply StronglySorted_adjacent in Hs.
  - unfold location_stock in E'. destruct (excluded_location location);
      [destruct before; discriminate|].
    symmetry in E'. now apply stock_rows_carry in E'.
Qed.

(** When the monthly analysis returns its detail frame. *)
Lemma monthly_analysis_returns (df : list Movement) :
  (forall t, In t (monthly_transactions df) -> mt_Location t <> None) ->
  (exists t, In t (monthly_transactions df) /\ mt_Location t <> Some "UNKNOWN") ->
  exists detail, create_proper_monthly_warehouse_analysis df = Returns (Some detail).
Proof.
  intros Hloc (t & Ht & Hne).
  unfold create_proper_monthly_warehouse_analysis. cbv zeta.
  destruct df as [|mv df]; [contradiction|].
  set (tx := monthly_transactions (mv :: df)) in *.
  destruct (sorted_locations_total (unique option_string_eqb (map mt_Location tx)))
    as [all_locations E].
  { intros x Hx. apply (proj1 (unique_In _ option_string_eqb_spec _ _)) in Hx.
    apply in_map_iff in Hx. destruct Hx as (t' & <- & Ht'). now apply Hloc. }
  rewrite E.
  assert (Hrow : exists row, In row (flat_map (location_months tx) all_locations)).
  { assert (Hm : In (mt_YearMonth t)
                    (map mr_YearMonth (location_months tx (mt_Location t)))).
    { unfold location_months.
      destruct (option_string_eqb (mt_Location t) (Some "UNKNOWN")) eqn:Eu.
      - apply option_string_eqb_spec in Eu. contradiction.
      - rewrite month_rows_months. apply all_months_In. now apply in_map. }
    apply in_map_iff in Hm. destruct Hm as (row & _ & Hrow). exists row.
    apply in_flat_map. exists (mt_Location t). split; [|exact Hrow].
    apply (Permutation_in _ (Permutation_sym (sorted_locations_Permutation _ _ E))).
    apply (proj2 (unique_In _ option_string_eqb_spec _ _)). now apply in_map. }
  destruct Hrow as (row & Hrow).
  destruct tx as [|t0 tx0]; [contradiction|].
  destruct (flat_map _ all_locations) as [|r rows]; [contradiction|].
  eauto.
Qed.

Lemma Qsum_nil : Qsum [] = 0%Q.
Proof. reflexivity. Qed.

(** C5, as the code has it.  The daily ledger has a row for a location
    and a date exactly when the location, not an excluded one, has a
    transaction on that date: dates without activity get no row; and of
    two rows of a location that follow one another the later is of a
    later date and opens at the closing stock of the earlier.  The monthly
    analysis returns its detail whenever no transaction lacks its
    location and some transaction is at a location other than UNKNOWN;
    the detail it returns has for every location other than UNKNOWN a row
    for every month in which any location has a transaction; when the
    location has none in that month the row has inbound 0 and outbound 0
    and closes at its opening stock; and of two rows of a location that
    follow one another the later is of a later month and opens at the
    closing stock of the earlier. *)
Theorem ledger_rows_follow_activity (tx_df : list Tx) (df : list Movement) :
  (forall location d,
     (exists row, In row (calculate_daily_stock tx_df) /\
                  sr_Location row = location /\ sr_Date row = d) <->
     excluded_location location = false /\
     exists t, In t tx_df /\ Location t = location /\ date_of (Date t) = d) /\
  (forall location before earlier later after,
     filter (fun r => String.eqb (sr_Location r) location)
            (calculate_daily_stock tx_df) =
       (before ++ earlier :: later :: after)%list ->
     sr_Date earlier < sr_Date later /\
     Opening_Stock later = Closing_Stock earlier) /\
  ((forall t, In t (monthly_transactions df) -> mt_Location t <> None) ->
   (exists t, In t (monthly_transactions df) /\ mt_Location t <> Some "UNKNOWN") ->
   exists detail,
     create_proper_monthly_warehouse_analysis df = Returns (Some detail)) /\
  (forall detail,
     create_proper_monthly_warehouse_analysis df = Returns (Some detail) ->
     (forall location month,
        In (Some location) (map mt_Location (monthly_transactions df)) ->
        location <> "UNKNOWN" ->
        In month (map mt_YearMonth (monthly_transactions df)) ->
        exists row,
          In row detail /\ mr_Location row = Some location /\
          mr_YearMonth row = month /\
          mr_Closing_Stock row =
            (mr_Opening_Stock row + Inbound_Qty row - Outbound_Qty row)%Q /\
          ((forall t, In t (monthly_transactions df) ->
                      mt_Location t = Some location -> mt_YearMonth t <> month) ->
           Inbound_Qty row = 0%Q /\ Outbound_Qty row = 0%Q /\
           (mr_Closing_Stock row == mr_Opening_Stock row)%Q)) /\
     (forall location before earlier later after,
        filter (fun r => option_string_eqb (mr_Location r) (Some location)) detail =
          (before ++ earlier :: later :: after)%list ->
        mr_YearMonth earlier < mr_YearMonth later /\
        mr_Opening_Stock later = mr_Closing_Stock earlier)).
Proof.
  split; [intros; apply daily_stock_rows_iff_activity|].
  split; [intros location before earlier later after; apply daily_rows_chain|].
  split; [apply monthly_analysis_returns|].
  intros detail Hdetail. apply analysis_returns_detail in Hdetail. split.
  - intros location month Hl Hne Hm.
    destruct (monthly_stock_detail_Some _ _ Hdetail) as (all_locations & Hperm & ->).
    set (tx := monthly_transactions df) in *.
    assert (Hlm : location_months tx (Some location) =
                  month_rows (monthly_inbound tx) (monthly_outbound tx)
                             (Some location) 0%Q (all_months tx)).
    { unfold location_months. cbn [option_string_eqb].
      apply String.eqb_neq in Hne. now rewrite Hne. }
    assert (Hrow : In month (map mr_YearMonth (location_months tx (Some location)))).
    { rewrite Hlm, month_rows_months. now apply all_months_In. }
    apply in_map_iff in Hrow. destruct Hrow as (row & Hmonth & Hrow).
    exists row.
    assert (Hprops := Hrow). rewrite Hlm in Hprops. apply month_rows_In in Hprops.
    destruct Hprops as (H1 & _ & H3 & H4 & H5).
    split; [|split; [exact H1|split; [exact Hmonth|split; [exact H5|]]]].
    + apply in_flat_map. exists (Some location). split; [|exact Hrow].
      apply (Permutation_in _ (Permutation_sym Hperm)).
      now apply (proj2 (unique_In _ option_string_eqb_spec _ _)).
    + intros Hidle.
      assert (Hin0 : Inbound_Qty row = 0%Q).
      { rewrite H3, Hmonth. unfold monthly_inbound.
        now rewrite (select_month_idle _ _ _ _ Hidle). }
      assert (Hout0 : Outbound_Qty row = 0%Q).
      { rewrite H4, Hmonth. unfold monthly_outbound.
        now rewrite (select_month_idle _ _ _ _ Hidle). }
      split; [exact Hin0|]. split; [exact Hout0|].
      rewrite H5, Hin0, Hout0. ring.
  - intros location before earlier later after E.
    destruct (monthly_rows_chain _ _ (Some location) Hdetail) as (Hs & _ & Hc).
    rewrite E in Hs. split; [|exact (Hc _ _ _ _ E)].
    now apply StronglySorted_adjacent in Hs.
Qed.

Lemma ledger_rows_follow_activity_witness :
  (exists row, In row (calculate_daily_stock sample_log) /\
               sr_Location row = "DSV Indoor" /\ sr_Date row = 19727) /\
  (sr_Date sample_indoor_first < sr_Date sample_stock_row /\
   Opening_Stock sample_stock_row = Closing_Stock sample_indoor_first) /\
  create_proper_monthly_warehouse_analysis sample_movements =
    Returns (Some sample_detail) /\
  (exists row,
     In row sample_detail /\ mr_Location row = Some "DSV Indoor" /\
     mr_YearMonth row = 202402 /\
     Inbound_Qty row = 0%Q /\ Outbound_Qty row = 0%Q /\
     (mr_Closing_Stock row == mr_Opening_Stock row)%Q).
Proof.
  destruct (ledger_rows_follow_activity sample_log sample_movements)
    as (Hdaily & Hcarry & Hreturns & Hmonthly).
  assert (E : create_proper_monthly_warehouse_analysis sample_movements =
              Returns (Some sample_detail)).
  { vm_compute. reflexivity. }
  split; [|split; [|split; [exact E|]]].
  - apply (proj2 (Hdaily "DSV Indoor" 19727)). split; [reflexivity|].
    exists sample_exit. split; [|split; reflexivity].
    vm_compute. right. right. left. reflexivity.
  - apply (Hcarry "DSV Indoor" [] sample_indoor_first sample_stock_row
                  [mkStockRecord "DSV Indoor" 19763 0 5 0 0 0 5 19763]).
    vm_compute. reflexivity.
  - destruct (Hmonthly sample_detail E) as [Hrows _].
    destruct (Hrows "DSV Indoor" 202402) as (row & H1 & H2 & H3 & _ & Hidle).
    + vm_compute. left. reflexivity.
    + discriminate.
    + vm_compute. right. left. reflexivity.
    + exists row. split; [exact H1|]. split; [exact H2|]. split; [exact H3|].
      apply Hidle. intros t Ht Hl Hm. vm_compute in Ht.
      repeat (destruct Ht as [<-|Ht]; [vm_compute in Hm; try discriminate Hm;
                                       try discriminate Hl|]).
      exact Ht.
Defined.

(** Without a transaction the analysis returns the empty dictionary; when
    UNKNOWN is the only location of the transactions it raises the
    KeyError of its first pivot table, and when a transaction lacks its
    location beside another that has one, the TypeError of [sorted]. *)
Example monthly_analysis_without_detail :
  create_proper_monthly_warehouse_analysis [] = Returns None /\
  create_proper_monthly_warehouse_analysis
    [ mkMovement "C1" (19723 * ns_per_day) None None None 10 0 "IN" ] =
    Returns None /\
  create_proper_monthly_warehouse_analysis
    [ mkMovement "C1" (19723 * ns_per_day) None (Some "UNKNOWN") (Some "UNK")
                 10 0 "IN" ] = KeyError /\
  create_proper_monthly_warehouse_analysis
    [ mkMovement "C1" (19723 * ns_per_day) None (Some "DSV Indoor") (Some "MIR")
                 10 0 "OUT";
      mkMovement "C2" (19754 * ns_per_day) None (Some "MOSB") (Some "UNK")
                 5 0 "IN" ] = TypeError.
Proof. repeat split; vm_compute; reflexivity. Qed.

(** The February row of DSV Indoor in the sample: nothing happens there
    in that month, DSV Outdoor being active, and the row carries the
    stock of January. *)
Example sample_idle_month :
  In sample_idle_month_row sample_detail.
Proof. vm_compute. right. left. reflexivity. Qed.

(** A month in which no location at all has a transaction is not among
    the months of the detail: with DSV Indoor active in January and March
    2024 only, there is no row for February. *)
Example monthly_detail_months_are_the_active_ones :
  option_map (map (fun r => (mr_Location r, mr_YearMonth r)))
    (monthly_stock_detail
       [ mkMovement "C1" (19723 * ns_per_day) None (Some "DSV Indoor") (Some "UNK")
                    10 0 "IN";
         mkMovement "C3" (19790 * ns_per_day) None (Some "DSV Indoor") (Some "UNK")
                    4 0 "IN" ]) =
  Some [(Some "DSV Indoor", 202401); (Some "DSV Indoor", 202403)].
Proof. vm_compute. reflexivity. Qed.

(** The calendar: 2024-01-01 is day 19723, 2024-02-29 day 19782, and the
    last instant of 1969 is in December 1969. *)
Example year_month_samples :
  civil_from_days 19723 = (2024, 1, 1) /\
  civil_from_days 19782 = (2024, 2, 29) /\
  year_month (19782 * ns_per_day + 5) = 202402 /\
  year_month (-1) = 196912.
Proof. repeat split; vm_compute; reflexivity. Qed.

(** ** Continuity of the ledgers *)

Lemma no_continuity_error (x : Q) :
  negb (Qle_bool (Qabs (x - x)) tolerance) = false.
Proof.
  apply negb_false_iff, Qle_bool_iff, Qabs_self_difference.
Qed.

Lemma continuity_loop_month_rows (inbound outbound : list MonthlySummary)
  (location location' : option string) (months : list Z) (opening_stock : Q)
  (prev : MonthlyRow) :
  mr_Closing_Stock prev = opening_stock ->
  continuity_loop location prev
    (month_rows inbound outbound location' opening_stock months) = [].
Proof.
  revert opening_stock prev.
  induction months as [|m rest IH]; intros o prev Hprev; [reflexivity|].
  cbn [month_rows continuity_loop mr_Opening_Stock].
  rewrite Hprev, no_continuity_error. cbn [app].
  apply IH. reflexivity.
Qed.

Lemma flat_map_nil {A B : Type} (f : A -> list B) (l : list A) :
  (forall a, In a l -> f a = []) -> flat_map f l = [].
Proof.
  induction l as [|x l IH]; intros H; [reflexivity|].
  simpl. rewrite H by (left; reflexivity). apply IH. intros; apply H; now right.
Qed.

(** The continuity check finds nothing to report in the monthly detail. *)
Lemma monthly_detail_passes_continuity_check (df : list Movement)
  (detail : list MonthlyRow) :
  monthly_stock_detail df = Some detail -> continuity_errors detail = [].
Proof.
  intros Hdetail. unfold continuity_errors. apply flat_map_nil.
  intros location _. unfold location_continuity_errors.
  destruct location as [l|].
  - rewrite (filter_ext _ (fun r => option_string_eqb (mr_Location r) (Some l)))
      by (intros r; destruct (mr_Location r); reflexivity).
    destruct (monthly_rows_of_location _ _ (Some l) Hdetail) as [E|E];
      cbv zeta in E; rewrite E; [|reflexivity].
    unfold location_months.
    destruct (option_string_eqb (Some l) (Some "UNKNOWN")); [reflexivity|].
    rewrite (sort_values_of_sorted mr_YearMonth_leb).
    + destruct (all_months (monthly_transactions df)) as [|m ms]; [reflexivity|].
      cbn [month_rows]. now apply continuity_loop_month_rows.
    + apply (StronglySorted_weaken (fun a b => mr_YearMonth a < mr_YearMonth b)).
      * intros a b H. unfold ordered_by, mr_YearMonth_leb. apply Z.leb_le. lia.
      * apply StronglySorted_map. rewrite month_rows_months.
        apply all_months_increasing.
  - rewrite filter_none; [reflexivity|].
    intros r _. now destruct (mr_Location r).
Qed.

(** C2: in the ledger, the first row of a location opens at 0 and, of two
    rows of the location that follow one another, the later one is of a
    later period and opens at the closing stock of the earlier one; the
    rows of a location are in strictly increasing order of period, so rows
    that follow one another are the chronologically adjacent ones.  This
    holds of the daily ledger and of the monthly detail, in which the
    continuity check of the validator finds no error. *)
Theorem ledger_opening_carried_forward (tx_df : list Tx) (df : list Movement)
  (location : string) :
  let rows := filter (fun r => String.eqb (sr_Location r) location)
                     (calculate_daily_stock tx_df) in
  StronglySorted (fun a b => sr_Date a < sr_Date b) rows /\
  (forall first rest, rows = first :: rest -> Opening_Stock first = 0%Q) /\
  (forall before earlier later after,
     rows = (before ++ earlier :: later :: after)%list ->
     sr_Date earlier < sr_Date later /\
     Opening_Stock later = Closing_Stock earlier /\
     (Qabs (Opening_Stock later - Closing_Stock earlier) <= tolerance)%Q) /\
  (forall detail, monthly_stock_detail df = Some detail ->
     let months := filter (fun r => option_string_eqb (mr_Location r) (Some location))
                          detail in
     StronglySorted (fun a b => mr_YearMonth a < mr_YearMonth b) months /\
     (forall first rest, months = first :: rest -> mr_Opening_Stock first = 0%Q) /\
     (forall before earlier later after,
        months = (before ++ earlier :: later :: after)%list ->
        mr_YearMonth earlier < mr_YearMonth later /\
        mr_Opening_Stock later = mr_Closing_Stock earlier /\
        (Qabs (mr_Opening_Stock later - mr_Closing_Stock earlier) <= tolerance)%Q) /\
     continuity_errors detail = []).
Proof.
  intros rows.
  assert (Hsorted : StronglySorted (fun a b => sr_Date a < sr_Date b) rows).
  { destruct (rows_of_location tx_df location) as [E|E]; fold rows in E; rewrite E;
      [apply location_stock_sorted|constructor]. }
  split; [exact Hsorted|].
  assert (Hdaily :
    (forall first rest, rows = first :: rest -> Opening_Stock first = 0%Q) /\
    (forall before earlier later after,
       rows = (before ++ earlier :: later :: after)%list ->
       Opening_Stock later = Closing_Stock earlier)).
  { destruct (rows_of_location tx_df location) as [E|E]; fold rows in E.
    - unfold location_stock in E. destruct (excluded_location location).
      + rewrite E. split; [discriminate|]. intros [|? ?]; discriminate.
      + split.
        * intros first rest E'. rewrite E' in E. symmetry in E.
          now apply stock_rows_head in E.
        * intros before earlier later after E'. rewrite E' in E. symmetry in E.
          now apply stock_rows_carry in E.
    - rewrite E. split; [discriminate|]. intros [|? ?]; discriminate. }
  destruct Hdaily as [Hfirst Hcarry].
  split; [exact Hfirst|]. split.
  - intros before earlier later after E.
    pose proof (Hcarry _ _ _ _ E) as Hc.
    split; [|split; [exact Hc|]].
    + rewrite E in Hsorted. now apply StronglySorted_adjacent in Hsorted.
    + rewrite Hc. apply Qabs_self_difference.
  - intros detail Hdetail months.
    destruct (monthly_rows_chain _ _ (Some location) Hdetail) as (Hs & Hf & Hc).
    fold months in Hs, Hf, Hc.
    split; [exact Hs|]. split; [exact Hf|]. split.
    + intros before earlier later after E.
      pose proof (Hc _ _ _ _ E) as Hc'.
      split; [|split; [exact Hc'|]].
      * rewrite E in Hs. now apply StronglySorted_adjacent in Hs.
      * rewrite Hc'. apply Qabs_self_difference.
    + now apply (monthly_detail_passes_continuity_check df).
Qed.

Lemma ledger_opening_carried_forward_witness :
  sample_indoor_rows =
    ([] ++ sample_indoor_first :: sample_stock_row ::
       [mkStockRecord "DSV Indoor" 19763 0 5 0 0 0 5 19763])%list /\
  Opening_Stock sample_indoor_first = 0%Q /\
  sr_Date sample_indoor_first < sr_Date sample_stock_row /\
  Opening_Stock sample_stock_row = Closing_Stock sample_indoor_first /\
  (Qabs (Opening_Stock sample_stock_row - Closing_Stock sample_indoor_first)
   <= tolerance)%Q /\
  monthly_stock_detail sample_movements = Some sample_detail /\
  continuity_errors sample_detail = [].
Proof.
  destruct (ledger_opening_carried_forward sample_log sample_movements "DSV Indoor")
    as (_ & Hfirst & Hcarry & Hmonthly).
  fold sample_indoor_rows in Hfirst, Hcarry.
  assert (E : sample_indoor_rows =
              ([] ++ sample_indoor_first :: sample_stock_row ::
                 [mkStockRecord "DSV Indoor" 19763 0 5 0 0 0 5 19763])%list).
  { vm_compute. reflexivity. }
  assert (Em : monthly_stock_detail sample_movements = Some sample_detail).
  { vm_compute. reflexivity. }
  split; [exact E|].
  split; [exact (Hfirst _ _ E)|].
  destruct (Hcarry [] _ _ _ E) as (H1 & H2 & H3).
  split; [exact H1|]. split; [exact H2|]. split; [exact H3|].
  split; [exact Em|].
  exact (proj2 (proj2 (proj2 (Hmonthly _ Em)))).
Defined.

(** A frame in which a row does not open at the closing stock of the
    month before is reported by the continuity check. *)
Example continuity_check_reports_a_break :
  continuity_errors
    [ mkMonthlyRow (Some "DSV Indoor") 202401 0 10 0 10 0 0 10;
      mkMonthlyRow (Some "DSV Indoor") 202402 7 0 0 7 0 0 0 ] =
  [ mkContinuityError (Some "DSV Indoor") 202401 10 202402 7 ].
Proof. vm_compute. reflexivity. Qed.

(** ** Reconciliation *)

Lemma groupby_tail1_In (l : list DailyRow) (r : DailyRow) :
  In r (groupby_tail1 l) -> In r l.
Proof.
  induction l as [|x l IH]; simpl; [tauto|].
  destruct (existsb _ l); simpl; intros H; [auto|].
  destruct H; auto.
Qed.

Lemma groupby_tail1_locs (l : list DailyRow) (loc : string) :
  In loc (map dr_Loc (groupby_tail1 l)) <-> In loc (map dr_Loc l).
Proof.
  induction l as [|x l IH]; simpl; [tauto|].
  destruct (existsb (fun r' => String.eqb (dr_Loc r') (dr_Loc x)) l) eqn:E; simpl.
  - rewrite IH. split; [auto|]. intros [<-|H]; [|exact H].
    apply existsb_exists in E. destruct E as (r' & Hr' & E).
    apply String.eqb_eq in E. rewrite <- E. now apply in_map.
  - now rewrite IH.
Qed.

Lemma groupby_tail1_NoDup (l : list DailyRow) :
  NoDup (map dr_Loc (groupby_tail1 l)).
Proof.
  induction l as [|x l IH]; simpl; [constructor|].
  destruct (existsb (fun r' => String.eqb (dr_Loc r') (dr_Loc x)) l) eqn:E; simpl;
    [exact IH|].
  constructor; [|exact IH].
  intros Hin. apply (proj1 (groupby_tail1_locs _ _)) in Hin. apply in_map_iff in Hin.
  destruct Hin as (r' & Hl & Hr').
  assert (existsb (fun r' => String.eqb (dr_Loc r') (dr_Loc x)) l = true).
  { apply existsb_exists. exists r'. split; [exact Hr'|]. now apply String.eqb_eq. }
  congruence.
Qed.

(** In a frame sorted on the date, the last row of a location is one of
    its latest date. *)
Lemma groupby_tail1_latest (l : list DailyRow) (r r' : DailyRow) :
  StronglySorted (fun a b => dr_Date a <= dr_Date b) l ->
  In r (groupby_tail1 l) -> In r' l -> dr_Loc r' = dr_Loc r ->
  dr_Date r' <= dr_Date r.
Proof.
  induction 1 as [|x l Hs IH Hall]; simpl; [tauto|].
  rewrite Forall_forall in Hall.
  destruct (existsb (fun r' => String.eqb (dr_Loc r') (dr_Loc x)) l) eqn:E.
  - intros Hr [<-|Hr'] Hloc; [|auto].
    apply Hall. now apply groupby_tail1_In.
  - intros [<-|Hr] [<-|Hr'] Hloc; [lia| | |auto].
    + exfalso.
      assert (existsb (fun r' => String.eqb (dr_Loc r') (dr_Loc x)) l = true).
      { apply existsb_exists. exists r'. split; [exact Hr'|]. now apply String.eqb_eq. }
      congruence.
    + apply Hall. now apply groupby_tail1_In.
Qed.

Lemma dr_Date_leb_total (a b : DailyRow) :
  dr_Date_leb a b = true \/ dr_Date_leb b a = true.
Proof. unfold dr_Date_leb. rewrite !Z.leb_le. lia. Qed.

Lemma dr_Date_leb_trans (a b c : DailyRow) :
  dr_Date_leb a b = true -> dr_Date_leb b c = true -> dr_Date_leb a c = true.
Proof. unfold dr_Date_leb. rewrite !Z.leb_le. lia. Qed.

Lemma series_get_In (s : list (string * Q)) (loc : string) (v : Q) :
  NoDup (map fst s) -> In (loc, v) s -> series_get s loc = v.
Proof.
  induction s as [|[l w] s IH]; simpl; [tauto|].
  intros Hnd [E|Hin]; inversion Hnd as [|? ? Hnotin Hnd']; subst.
  - inversion E; subst. now rewrite String.eqb_refl.
  - destruct (String.eqb l loc) eqn:E; [|auto].
    apply String.eqb_eq in E. subst. exfalso. apply Hnotin.
    apply in_map_iff. exists (loc, v). auto.
Qed.

Lemma series_get_absent (s : list (string * Q)) (loc : string) :
  ~ In loc (map fst s) -> series_get s loc = 0%Q.
Proof.
  induction s as [|[l w] s IH]; simpl; [reflexivity|].
  intros H. destruct (String.eqb l loc) eqn:E.
  - apply String.eqb_eq in E. tauto.
  - apply IH. tauto.
Qed.

Lemma tx_last_keys (daily_stock : list DailyRow) (loc : string) :
  In loc (map fst (tx_last daily_stock)) <-> In loc (map dr_Loc daily_stock).
Proof.
  unfold tx_last. rewrite map_map. cbn [fst]. rewrite groupby_tail1_locs.
  split; intros H; apply in_map_iff in H; destruct H as (r & <- & Hr);
    apply in_map; [apply (proj1 (sort_values_In _ _ _)) in Hr|apply sort_values_In];
    exact Hr.
Qed.

Lemma tx_last_NoDup (daily_stock : list DailyRow) :
  NoDup (map fst (tx_last daily_stock)).
Proof.
  unfold tx_last. rewrite map_map. cbn [fst]. apply groupby_tail1_NoDup.
Qed.

(** The ledger side of a comparison: the closing stock of a row of the
    location of the latest date, 0 for a location without any row. *)
Lemma series_get_tx_last (daily_stock : list DailyRow) (loc : string) :
  (In loc (map dr_Loc daily_stock) ->
   exists r, In r daily_stock /\ dr_Loc r = loc /\
             series_get (tx_last daily_stock) loc = dr_Closing r /\
             forall r', In r' daily_stock -> dr_Loc r' = loc ->
                        dr_Date r' <= dr_Date r) /\
  (~ In loc (map dr_Loc daily_stock) -> series_get (tx_last daily_stock) loc = 0%Q).
Proof.
  split.
  - intros Hin. apply (proj2 (tx_last_keys _ _)) in Hin. apply in_map_iff in Hin.
    destruct Hin as ([l v] & Hl & Hlv). simpl in Hl. subst l.
    rewrite (series_get_In _ _ _ (tx_last_NoDup daily_stock) Hlv).
    unfold tx_last in Hlv. apply in_map_iff in Hlv.
    destruct Hlv as (r & E & Hr). inversion E; subst.
    exists r. split; [|split; [reflexivity|split; [reflexivity|]]].
    + apply groupby_tail1_In in Hr. now apply (proj1 (sort_values_In _ _ _)) in Hr.
    + intros r' Hr' Hloc.
      eapply groupby_tail1_latest; [| exact Hr | | exact Hloc].
      * eapply StronglySorted_weaken;
          [|apply (sort_values_sorted _ dr_Date_leb_total dr_Date_leb_trans)].
        intros a b H. unfold dr_Date_leb in H. now apply Z.leb_le.
      * now apply sort_values_In.
  - intros Hnotin. apply series_get_absent. now rewrite tx_last_keys.
Qed.

Lemma snap_sum_keys (onhand_df : list SnapRow) :
  map fst (snap_sum onhand_df) =
  sort_values String.leb (unique String.eqb (map sn_Loc_To onhand_df)).
Proof.
  unfold snap_sum, groupby. rewrite !map_map. cbn [fst]. apply map_id.
Qed.

(** The snapshot side: the sum of the quantities counted at the location,
    0 for a location that is not in the snapshot. *)
Lemma series_get_snap_sum (onhand_df : list SnapRow) (loc : string) :
  (In loc (map sn_Loc_To onhand_df) ->
   series_get (snap_sum onhand_df) loc =
   sum_skipna (map sn_Qty (rows_of String.eqb sn_Loc_To loc onhand_df))) /\
  (~ In loc (map sn_Loc_To onhand_df) -> series_get (snap_sum onhand_df) loc = 0%Q).
Proof.
  assert (Hnd : NoDup (map fst (snap_sum onhand_df))).
  { rewrite snap_sum_keys. apply sort_values_NoDup, (unique_NoDup _ string_eqb_spec). }
  split.
  - intros Hin. apply series_get_In; [exact Hnd|].
    unfold snap_sum. apply in_map_iff.
    exists (loc, rows_of String.eqb sn_Loc_To loc onhand_df). split; [reflexivity|].
    apply (groupby_In _ string_eqb_spec). auto.
  - intros Hnotin. apply series_get_absent. rewrite snap_sum_keys.
    rewrite sort_values_In. now rewrite (unique_In _ string_eqb_spec).
Qed.

Lemma concat_index_In (a b : list (string * Q)) (loc : string) :
  In loc (concat_index a b) <-> In loc (map fst a) \/ In loc (map fst b).
Proof.
  unfold concat_index. rewrite (unique_In _ string_eqb_spec). apply in_app_iff.
Qed.

Lemma reconcile_nonempty (daily_stock : list DailyRow) (onhand_df : list SnapRow) :
  daily_stock <> [] -> onhand_df <> [] ->
  reconcile daily_stock (SnapFrame onhand_df) =
  Compared (map (compare_row (tx_last daily_stock) (snap_sum onhand_df))
                (concat_index (tx_last daily_stock) (snap_sum onhand_df))).
Proof.
  destruct daily_stock, onhand_df; try contradiction; reflexivity.
Qed.

Lemma reconcile_empty (daily_stock : list DailyRow) (onhand_snap : Snapshot) :
  daily_stock = [] \/ onhand_snap = SnapFrame [] ->
  reconcile daily_stock onhand_snap = Compared [].
Proof.
  intros [->| ->]; [reflexivity|]. now destruct daily_stock.
Qed.

Lemma Qle_bool_false_lt (x y : Q) : Qle_bool x y = false <-> (y < x)%Q.
Proof.
  split.
  - intros H. apply Qnot_le_lt. intros Hle. apply Qle_bool_iff in Hle. congruence.
  - intros H. destruct (Qle_bool x y) eqn:E; [|reflexivity].
    apply Qle_bool_iff in E. exfalso. now apply (Qlt_not_le _ _ H).
Qed.

Lemma compare_row_fields (a b : list (string * Q)) (loc : string) :
  let c := compare_row a b loc in
  cmp_Loc c = loc /\
  Tx_Closing c = series_get a loc /\
  OnHand_Qty c = series_get b loc /\
  Delta c = (OnHand_Qty c - Tx_Closing c)%Q /\
  (Status c = OK <-> (Qabs (Delta c) <= 5)%Q) /\
  (Status c = ATTENTION <-> (5 < Qabs (Delta c))%Q) /\
  (Alert_Level c = HIGH <-> (10 < Qabs (Delta c))%Q) /\
  (Alert_Level c = MEDIUM <-> (5 < Qabs (Delta c))%Q /\ (Qabs (Delta c) <= 10)%Q) /\
  (Alert_Level c = LOW <-> (Qabs (Delta c) <= 5)%Q).
Proof.
  cbv zeta. unfold compare_row.
  cbn [cmp_Loc Tx_Closing OnHand_Qty Delta Status Alert_Level].
  set (d := Qabs (series_get b loc - series_get a loc)).
  repeat (split; [reflexivity|]).
  destruct (Qle_bool d 5) eqn:E5; destruct (Qle_bool d 10) eqn:E10; cbn [negb];
    try (apply Qle_bool_iff in E5); try (apply Qle_bool_iff in E10);
    try (apply Qle_bool_false_lt in E5); try (apply Qle_bool_false_lt in E10).
  - repeat split; try congruence; try tauto; intros H;
      try (exfalso; apply (Qlt_not_le _ _ H); assumption);
      try (exfalso; apply (Qlt_not_le _ _ (proj1 H)); assumption).
  - exfalso. apply (Qlt_not_le _ _ E10). eapply Qle_trans; [exact E5|]. discriminate.
  - repeat split; try congruence; try tauto; intros H;
      try (exfalso; apply (Qlt_not_le _ _ E5); assumption);
      try (exfalso; apply (Qlt_not_le _ _ H); assumption).
  - assert (~ (d <= 5)%Q) by (now apply Qlt_not_le).
    assert (~ (d <= 10)%Q) by (now apply Qlt_not_le).
    repeat split; try congruence; try tauto.
Qed.

(** C6, as the code has it, for a snapshot handed over as a frame.  When
    the ledger is empty, whatever the snapshot, or the snapshot is an
    empty frame, reconciliation yields no record.  When neither is empty
    it yields exactly one record for every location of the ledger or of
    the snapshot; the record compares the closing stock of the location's
    latest ledger row (0 without one) with the snapshot quantity of the
    location (0 without one), which is the sum of the quantities of its
    snapshot rows when these are whole numbers below 2^53 in total; delta
    is snapshot minus ledger; the status is OK exactly when |delta| <= 5
    and ATTENTION otherwise; the alert level is HIGH when |delta| > 10,
    MEDIUM when 5 < |delta| <= 10 and LOW otherwise. *)
Theorem reconcile_compares_every_location (daily_stock : list DailyRow)
  (onhand_df : list SnapRow) :
  (forall onhand_snap,
     daily_stock = [] \/ onhand_snap = SnapFrame [] ->
     reconcile daily_stock onhand_snap = Compared []) /\
  (daily_stock <> [] -> onhand_df <> [] ->
   exists comparison,
     reconcile daily_stock (SnapFrame onhand_df) = Compared comparison /\
     NoDup (map cmp_Loc comparison) /\
     (forall loc,
        In loc (map cmp_Loc comparison) <->
        In loc (map dr_Loc daily_stock) \/ In loc (map sn_Loc_To onhand_df)) /\
     (forall c, In c comparison ->
        (In (cmp_Loc c) (map dr_Loc daily_stock) ->
         exists r, In r daily_stock /\ dr_Loc r = cmp_Loc c /\
                   Tx_Closing c = dr_Closing r /\
                   forall r', In r' daily_stock -> dr_Loc r' = cmp_Loc c ->
                              dr_Date r' <= dr_Date r) /\
        (~ In (cmp_Loc c) (map dr_Loc daily_stock) -> Tx_Closing c = 0%Q) /\
        (In (cmp_Loc c) (map sn_Loc_To onhand_df) ->
         exact_quantities
           (dropna (map sn_Qty (rows_of String.eqb sn_Loc_To (cmp_Loc c) onhand_df))) ->
         OnHand_Qty c =
         sum_skipna (map sn_Qty (rows_of String.eqb sn_Loc_To (cmp_Loc c) onhand_df))) /\
        (~ In (cmp_Loc c) (map sn_Loc_To onhand_df) -> OnHand_Qty c = 0%Q) /\
        Delta c = (OnHand_Qty c - Tx_Closing c)%Q /\
        (Status c = OK <-> (Qabs (Delta c) <= 5)%Q) /\
        (Status c = ATTENTION <-> (5 < Qabs (Delta c))%Q) /\
        (Alert_Level c = HIGH <-> (10 < Qabs (Delta c))%Q) /\
        (Alert_Level c = MEDIUM <->
         (5 < Qabs (Delta c))%Q /\ (Qabs (Delta c) <= 10)%Q) /\
        (Alert_Level c = LOW <-> (Qabs (Delta c) <= 5)%Q))).
Proof.
  split; [intros onhand_snap; apply reconcile_empty|].
  intros Hd Hs. rewrite (reconcile_nonempty _ _ Hd Hs).
  eexists. split; [reflexivity|].
  set (a := tx_last daily_stock). set (b := snap_sum onhand_df).
  assert (Hlocs : map cmp_Loc (map (compare_row a b) (concat_index a b)) =
                  concat_index a b).
  { rewrite map_map. cbn [compare_row cmp_Loc]. apply map_id. }
  assert (Hb : forall loc, In loc (map fst b) <-> In loc (map sn_Loc_To onhand_df)).
  { intros loc. unfold b. rewrite snap_sum_keys, sort_values_In.
    apply (unique_In _ string_eqb_spec). }
  split; [|split].
  - rewrite Hlocs. apply (unique_NoDup _ string_eqb_spec).
  - intros loc. rewrite Hlocs, concat_index_In. unfold a.
    now rewrite tx_last_keys, Hb.
  - intros c Hc. apply in_map_iff in Hc. destruct Hc as (loc & <- & _).
    destruct (compare_row_fields a b loc) as (H1 & H2 & H3 & H4).
    rewrite H1, H2, H3.
    destruct (series_get_tx_last daily_stock loc) as [Ha1 Ha2].
    destruct (series_get_snap_sum onhand_df loc) as [Hb1 Hb2].
    split; [exact Ha1|]. split; [exact Ha2|].
    split; [intros Hin _; exact (Hb1 Hin)|]. split; [exact Hb2|].
    rewrite <- H2, <- H3. exact H4.
Qed.

Lemma reconcile_compares_every_location_witness :
  sample_daily_stock <> [] /\ sample_snapshot <> [] /\
  exists comparison,
    reconcile sample_daily_stock (SnapFrame sample_snapshot) = Compared comparison /\
    (In "MOSB" (map cmp_Loc comparison) <->
     In "MOSB" (map dr_Loc sample_daily_stock) \/
     In "MOSB" (map sn_Loc_To sample_snapshot)) /\
    In sample_comparison comparison /\
    OnHand_Qty sample_comparison = sum_skipna [Fin 500; Fin 320] /\
    Delta sample_comparison =
      (OnHand_Qty sample_comparison - Tx_Closing sample_comparison)%Q /\
    (Status sample_comparison = ATTENTION <->
     (5 < Qabs (Delta sample_comparison))%Q).
Proof.
  assert (Hd : sample_daily_stock <> []) by discriminate.
  assert (Hs : sample_snapshot <> []) by discriminate.
  destruct (proj2 (reconcile_compares_every_location sample_daily_stock
                     sample_snapshot) Hd Hs)
    as (comparison & Hcall & _ & Hlocs & Hrec).
  assert (Hin : In sample_comparison comparison).
  { assert (E : Compared comparison =
                Compared [ sample_comparison;
                           mkComparison "DSV Outdoor" 5 0 (-5) OK LOW;
                           mkComparison "MOSB" 0 3 3 OK LOW ]).
    { rewrite <- Hcall. vm_compute. reflexivity. }
    injection E as ->. left. reflexivity. }
  split; [exact Hd|]. split; [exact Hs|]. exists comparison.
  split; [exact Hcall|]. split; [exact (Hlocs "MOSB")|].
  split; [exact Hin|].
  destruct (Hrec _ Hin) as (_ & _ & H3 & _ & H5 & _ & H7 & _).
  split; [|split; [exact H5|exact H7]].
  apply H3.
  - vm_compute. left. reflexivity.
  - split; vm_compute; reflexivity.
Defined.

(** The claim as stated fails when one of the two sides is empty: the
    function then returns no record at all, so the locations of the other
    side are dropped instead of being kept with the missing side at 0.
    [main] comes to this with an empty ledger. *)
Lemma reconcile_without_snapshot_drops_ledger :
  In "DSV Indoor" (map dr_Loc sample_daily_stock) /\
  reconcile sample_daily_stock (SnapFrame []) = Compared [] /\
  In "MOSB" (map sn_Loc_To sample_snapshot) /\
  reconcile [] (SnapFrame sample_snapshot) = Compared [] /\
  reconcile_result [] sample_snapshot = Compared [].
Proof.
  split; [vm_compute; auto|]. split; [reflexivity|].
  split; [vm_compute; auto|]. split; reflexivity.
Qed.

(** Scenario 5 and the two one-sided locations of the sample. *)
Example sample_reconciliation :
  reconcile sample_daily_stock (SnapFrame sample_snapshot) =
  Compared [ sample_comparison;
             mkComparison "DSV Outdoor" 5 0 (-5) OK LOW;
             mkComparison "MOSB" 0 3 3 OK LOW ].
Proof. vm_compute. reflexivity. Qed.

(** The call in [main] hands over the list of records, not a frame: with
    rows in the ledger, [onhand_snap.empty] raises AttributeError and no
    comparison is made. *)
Example main_reconciliation_raises :
  reconcile_result sample_daily_stock sample_snapshot = AttributeError /\
  forall daily_stock onhand_movements,
    daily_stock <> [] -> onhand_movements <> [] ->
    reconcile_result daily_stock onhand_movements = AttributeError.
Proof.
  split; [reflexivity|].
  intros [|r daily_stock] [|s onhand_movements] Hd Hs;
    try contradiction; reflexivity.
Qed.

(** ** Dead stock *)

Lemma Zmax_fold_ge (l : list Z) (x : Z) : x <= fold_left Z.max l x.
Proof.
  revert x. induction l as [|y l IH]; intros x; simpl; [lia|].
  specialize (IH (Z.max x y)). lia.
Qed.

Lemma Zmax_fold_upper (l : list Z) (x y : Z) :
  In y l -> y <= fold_left Z.max l x.
Proof.
  revert x. induction l as [|z l IH]; intros x; simpl; [tauto|].
  intros [->|H]; [|now apply IH].
  pose proof (Zmax_fold_ge l (Z.max x y)). lia.
Qed.

Lemma Zmax_fold_In (l : list Z) (x : Z) :
  fold_left Z.max l x = x \/ In (fold_left Z.max l x) l.
Proof.
  revert x. induction l as [|y l IH]; intros x; simpl; [auto|].
  destruct (IH (Z.max x y)) as [E|H]; [|auto].
  rewrite E. destruct (Z.max_spec x y) as [[_ ->]|[_ ->]]; auto.
Qed.

(** The last move date of a group is the date of one of its rows and no
    row of the group is later. *)
Lemma Zmax_list_spec (l : list Z) :
  l <> [] -> In (Zmax_list l) l /\ forall y, In y l -> y <= Zmax_list l.
Proof.
  destruct l as [|x l]; [contradiction|]. intros _. unfold Zmax_list. split.
  - destruct (Zmax_fold_In l x) as [E|H]; [rewrite E; left; reflexivity|right; exact H].
  - intros y [<-|H]; [apply Zmax_fold_ge|now apply Zmax_fold_upper].
Qed.

(** Selecting rows keeps a key column free of duplicates. *)
Lemma NoDup_map_filter {Row Key : Type} (key : Row -> Key) (keep : Row -> bool)
  (rows : list Row) (Hkeys : NoDup (map key rows)) :
  NoDup (map key (filter keep rows)).
Proof.
  induction rows as [|x rows IH]; simpl; [constructor|].
  inversion Hkeys as [|? ? Hnotin Hnd]; subst.
  destruct (keep x); simpl; [|auto].
  constructor; [|auto].
  intros Hin. apply Hnotin. apply in_map_iff in Hin.
  destruct Hin as (y & E & Hy). apply filter_In in Hy.
  apply in_map_iff. exists y. tauto.
Qed.

Lemma filter_single_key {A : Type} (key : A -> string) (l : list A) (x : A) :
  NoDup (map key l) -> In x l ->
  filter (fun y => String.eqb (key y) (key x)) l = [x].
Proof.
  induction l as [|y l IH]; simpl; [tauto|].
  intros Hnd Hin. inversion Hnd as [|? ? Hnotin Hnd']; subst.
  destruct Hin as [->|Hin].
  - rewrite String.eqb_refl. f_equal. apply filter_none. intros z Hz.
    apply String.eqb_neq. intros E. apply Hnotin. rewrite <- E. now apply in_map.
  - destruct (String.eqb (key y) (key x)) eqn:E.
    + apply String.eqb_eq in E. exfalso. apply Hnotin. rewrite E. now apply in_map.
    + auto.
Qed.

Lemma latest_moves_In (tx_df : list Tx) (current_date : Z) (m : LatestMove) :
  In m (latest_moves tx_df current_date) <->
  In (lm_Case_No m) (map Case_No tx_df) /\
  m = let last_move_date :=
        Zmax_list (map Date (rows_of String.eqb Case_No (lm_Case_No m) tx_df)) in
      mkLatestMove (lm_Case_No m) last_move_date
                   ((current_date - last_move_date) / ns_per_day).
Proof.
  unfold latest_moves. rewrite in_map_iff. split.
  - intros ([c g] & <- & Hg). cbn [fst snd lm_Case_No].
    apply (groupby_In _ string_eqb_spec) in Hg. destruct Hg as [Hc ->]. auto.
  - intros [Hc E].
    exists (lm_Case_No m, rows_of String.eqb Case_No (lm_Case_No m) tx_df).
    split; [symmetry; exact E|].
    apply (groupby_In _ string_eqb_spec). auto.
Qed.

Lemma latest_moves_NoDup (tx_df : list Tx) (current_date : Z) :
  NoDup (map lm_Case_No (latest_moves tx_df current_date)).
Proof.
  unfold latest_moves. rewrite map_map. cbn [lm_Case_No].
  apply (groupby_keys_NoDup _ string_eqb_spec).
Qed.

Lemma case_info_keys (tx_df : list Tx) :
  map ci_Case_No (case_info tx_df) =
  map fst (groupby String.eqb Case_No String.leb tx_df).
Proof. unfold case_info. now rewrite map_map. Qed.

Lemma case_info_of_case (tx_df : list Tx) (case_no : string) :
  In case_no (map Case_No tx_df) ->
  filter (fun i => String.eqb (ci_Case_No i) case_no) (case_info tx_df) =
  let rows := rows_of String.eqb Case_No case_no tx_df in
  [mkCaseInfo case_no (first_valid (map Qty rows))
              (last (map (fun t => Some (Location t)) rows) None)
              (hd None (map (fun t => Some (Source_File t)) rows))].
Proof.
  intros Hc. cbv zeta.
  set (rows := rows_of String.eqb Case_No case_no tx_df).
  set (info := mkCaseInfo case_no (first_valid (map Qty rows))
                 (last (map (fun t => Some (Location t)) rows) None)
                 (hd None (map (fun t => Some (Source_File t)) rows))).
  change case_no with (ci_Case_No info) at 1.
  apply filter_single_key.
  - rewrite case_info_keys. apply (groupby_keys_NoDup _ string_eqb_spec).
  - unfold case_info. apply in_map_iff. exists (case_no, rows). split; [reflexivity|].
    apply (groupby_In _ string_eqb_spec). auto.
Qed.

(** The entries of the dead stock frame. *)
Lemma analyze_dead_stock_In (tx_df : list Tx) (current_date threshold_days : Z)
  (e : DeadStock) :
  In e (analyze_dead_stock tx_df current_date threshold_days) <->
  exists case_no,
    In case_no (map Case_No tx_df) /\
    (let rows := rows_of String.eqb Case_No case_no tx_df in
     let last_move_date := Zmax_list (map Date rows) in
     (threshold_days <= (current_date - last_move_date) / ns_per_day) /\
     e = mkDeadStock case_no last_move_date
           ((current_date - last_move_date) / ns_per_day)
           (first_valid (map Qty rows))
           (last (map (fun t => Some (Location t)) rows) None)
           (hd None (map (fun t => Some (Source_File t)) rows))).
Proof.
  unfold analyze_dead_stock. cbv zeta. rewrite in_flat_map. split.
  - intros (m & Hm & He). apply filter_In in Hm. destruct Hm as [Hm Hth].
    apply latest_moves_In in Hm. destruct Hm as [Hc Em]. cbv zeta in Em.
    exists (lm_Case_No m). split; [exact Hc|].
    unfold merge_case_info in He. rewrite (case_info_of_case _ _ Hc) in He.
    cbv zeta in He. cbn [map ci_Qty ci_Location ci_Source_File] in He.
    destruct He as [<-|[]].
    rewrite Em in Hth |- *. cbn [lm_Case_No lm_Last_Move_Date lm_Days_Since_Last_Move] in *.
    apply Z.leb_le in Hth. split; [exact Hth|reflexivity].
  - intros (c & Hc & Hth & ->).
    set (last_move_date := Zmax_list (map Date (rows_of String.eqb Case_No c tx_df))) in *.
    exists (mkLatestMove c last_move_date ((current_date - last_move_date) / ns_per_day)).
    split.
    + apply filter_In. split.
      * apply latest_moves_In. cbn [lm_Case_No]. auto.
      * cbn [lm_Days_Since_Last_Move]. now apply Z.leb_le.
    + unfold merge_case_info. cbn [lm_Case_No].
      rewrite (case_info_of_case _ _ Hc). cbv zeta. left. reflexivity.
Qed.

Lemma analyze_dead_stock_cases (tx_df : list Tx) (current_date threshold_days : Z) :
  map ds_Case_No (analyze_dead_stock tx_df current_date threshold_days) =
  map lm_Case_No
      (filter (fun m => threshold_days <=? lm_Days_Since_Last_Move m)
              (latest_moves tx_df current_date)).
Proof.
  unfold analyze_dead_stock.
  assert (H : forall m, In m (latest_moves tx_df current_date) ->
            map ds_Case_No (merge_case_info (case_info tx_df) m) = [lm_Case_No m]).
  { intros m Hm. apply latest_moves_In in Hm. destruct Hm as [Hc _].
    unfold merge_case_info. rewrite (case_info_of_case _ _ Hc). reflexivity. }
  induction (latest_moves tx_df current_date) as [|m l IH]; [reflexivity|].
  cbn [filter]. destruct (threshold_days <=? lm_Days_Since_Last_Move m).
  - cbn [flat_map map]. rewrite map_app, H by (left; reflexivity).
    rewrite IH by (intros; apply H; right; assumption). reflexivity.
  - apply IH. intros; apply H; right; assumption.
Qed.

(** C9, as the code has it: a case is in the dead stock frame, once,
    exactly when the number of whole days between its latest transaction
    and the analysis time is at least the threshold; its entry carries
    that latest date, which is the date of one of the transactions of the
    case and which none of them exceeds, the number of whole days, and as
    quantity the first quantity of the case that is not NaN. *)
Theorem dead_stock_by_whole_days (tx_df : list Tx)
  (current_date threshold_days : Z) :
  NoDup (map ds_Case_No (analyze_dead_stock tx_df current_date threshold_days)) /\
  (forall case_no,
     In case_no (map ds_Case_No
                   (analyze_dead_stock tx_df current_date threshold_days)) <->
     In case_no (map Case_No tx_df) /\
     threshold_days <=
       (current_date -
        Zmax_list (map Date (rows_of String.eqb Case_No case_no tx_df)))
       / ns_per_day) /\
  (forall e,
     In e (analyze_dead_stock tx_df current_date threshold_days) ->
     (exists t, In t tx_df /\ Case_No t = ds_Case_No e /\ Date t = Last_Move_Date e) /\
     (forall t, In t tx_df -> Case_No t = ds_Case_No e -> Date t <= Last_Move_Date e) /\
     Days_Since_Last_Move e = (current_date - Last_Move_Date e) / ns_per_day /\
     threshold_days <= Days_Since_Last_Move e /\
     ds_Qty e =
       first_valid (map Qty (rows_of String.eqb Case_No (ds_Case_No e) tx_df))).
Proof.
  split; [|split].
  - rewrite analyze_dead_stock_cases.
    apply NoDup_map_filter, latest_moves_NoDup.
  - intros case_no. rewrite in_map_iff. split.
    + intros (e & <- & He). apply analyze_dead_stock_In in He.
      destruct He as (c & Hc & Hth & ->). cbn [ds_Case_No]. auto.
    + intros [Hc Hth]. eexists. split; [|apply analyze_dead_stock_In].
      2: { exists case_no. split; [exact Hc|]. cbv zeta. split; [exact Hth|reflexivity]. }
      reflexivity.
  - intros e He. apply analyze_dead_stock_In in He.
    destruct He as (c & Hc & Hth & ->).
    cbn [ds_Case_No Last_Move_Date Days_Since_Last_Move ds_Qty].
    set (rows := rows_of String.eqb Case_No c tx_df) in *.
    assert (Hne : map Date rows <> []).
    { intros E. apply map_eq_nil in E.
      now apply (rows_of_nonempty _ string_eqb_spec Case_No c tx_df). }
    destruct (Zmax_list_spec _ Hne) as [Hin Hmax].
    split; [|split; [|auto]].
    + apply in_map_iff in Hin. destruct Hin as (t & Ht & Hrow).
      apply filter_In in Hrow. destruct Hrow as [Hrow E].
      apply String.eqb_eq in E. exists t. auto.
    + intros t Ht Hcase. apply Hmax. apply in_map. apply filter_In.
      split; [exact Ht|]. now apply String.eqb_eq.
Qed.

Lemma dead_stock_by_whole_days_witness :
  In "C1" (map ds_Case_No
             (analyze_dead_stock sample_log sample_now default_threshold_days)) /\
  In sample_dead_entry
     (analyze_dead_stock sample_log sample_now default_threshold_days) /\
  Days_Since_Last_Move sample_dead_entry =
    (sample_now - Last_Move_Date sample_dead_entry) / ns_per_day /\
  default_threshold_days <= Days_Since_Last_Move sample_dead_entry.
Proof.
  destruct (dead_stock_by_whole_days sample_log sample_now default_threshold_days)
    as (_ & Hcases & Hentry).
  assert (Hin : In sample_dead_entry
                  (analyze_dead_stock sample_log sample_now default_threshold_days)).
  { vm_compute. left. reflexivity. }
  split.
  - apply (proj2 (Hcases "C1")). split.
    + vm_compute. left. reflexivity.
    + vm_compute. discriminate.
  - split; [exact Hin|].
    destruct (Hentry _ Hin) as (_ & _ & H3 & H4 & _). split; assumption.
Defined.

(** The claim as stated fails at the threshold itself: case C1, last
    moved exactly 180 days before the analysis time, is in the frame
    although its age does not exceed 180 days; a day less and it is not. *)
Lemma dead_stock_flags_age_equal_to_threshold :
  Zmax_list (map Date (rows_of String.eqb Case_No "C1" sample_log)) =
    19727 * ns_per_day /\
  sample_now - 19727 * ns_per_day = 180 * ns_per_day /\
  ~ (180 * ns_per_day < sample_now - 19727 * ns_per_day) /\
  ~ (180 < (sample_now - 19727 * ns_per_day) / ns_per_day) /\
  In "C1" (map ds_Case_No (analyze_dead_stock sample_log sample_now 180)) /\
  ~ In "C1" (map ds_Case_No
               (analyze_dead_stock sample_log (sample_now - ns_per_day) 180)).
Proof.
  split; [vm_compute; reflexivity|]. split; [vm_compute; reflexivity|].
  split; [vm_compute; discriminate|]. split; [vm_compute; discriminate|].
  split; [vm_compute; auto|]. vm_compute. tauto.
Qed.

(** The location of a flagged entry is the 'Location' of the last row of
    the case in the log.  For case C1, which went from DSV Indoor to MIR,
    that row is the exit from DSV Indoor, written after the entry at MIR:
    the entry names DSV Indoor, where the case no longer is. *)
Example dead_stock_location_is_of_last_row :
  map (fun e => (ds_Case_No e, ds_Location e))
      (analyze_dead_stock sample_log sample_now 180) =
    [("C1", Some "DSV Indoor")] /\
  map ev_Location (rows_of String.eqb ev_Case_No "C1" (sorted_events sample_events)) =
    ["DSV Indoor"; "MIR"].
Proof. split; vm_compute; reflexivity. Qed.

(** In the pipeline [calculate_daily_stock] has overwritten the dates of
    the log with their days before [analyze_dead_stock] reads it; the day
    counts are then taken from midnight. *)
Example dead_stock_after_daily_stock :
  map Days_Since_Last_Move
      (analyze_dead_stock (dates_truncated sample_log) (sample_now + 5) 180) = [180].
Proof. vm_compute. reflexivity. Qed.

(** * Further properties *)

(** ** Dropping duplicates *)

Lemma sumbool_of_bool_eq {K : Type} (keqb : K -> K -> bool)
  (keqb_spec : forall a b, keqb a b = true <-> a = b) (a b : K) :
  {a = b} + {a <> b}.
Proof.
  destruct (keqb a b) eqn:E.
  - left. now apply keqb_spec.
  - right. intros H. apply keqb_spec in H. congruence.
Qed.

Lemma filter_swap {A : Type} (p q : A -> bool) (l : list A) :
  filter p (filter q l) = filter q (filter p l).
Proof.
  induction l as [|x l IH]; [reflexivity|].
  simpl. destruct (q x) eqn:Eq, (p x) eqn:Ep; simpl; rewrite ?Eq, ?Ep, IH; reflexivity.
Qed.

Section DropDuplicatesFacts.
Context {K A : Type}.
Variable keqb : K -> K -> bool.
Hypothesis keqb_spec : forall a b, keqb a b = true <-> a = b.
Variable key : A -> K.

Lemma drop_duplicates_keys (l : list A) (k : K) :
  In k (map key (drop_duplicates keqb key l)) <-> In k (map key l).
Proof.
  induction l as [|a l IH]; simpl; [tauto|].
  split.
  - intros [H|H]; [auto|].
    apply in_map_iff in H. destruct H as (b & <- & Hb).
    apply filter_In in Hb. destruct Hb as [Hb _].
    right. apply IH. now apply in_map.
  - intros [H|H]; [auto|].
    destruct (keqb k (key a)) eqn:E.
    + left. symmetry. now apply keqb_spec.
    + right. apply (proj2 IH) in H. apply in_map_iff in H.
      destruct H as (b & <- & Hb). apply in_map_iff. exists b.
      split; [reflexivity|]. apply filter_In. split; [exact Hb|]. now rewrite E.
Qed.

Lemma drop_duplicates_NoDup (l : list A) :
  NoDup (map key (drop_duplicates keqb key l)).
Proof.
  induction l as [|a l IH]; simpl; constructor.
  - intros H. apply in_map_iff in H. destruct H as (b & E & Hb).
    apply filter_In in Hb. destruct Hb as [_ Hb].
    apply negb_true_iff in Hb. rewrite E in Hb.
    rewrite (proj2 (keqb_spec (key a) (key a)) eq_refl) in Hb. discriminate.
  - now apply NoDup_map_filter.
Qed.

(** Selecting rows by a condition that only depends on the key commutes
    with dropping duplicates. *)
Lemma filter_drop_duplicates (p : A -> bool) (l : list A) :
  (forall a b, In a l -> In b l -> key a = key b -> p a = p b) ->
  filter p (drop_duplicates keqb key l) = drop_duplicates keqb key (filter p l).
Proof.
  induction l as [|a l IH]; intros Hp; [reflexivity|].
  assert (IH' : filter p (drop_duplicates keqb key l) =
                drop_duplicates keqb key (filter p l)).
  { apply IH. intros x y Hx Hy. apply Hp; now right. }
  cbn [drop_duplicates filter]. destruct (p a) eqn:Ea.
  - cbn [drop_duplicates]. f_equal.
    now rewrite filter_swap, IH'.
  - rewrite filter_swap, IH'. apply filter_all.
    intros b Hb. apply negb_true_iff.
    destruct (keqb (key b) (key a)) eqn:E; [|reflexivity].
    apply keqb_spec in E. apply drop_duplicates_In in Hb.
    apply filter_In in Hb. destruct Hb as [Hb Hpb].
    rewrite (Hp b a) in Hpb; [congruence|now right|now left|exact E].
Qed.

(** Of three rows of which the first two share a key that the third does
    not have, the second is dropped. *)
Lemma drop_duplicates_second_of_three (x y z : A) :
  key x = key y -> key z <> key x ->
  drop_duplicates keqb key [x; y; z] = [x; z].
Proof.
  intros Exy Hz.
  assert (Hyx : keqb (key y) (key x) = true) by (now apply keqb_spec).
  assert (Hzx : keqb (key z) (key x) = false).
  { destruct (keqb (key z) (key x)) eqn:E; [|reflexivity].
    apply keqb_spec in E. contradiction. }
  assert (Hzy : keqb (key z) (key y) = false) by (now rewrite <- Exy).
  cbn [drop_duplicates filter]. rewrite Hzy. cbn [negb filter].
  rewrite Hyx, Hzx. reflexivity.
Qed.

End DropDuplicatesFacts.

(** ** The transaction log, case by case *)

Lemma TxId_eqb_spec (a b : TxId) : TxId_eqb a b = true <-> a = b.
Proof.
  destruct a as [[c1 t1] d1], b as [[c2 t2] d2]. unfold TxId_eqb.
  rewrite !andb_true_iff, String.eqb_eq, Z.eqb_eq, TxDirection_eqb_spec.
  split; [intros [[-> ->] ->]; reflexivity|intros E; inversion E; auto].
Qed.

(** The transactions written for the events, before duplicates go. *)
Lemma case_transactions_shape (case_no : string) (group : list Event)
  (prev : option string) (t : Tx) :
  In t (case_transactions case_no prev group) ->
  Case_No t = case_no /\
  Tx_ID t = (Case_No t, Date t / ns_per_sec, TxType t) /\
  (TxType t = OUT ->
   exists t', In t' (case_transactions case_no prev group) /\
              Tx_ID t' = (Case_No t, Date t / ns_per_sec, IN)).
Proof.
  revert prev. induction group as [|row rest IH]; intros prev; simpl; [tauto|].
  rewrite in_app_iff. intros [H|H].
  - destruct prev as [p|]; simpl in H.
    + destruct H as [<-|[<-|[]]].
      * repeat split. discriminate.
      * repeat split. intros _. exists (tx_in case_no p row).
        split; [left; reflexivity|reflexivity].
    + destruct H as [<-|[]]. repeat split. discriminate.
  - destruct (IH _ H) as (H1 & H2 & H3). repeat split; auto.
    intros Hout. destruct (H3 Hout) as (t' & Ht' & Hid).
    exists t'. split; [|exact Hid]. apply in_app_iff. now right.
Qed.

Lemma flat_map_map {A B C : Type} (g : A -> B) (f : B -> list C) (l : list A) :
  flat_map f (map g l) = flat_map (fun a => f (g a)) l.
Proof. induction l as [|x l IH]; simpl; [reflexivity|now rewrite IH]. Qed.

(** The log before [drop_duplicates], as a walk over the case numbers. *)
Lemma undeduplicated_log (raw_events : list Event) :
  flat_map (fun g => case_transactions (fst g) None (snd g)) (case_groups raw_events) =
  flat_map (fun case_no =>
              case_transactions case_no None
                (rows_of String.eqb ev_Case_No case_no (sorted_events raw_events)))
           (sort_values String.leb
              (unique String.eqb (map ev_Case_No (sorted_events raw_events)))).
Proof. unfold case_groups, groupby. now rewrite flat_map_map. Qed.

Lemma undeduplicated_log_shape (raw_events : list Event) (t : Tx) :
  In t (flat_map (fun g => case_transactions (fst g) None (snd g))
                 (case_groups raw_events)) ->
  Tx_ID t = (Case_No t, Date t / ns_per_sec, TxType t).
Proof.
  intros H. apply in_flat_map in H. destruct H as (g & _ & H).
  now apply case_transactions_shape in H.
Qed.

(** The transactions of one case in the log. *)
Lemma filter_log_by_case (raw_events : list Event) (case_no : string) :
  filter (fun t => String.eqb (Case_No t) case_no)
         (create_transaction_log raw_events) =
  drop_duplicates TxId_eqb Tx_ID
    (case_transactions case_no None
       (sort_values ev_Date_leb
          (rows_of String.eqb ev_Case_No case_no raw_events))).
Proof.
  unfold create_transaction_log.
  rewrite (filter_drop_duplicates _ TxId_eqb_spec).
  2: { intros a b Ha Hb E.
       apply undeduplicated_log_shape in Ha, Hb. rewrite Ha, Hb in E.
       inversion E. congruence. }
  f_equal. rewrite undeduplicated_log.
  set (keys := sort_values String.leb
                 (unique String.eqb (map ev_Case_No (sorted_events raw_events)))).
  assert (Hkey : forall a b,
            In b (case_transactions a None
                    (rows_of String.eqb ev_Case_No a (sorted_events raw_events))) ->
            Case_No b = a).
  { intros a b Hb. now apply case_transactions_shape in Hb. }
  destruct (in_dec string_dec case_no keys) as [Hin|Hnotin].
  - rewrite (filter_flat_map_in _ string_eqb_spec _ Case_No keys case_no); auto.
    + now rewrite case_group_sorted_by_date.
    + apply sort_values_NoDup, (unique_NoDup _ string_eqb_spec).
  - rewrite (filter_flat_map_notin _ string_eqb_spec _ Case_No keys case_no); auto.
    assert (E : rows_of String.eqb ev_Case_No case_no raw_events = []).
    { apply filter_none. intros e He.
      destruct (String.eqb (ev_Case_No e) case_no) eqn:Ec; [|reflexivity].
      apply String.eqb_eq in Ec. exfalso. apply Hnotin. unfold keys.
      apply sort_values_In, (proj2 (unique_In _ string_eqb_spec _ _)).
      rewrite <- Ec. apply in_map. now apply sort_values_In. }
    now rewrite E.
Qed.

(** ** The order of the transaction log *)

Lemma string_leb_trans (a b c : string) :
  String.leb a b = true -> String.leb b c = true -> String.leb a c = true.
Proof.
  unfold String.leb.
  destruct (String.compare a b) eqn:Hab; [| |discriminate];
    destruct (String.compare b c) eqn:Hbc; try discriminate; intros _ _.
  - apply String.compare_eq_iff in Hab, Hbc. subst. now rewrite string_compare_refl.
  - apply String.compare_eq_iff in Hab. subst. now rewrite Hbc.
  - apply String.compare_eq_iff in Hbc. subst. now rewrite Hab.
  - now rewrite (string_compare_lt_trans _ _ _ Hab Hbc).
Qed.

(** A list of distinct texts sorted by [String.leb] is strictly ascending. *)
Lemma sorted_distinct_strict (l : list string) :
  StronglySorted (ordered_by String.leb) l -> NoDup l ->
  StronglySorted (fun a b => String.compare a b = Lt) l.
Proof.
  induction 1 as [|a l Hs IH Hall]; intros Hnd; constructor.
  - apply IH. now inversion Hnd.
  - rewrite Forall_forall in *. intros b Hb. specialize (Hall b Hb).
    unfold ordered_by, String.leb in Hall.
    destruct (String.compare a b) eqn:E; [|reflexivity|discriminate].
    apply String.compare_eq_iff in E. subst b. now inversion Hnd.
Qed.

(** Two strictly ascending lists with the same elements are the same. *)
Lemma strictly_ascending_unique (l l' : list string) :
  StronglySorted (fun a b => String.compare a b = Lt) l ->
  StronglySorted (fun a b => String.compare a b = Lt) l' ->
  (forall x, In x l <-> In x l') -> l = l'.
Proof.
  intros Hl. revert l'. induction Hl as [|a l Hs IH Ha]; intros l' Hl' Hsame.
  - destruct l' as [|b l']; [reflexivity|].
    destruct (proj2 (Hsame b) (or_introl eq_refl)).
  - destruct Hl' as [|b l' Hs' Hb].
    + destruct (proj1 (Hsame a) (or_introl eq_refl)).
    + rewrite Forall_forall in Ha, Hb.
      assert (Hirr : forall x, String.compare x x <> Lt).
      { intros x. rewrite string_compare_refl. discriminate. }
      assert (E : a = b).
      { destruct (proj1 (Hsame a) (or_introl eq_refl)) as [E|Hin]; [now symmetry|].
        destruct (proj2 (Hsame b) (or_introl eq_refl)) as [E|Hin']; [exact E|].
        exfalso. apply (Hirr a).
        exact (string_compare_lt_trans _ _ _ (Ha b Hin') (Hb a Hin)). }
      subst b. f_equal. apply IH; [exact Hs'|].
      intros x. split; intros Hx.
      * destruct (proj1 (Hsame x) (or_intror Hx)) as [E|Hin]; [|exact Hin].
        subst x. exfalso. exact (Hirr a (Ha a Hx)).
      * destruct (proj2 (Hsame x) (or_intror Hx)) as [E|Hin]; [|exact Hin].
        subst x. exfalso. exact (Hirr a (Hb a Hx)).
Qed.

Section DropDuplicatesBlocks.
Context {K A B : Type}.
Variable keqb : K -> K -> bool.
Hypothesis keqb_spec : forall a b, keqb a b = true <-> a = b.
Variable key : A -> K.

(** Rows that share no key with the rows before them are not touched by
    the duplicates dropped there. *)
Lemma drop_duplicates_app (l1 l2 : list A) :
  (forall a b, In a l1 -> In b l2 -> key b <> key a) ->
  drop_duplicates keqb key (l1 ++ l2) =
  (drop_duplicates keqb key l1 ++ drop_duplicates keqb key l2)%list.
Proof.
  induction l1 as [|a l1 IH]; intros Hdis; [reflexivity|].
  cbn [app drop_duplicates]. f_equal.
  rewrite IH by (intros x y Hx Hy; apply Hdis; [now right|exact Hy]).
  rewrite filter_app. f_equal.
  apply filter_all. intros b Hb. apply negb_true_iff.
  destruct (keqb (key b) (key a)) eqn:E; [|reflexivity].
  apply keqb_spec in E. apply drop_duplicates_In in Hb.
  now destruct (Hdis a b (or_introl eq_refl) Hb).
Qed.

Lemma drop_duplicates_flat_map (f : B -> list A) (ks : list B) :
  NoDup ks ->
  (forall k k' a b, In a (f k) -> In b (f k') -> key a = key b -> k = k') ->
  drop_duplicates keqb key (flat_map f ks) =
  flat_map (fun k => drop_duplicates keqb key (f k)) ks.
Proof.
  intros Hnd Hblock. induction Hnd as [|k ks Hnotin Hnd IH]; [reflexivity|].
  cbn [flat_map]. rewrite drop_duplicates_app, IH; [reflexivity|].
  intros a b Ha Hb E. apply in_flat_map in Hb. destruct Hb as (k' & Hk' & Hb).
  apply Hnotin. now rewrite (Hblock k k' a b Ha Hb (eq_sym E)).
Qed.

End DropDuplicatesBlocks.

(** The case numbers of the groups: those of the events, each once, in
    ascending order. *)
Lemma case_group_keys (raw_events : list Event) :
  StronglySorted (fun a b => String.compare a b = Lt)
                 (map fst (case_groups raw_events)) /\
  forall case_no,
    In case_no (map fst (case_groups raw_events)) <->
    In case_no (map ev_Case_No raw_events).
Proof.
  unfold case_groups, groupby. rewrite map_map. cbn [fst]. rewrite map_id. split.
  - apply sorted_distinct_strict.
    + apply (sort_values_sorted _ String.leb_total string_leb_trans).
    + apply sort_values_NoDup, (unique_NoDup _ string_eqb_spec).
  - intros case_no. rewrite sort_values_In, (unique_In _ string_eqb_spec).
    unfold sorted_events. rewrite !in_map_iff.
    split; intros (e & E & He); exists e; (split; [exact E|]);
      now apply (sort_values_In case_date_leb).
Qed.

(** The log is made of the logs of the cases, one after the other. *)
Lemma log_by_cases (raw_events : list Event) :
  create_transaction_log raw_events =
  flat_map (fun case_no =>
              drop_duplicates TxId_eqb Tx_ID
                (case_transactions case_no None
                   (sort_values ev_Date_leb
                      (rows_of String.eqb ev_Case_No case_no raw_events))))
           (map fst (case_groups raw_events)).
Proof.
  unfold create_transaction_log. rewrite undeduplicated_log.
  assert (Ekeys : map fst (case_groups raw_events) =
                  sort_values String.leb
                    (unique String.eqb (map ev_Case_No (sorted_events raw_events)))).
  { unfold case_groups, groupby. rewrite map_map. cbn [fst]. apply map_id. }
  rewrite Ekeys.
  rewrite (flat_map_ext _
             (fun case_no =>
                case_transactions case_no None
                  (sort_values ev_Date_leb
                     (rows_of String.eqb ev_Case_No case_no raw_events))))
    by (intros case_no; now rewrite case_group_sorted_by_date).
  apply (drop_duplicates_flat_map _ TxId_eqb_spec).
  - apply sort_values_NoDup, (unique_NoDup _ string_eqb_spec).
  - intros k k' a b Ha Hb Eid.
    apply case_transactions_shape in Ha, Hb.
    destruct Ha as (Hk & Hida & _), Hb as (Hk' & Hidb & _).
    rewrite Hida, Hidb in Eid. inversion Eid. congruence.
Qed.

(** The walk writes one entry for every event, in the order of the walk,
    at the date and the place of the event. *)
Lemma case_transactions_entries (case_no : string) (prev : option string)
  (group : list Event) :
  map (fun t => (Date t, Location t))
      (filter (fun t => TxDirection_eqb (TxType t) IN)
              (case_transactions case_no prev group)) =
  map (fun e => (ev_Date e, ev_Location e)) group.
Proof.
  revert prev. induction group as [|row rest IH]; intros prev; [reflexivity|].
  cbn [case_transactions]. rewrite filter_app, map_app, IH.
  destruct prev as [prev_location|]; reflexivity.
Qed.

(** C4: the log is made of the logs of the cases, in ascending order of
    case number; the log of a case is written by walking the events of
    the case sorted on the timestamp, events of one timestamp in the
    order they have in the source (the sort is stable), from the first to
    the last, one entry for every event in that order, and dropping the
    transactions whose identifier came before.  So the log depends on
    the input only through the order in which each case has its events:
    two inputs that agree on it give the same log, as does the input
    handed over already sorted. *)
Theorem classifier_walks_stable_date_order (raw_events : list Event) :
  let source := fun case_no => rows_of String.eqb ev_Case_No case_no raw_events in
  let walk := fun case_no => sort_values ev_Date_leb (source case_no) in
  create_transaction_log raw_events =
    flat_map (fun case_no =>
                drop_duplicates TxId_eqb Tx_ID
                  (case_transactions case_no None (walk case_no)))
             (map fst (case_groups raw_events)) /\
  StronglySorted (fun a b => String.compare a b = Lt)
                 (map fst (case_groups raw_events)) /\
  (forall case_no,
     In case_no (map fst (case_groups raw_events)) <->
     In case_no (map ev_Case_No raw_events)) /\
  (forall case_no,
     filter (fun t => String.eqb (Case_No t) case_no)
            (create_transaction_log raw_events) =
       drop_duplicates TxId_eqb Tx_ID
         (case_transactions case_no None (walk case_no)) /\
     map (fun t => (Date t, Location t))
         (filter (fun t => TxDirection_eqb (TxType t) IN)
                 (case_transactions case_no None (walk case_no))) =
       map (fun e => (ev_Date e, ev_Location e)) (walk case_no) /\
     Permutation (walk case_no) (source case_no) /\
     StronglySorted (fun a b => ev_Date a <= ev_Date b) (walk case_no) /\
     forall d, filter (fun e => ev_Date e =? d) (walk case_no) =
               filter (fun e => ev_Date e =? d) (source case_no)) /\
  (forall other_events,
     (forall case_no,
        rows_of String.eqb ev_Case_No case_no other_events = source case_no) ->
     create_transaction_log other_events = create_transaction_log raw_events) /\
  create_transaction_log (sorted_events raw_events) =
  create_transaction_log raw_events.
Proof.
  intros source walk.
  destruct (case_group_keys raw_events) as [Hsorted Hkeys].
  split; [apply log_by_cases|]. split; [exact Hsorted|]. split; [exact Hkeys|].
  split; [|split].
  - intros case_no. split; [apply filter_log_by_case|].
    split; [apply case_transactions_entries|].
    split; [apply sort_values_Permutation|]. split.
    + pose proof (sort_values_sorted _ ev_Date_leb_total ev_Date_leb_trans
                    (source case_no)) as H.
      eapply StronglySorted_weaken; [|exact H].
      intros a b Hab. unfold ordered_by, ev_Date_leb in Hab. now apply Z.leb_le.
    + intros d. apply sort_values_stable.
      intros a b _ _ Ha Hb. apply Z.eqb_eq in Ha, Hb.
      unfold ev_Date_leb. apply Z.leb_le. lia.
  - intros other_events Hsame.
    rewrite (log_by_cases other_events), (log_by_cases raw_events).
    destruct (case_group_keys other_events) as [Hsorted' Hkeys'].
    assert (E : map fst (case_groups other_events) = map fst (case_groups raw_events)).
    { apply strictly_ascending_unique; [exact Hsorted'|exact Hsorted|].
      intros case_no. rewrite Hkeys', Hkeys.
      assert (Hin : forall l, In case_no (map ev_Case_No l) <->
                              rows_of String.eqb ev_Case_No case_no l <> []).
      { intros l. rewrite in_map_iff. split.
        - intros (e & E & He) Hnil.
          assert (H : In e (rows_of String.eqb ev_Case_No case_no l)).
          { apply filter_In. split; [exact He|]. now apply String.eqb_eq. }
          rewrite Hnil in H. exact H.
        - intros Hne. unfold rows_of in Hne.
          destruct (filter _ l) as [|e g] eqn:Eg; [contradiction|].
          assert (H : In e (filter (fun a => String.eqb (ev_Case_No a) case_no) l))
            by (rewrite Eg; left; reflexivity).
          apply filter_In in H. destruct H as [He Hc].
          apply String.eqb_eq in Hc. eauto. }
      rewrite !Hin, Hsame. reflexivity. }
    rewrite E. apply flat_map_ext. intros case_no. now rewrite Hsame.
  - unfold create_transaction_log, case_groups.
    assert (Hidem : sorted_events (sorted_events raw_events) = sorted_events raw_events).
    { apply (sort_values_idempotent _ case_date_leb_total case_date_leb_trans). }
    now rewrite Hidem.
Qed.

Lemma classifier_walks_stable_date_order_witness :
  sort_values ev_Date_leb
    (rows_of String.eqb ev_Case_No "C1"
       [ev_tie_mosb; ev_c2_indoor; ev_tie_markaz; ev_c1_indoor]) =
    [ev_c1_indoor; ev_tie_mosb; ev_tie_markaz] /\
  filter (fun t => String.eqb (Case_No t) "C1")
         (create_transaction_log
            [ev_tie_mosb; ev_c2_indoor; ev_tie_markaz; ev_c1_indoor]) =
    [ tx_in "C1" "SOURCE" ev_c1_indoor;
      tx_in "C1" "DSV Indoor" ev_tie_mosb;
      tx_out "C1" "DSV Indoor" ev_tie_mosb ] /\
  create_transaction_log [ev_c2_indoor; ev_tie_mosb; ev_tie_markaz; ev_c1_indoor] =
  create_transaction_log [ev_tie_mosb; ev_c2_indoor; ev_tie_markaz; ev_c1_indoor].
Proof.
  destruct (classifier_walks_stable_date_order
              [ev_tie_mosb; ev_c2_indoor; ev_tie_markaz; ev_c1_indoor])
    as (_ & _ & _ & Hcase & Hsame & _).
  split; [vm_compute; reflexivity|]. split.
  - rewrite (proj1 (Hcase "C1")). vm_compute. reflexivity.
  - apply Hsame. intros case_no.
    unfold rows_of, ev_tie_mosb, ev_c2_indoor, ev_tie_markaz, ev_c1_indoor.
    cbn [filter ev_Case_No].
    destruct (String.eqb_spec "C1" case_no), (String.eqb_spec "C2" case_no);
      try reflexivity. congruence.
Defined.
(** X1: the transactions of a case in the log are settled by the events of
    that case alone: two inputs with the same events of the case, in the
    same order, give the same transactions for it, whatever the events of
    the other cases are and wherever they stand. *)
Theorem log_of_a_case_depends_on_its_events_only (raw_events other_events : list Event)
  (case_no : string) :
  rows_of String.eqb ev_Case_No case_no raw_events =
  rows_of String.eqb ev_Case_No case_no other_events ->
  filter (fun t => String.eqb (Case_No t) case_no)
         (create_transaction_log raw_events) =
  filter (fun t => String.eqb (Case_No t) case_no)
         (create_transaction_log other_events).
Proof. intros H. rewrite !filter_log_by_case, H. reflexivity. Qed.

Lemma log_of_a_case_depends_on_its_events_only_witness :
  rows_of String.eqb ev_Case_No "C1" sample_events =
  rows_of String.eqb ev_Case_No "C1" [ev_c1_mir; ev_c1_indoor] /\
  filter (fun t => String.eqb (Case_No t) "C1") (create_transaction_log sample_events) =
  filter (fun t => String.eqb (Case_No t) "C1")
         (create_transaction_log [ev_c1_mir; ev_c1_indoor]).
Proof.
  assert (H : rows_of String.eqb ev_Case_No "C1" sample_events =
              rows_of String.eqb ev_Case_No "C1" [ev_c1_mir; ev_c1_indoor]).
  { vm_compute. reflexivity. }
  split; [exact H|].
  exact (log_of_a_case_depends_on_its_events_only sample_events
           [ev_c1_mir; ev_c1_indoor] "C1" H).
Defined.

(** X2: no two transactions of the log have the same identifier. *)
Theorem log_identifiers_are_unique (raw_events : list Event) :
  NoDup (map Tx_ID (create_transaction_log raw_events)).
Proof. apply (drop_duplicates_NoDup _ TxId_eqb_spec). Qed.

(** X3: a case seen once gives a single transaction, its entry from
    'SOURCE' at the place of that event, and no exit. *)
Theorem single_event_case_enters_only (raw_events : list Event)
  (case_no : string) (e : Event) :
  rows_of String.eqb ev_Case_No case_no raw_events = [e] ->
  filter (fun t => String.eqb (Case_No t) case_no)
         (create_transaction_log raw_events) =
  [tx_in case_no "SOURCE" e].
Proof. intros H. rewrite filter_log_by_case, H. reflexivity. Qed.

Lemma single_event_case_enters_only_witness :
  rows_of String.eqb ev_Case_No "C1" [ev_c2_indoor; ev_c1_indoor; ev_c2_outdoor] =
    [ev_c1_indoor] /\
  filter (fun t => String.eqb (Case_No t) "C1")
         (create_transaction_log [ev_c2_indoor; ev_c1_indoor; ev_c2_outdoor]) =
  [tx_in "C1" "SOURCE" ev_c1_indoor].
Proof.
  assert (H : rows_of String.eqb ev_Case_No "C1"
                [ev_c2_indoor; ev_c1_indoor; ev_c2_outdoor] = [ev_c1_indoor]).
  { vm_compute. reflexivity. }
  split; [exact H|].
  exact (single_event_case_enters_only _ "C1" ev_c1_indoor H).
Defined.

(** X4: when the two events of a case fall in the same second, the
    identifier of the second entry is that of the first, and
    [drop_duplicates] removes it: the log keeps the entry at the first
    place and the exit from it, and has no entry at the second place. *)
Theorem same_second_events_lose_the_second_entry (raw_events : list Event)
  (case_no : string) (a b : Event) :
  sort_values ev_Date_leb (rows_of String.eqb ev_Case_No case_no raw_events) = [a; b] ->
  ev_Date a / ns_per_sec = ev_Date b / ns_per_sec ->
  filter (fun t => String.eqb (Case_No t) case_no)
         (create_transaction_log raw_events) =
  [tx_in case_no "SOURCE" a; tx_out case_no (ev_Location a) b].
Proof.
  intros H Hsec. rewrite filter_log_by_case, H.
  cbn [case_transactions app].
  apply (drop_duplicates_second_of_three _ TxId_eqb_spec).
  - unfold tx_in, make_Tx_ID. cbn [Tx_ID]. now rewrite Hsec.
  - unfold tx_in, tx_out, make_Tx_ID. cbn [Tx_ID]. intros E. inversion E.
Qed.

Lemma same_second_events_lose_the_second_entry_witness :
  sort_values ev_Date_leb
    (rows_of String.eqb ev_Case_No "C1" [ev_tie_markaz; ev_c2_indoor; ev_tie_mosb]) =
    [ev_tie_markaz; ev_tie_mosb] /\
  ev_Date ev_tie_markaz / ns_per_sec = ev_Date ev_tie_mosb / ns_per_sec /\
  filter (fun t => String.eqb (Case_No t) "C1")
         (create_transaction_log [ev_tie_markaz; ev_c2_indoor; ev_tie_mosb]) =
  [tx_in "C1" "SOURCE" ev_tie_markaz; tx_out "C1" "DSV Al Markaz" ev_tie_mosb].
Proof.
  assert (H : sort_values ev_Date_leb
                (rows_of String.eqb ev_Case_No "C1"
                   [ev_tie_markaz; ev_c2_indoor; ev_tie_mosb]) =
              [ev_tie_markaz; ev_tie_mosb]).
  { vm_compute. reflexivity. }
  split; [exact H|]. split; [reflexivity|].
  exact (same_second_events_lose_the_second_entry _ "C1" _ _ H eq_refl).
Defined.

(** X5: every exit of the log has an entry of the same case and of the
    same second in the log. *)
Theorem every_exit_has_an_entry (raw_events : list Event) (t : Tx) :
  In t (create_transaction_log raw_events) ->
  TxType t = OUT ->
  exists t', In t' (create_transaction_log raw_events) /\
             TxType t' = IN /\ Case_No t' = Case_No t /\
             Date t' / ns_per_sec = Date t / ns_per_sec.
Proof.
  intros Hin Hout. unfold create_transaction_log in *.
  set (log := flat_map (fun g => case_transactions (fst g) None (snd g))
                       (case_groups raw_events)) in *.
  assert (Hraw : In t log) by (eapply drop_duplicates_In; exact Hin).
  assert (Hid : In (Case_No t, Date t / ns_per_sec, IN) (map Tx_ID log)).
  { unfold log in Hraw. apply in_flat_map in Hraw. destruct Hraw as (g & Hg & Ht).
    destruct (case_transactions_shape _ _ _ _ Ht) as (_ & _ & H).
    destruct (H Hout) as (t' & Ht' & E). rewrite <- E. apply in_map.
    unfold log. apply in_flat_map. eauto. }
  apply (proj2 (drop_duplicates_keys _ TxId_eqb_spec Tx_ID log _)) in Hid.
  apply in_map_iff in Hid. destruct Hid as (t' & E & Ht').
  exists t'. split; [exact Ht'|].
  assert (Hshape : Tx_ID t' = (Case_No t', Date t' / ns_per_sec, TxType t')).
  { apply (undeduplicated_log_shape raw_events). eapply drop_duplicates_In. exact Ht'. }
  rewrite Hshape in E. inversion E. auto.
Qed.

Lemma every_exit_has_an_entry_witness :
  In sample_exit (create_transaction_log sample_events) /\
  TxType sample_exit = OUT /\
  exists t', In t' (create_transaction_log sample_events) /\
             TxType t' = IN /\ Case_No t' = Case_No sample_exit /\
             Date t' / ns_per_sec = Date sample_exit / ns_per_sec.
Proof.
  assert (Hin : In sample_exit (create_transaction_log sample_events)).
  { vm_compute. right. right. left. reflexivity. }
  split; [exact Hin|]. split; [reflexivity|].
  exact (every_exit_has_an_entry sample_events sample_exit Hin eq_refl).
Defined.

(** ** The daily ledger against the transactions *)

Section KeyedRows.
Context {K A : Type}.
Variable keqb : K -> K -> bool.
Hypothesis keqb_spec : forall a b, keqb a b = true <-> a = b.
Variable key : A -> K.

(** In a frame without a repeated key, the rows of a key are one row. *)
Lemma rows_of_single (l : list A) (x : A) :
  NoDup (map key l) -> In x l -> rows_of keqb key (key x) l = [x].
Proof.
  unfold rows_of. induction l as [|y l IH]; simpl; [tauto|].
  intros Hnd Hin. inversion Hnd as [|? ? Hnotin Hnd']; subst.
  destruct Hin as [->|Hin].
  - rewrite (proj2 (keqb_spec (key x) (key x)) eq_refl). f_equal.
    apply filter_none. intros z Hz.
    destruct (keqb (key z) (key x)) eqn:E; [|reflexivity].
    apply keqb_spec in E. exfalso. apply Hnotin. rewrite <- E. now apply in_map.
  - destruct (keqb (key y) (key x)) eqn:E.
    + apply keqb_spec in E. exfalso. apply Hnotin. rewrite E. now apply in_map.
    + auto.
Qed.

Lemma rows_of_absent (l : list A) (k : K) :
  ~ In k (map key l) -> rows_of keqb key k l = [].
Proof.
  intros H. apply filter_none. intros a Ha.
  destruct (keqb (key a) k) eqn:E; [|reflexivity].
  apply keqb_spec in E. exfalso. apply H. rewrite <- E. now apply in_map.
Qed.

End KeyedRows.

Lemma daily_summary_keys_NoDup (tx_df : list Tx) :
  NoDup (map fst (daily_summary tx_df)).
Proof.
  unfold daily_summary. rewrite map_map. cbn [fst].
  apply (groupby_keys_NoDup _ SummaryKey_eqb_spec).
Qed.

Lemma daily_summary_In (tx_df : list Tx) (k : SummaryKey) :
  In k (map summary_key tx_df) ->
  In (k, sum_skipna (map Qty (rows_of SummaryKey_eqb summary_key k tx_df)))
     (daily_summary tx_df).
Proof.
  intros H. unfold daily_summary. apply in_map_iff.
  exists (k, rows_of SummaryKey_eqb summary_key k tx_df). split; [reflexivity|].
  apply (groupby_In _ SummaryKey_eqb_spec). auto.
Qed.

Lemma daily_summary_key_In (tx_df : list Tx) (k : SummaryKey) :
  In k (map fst (daily_summary tx_df)) -> In k (map summary_key tx_df).
Proof.
  unfold daily_summary. rewrite map_map. cbn [fst]. intros H.
  apply in_map_iff in H. destruct H as ([k' g] & <- & Hg).
  now apply (groupby_In _ SummaryKey_eqb_spec) in Hg.
Qed.

(** A cell of the pivot table is the sum of the quantities of the
    transactions of its location, day and type. *)
Lemma pivot_cell_is_sum (tx_df : list Tx) (idx : LocDate) (col : TxRefined) :
  (pivot_cell (daily_summary tx_df) idx col ==
   sum_skipna (map Qty (rows_of SummaryKey_eqb summary_key (idx, col) tx_df)))%Q.
Proof.
  unfold pivot_cell.
  change (filter (fun r => SummaryKey_eqb (fst r) (idx, col)) (daily_summary tx_df))
    with (rows_of SummaryKey_eqb fst (idx, col) (daily_summary tx_df)).
  destruct (in_dec (fun a b => sumbool_of_bool_eq SummaryKey_eqb SummaryKey_eqb_spec a b)
                   (idx, col) (map summary_key tx_df)) as [Hin|Hnotin].
  - pose proof (daily_summary_In _ _ Hin) as Hrow.
    pose proof (rows_of_single _ SummaryKey_eqb_spec fst _ _
                  (daily_summary_keys_NoDup tx_df) Hrow) as E.
    cbn [fst] in E. rewrite E.
    cbn [map snd List.length]. unfold Qsum. cbn [fold_right Z.of_nat].
    change (inject_Z (Z.pos (Pos.of_succ_nat 0))) with 1%Q. field.
  - rewrite (rows_of_absent _ SummaryKey_eqb_spec fst).
    + rewrite (rows_of_absent _ SummaryKey_eqb_spec summary_key _ _ Hnotin).
      reflexivity.
    + intros H. apply Hnotin. now apply daily_summary_key_In.
Qed.

Lemma daily_pivot_cells (tx_df : list Tx) (p : PivotRow) :
  In p (daily_pivot tx_df) ->
  let idx := (pv_Location p, pv_Date p) in
  pv_IN p = pivot_cell (daily_summary tx_df) idx R_IN /\
  pv_TRANSFER_OUT p = pivot_cell (daily_summary tx_df) idx TRANSFER_OUT /\
  pv_FINAL_OUT p = pivot_cell (daily_summary tx_df) idx FINAL_OUT.
Proof.
  unfold daily_pivot. cbv zeta. intros H. apply in_map_iff in H.
  destruct H as ([l d] & <- & _). cbn. auto.
Qed.

(** X6: when the quantities of the log are whole numbers that add up, in
    absolute value, to less than 2^53, so that no sum of the frame wraps
    or rounds, then in every row of the daily ledger the inbound, the
    transfers out and the final exits are the sums of the quantities of
    the IN, TRANSFER_OUT and FINAL_OUT transactions of the row's location
    on the row's day, a quantity that is NaN counting for nothing. *)
Theorem daily_stock_sums_the_transactions (tx_df : list Tx) (row : StockRecord) :
  exact_quantities (dropna (map Qty tx_df)) ->
  In row (calculate_daily_stock tx_df) ->
  let of_type := fun kind =>
    sum_skipna
      (map Qty (rows_of SummaryKey_eqb summary_key
                  ((sr_Location row, sr_Date row), kind) tx_df)) in
  (Inbound row == of_type R_IN)%Q /\
  (Transfer_Out row == of_type TRANSFER_OUT)%Q /\
  (Final_Out row == of_type FINAL_OUT)%Q.
Proof.
  intros _ H of_type. unfold of_type.
  apply calculate_daily_stock_In, location_stock_In in H. destruct H as [_ H].
  apply stock_rows_In in H.
  destruct H as (_ & _ & _ & p & Hp & Hd & Hi & Ht & Hf).
  apply (proj1 (sort_values_In _ _ _)) in Hp. apply filter_In in Hp.
  destruct Hp as [Hp Hl]. apply String.eqb_eq in Hl.
  destruct (daily_pivot_cells _ _ Hp) as (E1 & E2 & E3). cbv zeta in E1, E2, E3.
  rewrite Hi, Ht, Hf, E1, E2, E3, Hd, <- Hl.
  repeat split; apply pivot_cell_is_sum.
Qed.

Lemma daily_stock_sums_the_transactions_witness :
  exact_quantities (dropna (map Qty sample_log)) /\
  In sample_stock_row (calculate_daily_stock sample_log) /\
  (Final_Out sample_stock_row ==
   sum_skipna
     (map Qty (rows_of SummaryKey_eqb summary_key
                 ((sr_Location sample_stock_row, sr_Date sample_stock_row), FINAL_OUT)
                 sample_log)))%Q.
Proof.
  assert (Hin : In sample_stock_row (calculate_daily_stock sample_log)).
  { vm_compute. right. left. reflexivity. }
  assert (Hexact : exact_quantities (dropna (map Qty sample_log))).
  { split; vm_compute; reflexivity. }
  split; [exact Hexact|]. split; [exact Hin|].
  exact (proj2 (proj2 (daily_stock_sums_the_transactions sample_log _ Hexact Hin))).
Defined.

Lemma stock_rows_last (location : string) (loc_data : list PivotRow)
  (opening_stock : Q) (init : list StockRecord) (final : StockRecord) :
  stock_rows location opening_stock loc_data = (init ++ [final])%list ->
  (Closing_Stock final ==
   opening_stock + Qsum (map Inbound (init ++ [final]))
   - Qsum (map Total_Outbound (init ++ [final])))%Q.
Proof.
  revert opening_stock init.
  induction loc_data as [|p rest IH]; intros o init; cbn [stock_rows].
  - destruct init; discriminate.
  - destruct init as [|r init]; cbn [app]; intros E; injection E as E1 E2.
    + subst final.
      unfold Qsum. cbn [map fold_right Inbound Total_Outbound Closing_Stock]. ring.
    + subst r. apply IH in E2. rewrite E2.
      unfold Qsum. cbn [map fold_right Inbound Total_Outbound]. ring.
Qed.

(** X7: when the quantities of the log are whole numbers that add up, in
    absolute value, to less than 2^53, so that no sum or difference of
    the ledger rounds, then for every location of the daily ledger the
    closing stock of its last row is the sum of its inbound quantities
    minus the sum of its outbound quantities over all its rows. *)
Theorem daily_stock_last_closing_is_net_movement (tx_df : list Tx)
  (location : string) (init : list StockRecord) (final : StockRecord) :
  exact_quantities (dropna (map Qty tx_df)) ->
  filter (fun r => String.eqb (sr_Location r) location)
         (calculate_daily_stock tx_df) = (init ++ [final])%list ->
  (Closing_Stock final ==
   Qsum (map Inbound (init ++ [final]))
   - Qsum (map Total_Outbound (init ++ [final])))%Q.
Proof.
  intros _ E.
  destruct (rows_of_location tx_df location) as [E'|E']; cbv zeta in E';
    rewrite E in E'; [|destruct init; discriminate].
  unfold location_stock in E'. destruct (excluded_location location);
    [destruct init; discriminate|].
  symmetry in E'. apply stock_rows_last in E'. rewrite E'. ring.
Qed.

Lemma daily_stock_last_closing_is_net_movement_witness :
  exact_quantities (dropna (map Qty sample_log)) /\
  filter (fun r => String.eqb (sr_Location r) "DSV Indoor")
         (calculate_daily_stock sample_log) =
    ([sample_indoor_first; sample_stock_row] ++
     [mkStockRecord "DSV Indoor" 19763 0 5 0 0 0 5 19763])%list /\
  (5 == Qsum [10; 0; 5] - Qsum [0; 10; 0])%Q.
Proof.
  assert (E : filter (fun r => String.eqb (sr_Location r) "DSV Indoor")
                     (calculate_daily_stock sample_log) =
              ([sample_indoor_first; sample_stock_row] ++
               [mkStockRecord "DSV Indoor" 19763 0 5 0 0 0 5 19763])%list).
  { vm_compute. reflexivity. }
  assert (Hexact : exact_quantities (dropna (map Qty sample_log))).
  { split; vm_compute; reflexivity. }
  split; [exact Hexact|]. split; [exact E|].
  exact (daily_stock_last_closing_is_net_movement sample_log "DSV Indoor" _ _
           Hexact E).
Defined.

Lemma StronglySorted_lt_NoDup (l : list Z) : StronglySorted Z.lt l -> NoDup l.
Proof.
  induction 1 as [|x l Hs IH Hall]; constructor; [|exact IH].
  intros Hin. rewrite Forall_forall in Hall. specialize (Hall x Hin). lia.
Qed.

(** Blocks of rows written key by key: when no key comes twice and no
    block repeats a row label, the whole frame repeats none. *)
Lemma NoDup_blocks {K B L : Type} (f : K -> list B) (label : B -> K * L)
  (ks : list K) :
  NoDup ks ->
  (forall k, NoDup (map label (f k))) ->
  (forall k b, In b (f k) -> fst (label b) = k) ->
  NoDup (map label (flat_map f ks)).
Proof.
  intros Hnd Hblock Hkey. induction Hnd as [|k ks Hnotin Hnd IH]; [constructor|].
  cbn [flat_map]. rewrite map_app. apply NoDup_app.
  - apply Hblock.
  - exact IH.
  - intros x Hx Hx'. apply in_map_iff in Hx, Hx'.
    destruct Hx as (b & <- & Hb), Hx' as (b' & E & Hb').
    apply in_flat_map in Hb'. destruct Hb' as (k' & Hk' & Hb').
    apply Hkey in Hb, Hb'. rewrite E, Hb in Hb'. subst k'. contradiction.
Qed.

(** X8: the daily ledger has at most one row for a location and a date,
    and none for the locations UNKNOWN and UNK, whatever the log holds. *)
Theorem daily_stock_rows_are_unique (tx_df : list Tx) :
  NoDup (map (fun r => (sr_Location r, sr_Date r)) (calculate_daily_stock tx_df)) /\
  (forall row, In row (calculate_daily_stock tx_df) ->
     sr_Location row <> "UNKNOWN" /\ sr_Location row <> "UNK").
Proof.
  split.
  - unfold calculate_daily_stock. cbv zeta. apply NoDup_blocks.
    + apply (unique_NoDup _ string_eqb_spec).
    + intros k.
      pose proof (location_stock_sorted tx_df k) as Hs.
      apply StronglySorted_map_intro, StronglySorted_lt_NoDup in Hs.
      assert (Hloc : forall r, In r (location_stock (daily_pivot tx_df) k) ->
                               sr_Location r = k)
        by (intros r; apply location_stock_location).
      induction (location_stock (daily_pivot tx_df) k) as [|r l IHl];
        [constructor|].
      cbn [map] in *. inversion Hs as [|? ? Hnotin Hnd]; subst.
      constructor.
      * intros Hin. apply Hnotin. apply in_map_iff in Hin.
        destruct Hin as (r' & E & Hr'). inversion E. apply in_map_iff. eauto.
      * apply IHl; auto. intros; apply Hloc; now right.
    + intros k b Hb. cbn [fst]. now apply location_stock_location in Hb.
  - intros row H. apply calculate_daily_stock_In, location_stock_In in H.
    destruct H as [H _]. unfold excluded_location in H.
    apply orb_false_iff in H. destruct H as [H1 H2].
    now apply String.eqb_neq in H1, H2.
Qed.

(** ** The dates overwritten by the daily stock *)

Lemma ns_per_day_pos : 0 < ns_per_day.
Proof. reflexivity. Qed.

Lemma date_of_midnight (d : Z) : date_of (d * ns_per_day) = d.
Proof. unfold date_of. apply Z.div_mul. discriminate. Qed.

Lemma filter_map_invariant {A : Type} (f : A -> A) (p : A -> bool) (l : list A) :
  (forall a, p (f a) = p a) -> filter p (map f l) = map f (filter p l).
Proof.
  intros H. induction l as [|x l IH]; [reflexivity|].
  simpl. rewrite H. destruct (p x); simpl; now rewrite IH.
Qed.

(** Grouping a frame whose rows were changed without touching the key. *)
Lemma groupby_map_invariant {A K : Type} (keqb : K -> K -> bool) (key : A -> K)
  (kleb : K -> K -> bool) (f : A -> A) (l : list A) :
  (forall a, key (f a) = key a) ->
  groupby keqb key kleb (map f l) =
  map (fun g => (fst g, map f (snd g))) (groupby keqb key kleb l).
Proof.
  intros H. unfold groupby, rows_of. rewrite !map_map.
  rewrite (map_ext (fun a => key (f a)) key H).
  apply map_ext. intros k. cbn [fst snd]. f_equal.
  apply filter_map_invariant. intros a. now rewrite H.
Qed.

Lemma summary_key_truncated (t : Tx) :
  summary_key (set_Date t (date_of (Date t) * ns_per_day)) = summary_key t.
Proof. unfold summary_key, set_Date. cbn. now rewrite date_of_midnight. Qed.

Lemma daily_summary_truncated (tx_df : list Tx) :
  daily_summary (dates_truncated tx_df) = daily_summary tx_df.
Proof.
  unfold daily_summary, dates_truncated.
  rewrite (groupby_map_invariant _ _ _ _ _ summary_key_truncated).
  rewrite map_map. apply map_ext. intros g. cbn [fst snd].
  now rewrite map_map.
Qed.

(** X9: [calculate_daily_stock] overwrites the dates of the log it is
    given with their days; computed again from the log so changed, the
    daily stock is the same, and overwriting again changes nothing more. *)
Theorem daily_stock_unchanged_by_its_overwrite (tx_df : list Tx) :
  calculate_daily_stock (dates_truncated tx_df) = calculate_daily_stock tx_df /\
  dates_truncated (dates_truncated tx_df) = dates_truncated tx_df.
Proof.
  split.
  - unfold calculate_daily_stock, daily_pivot. now rewrite daily_summary_truncated.
  - unfold dates_truncated. rewrite map_map. apply map_ext. intros t.
    unfold set_Date. cbn. now rewrite date_of_midnight.
Qed.

Lemma Zmax_list_map_monotone (f : Z -> Z) (l : list Z) :
  (forall x y, x <= y -> f x <= f y) -> l <> [] ->
  Zmax_list (map f l) = f (Zmax_list l).
Proof.
  intros Hf Hne.
  assert (Hne' : map f l <> []) by (destruct l; [contradiction|discriminate]).
  destruct (Zmax_list_spec l Hne) as [Hin Hmax].
  destruct (Zmax_list_spec (map f l) Hne') as [Hin' Hmax'].
  apply Z.le_antisymm.
  - apply in_map_iff in Hin'. destruct Hin' as (x & <- & Hx). apply Hf. auto.
  - apply Hmax'. now apply in_map.
Qed.

Lemma rows_of_case_truncated (tx_df : list Tx) (case_no : string) :
  map Date (rows_of String.eqb Case_No case_no (dates_truncated tx_df)) =
  map (fun d => date_of d * ns_per_day)
      (map Date (rows_of String.eqb Case_No case_no tx_df)).
Proof.
  unfold rows_of, dates_truncated.
  rewrite filter_map_invariant by reflexivity.
  rewrite !map_map. reflexivity.
Qed.

Lemma calendar_days (current_date d : Z) :
  (current_date - d * ns_per_day) / ns_per_day = date_of current_date - d.
Proof.
  unfold date_of.
  replace (current_date - d * ns_per_day) with (current_date + (- d) * ns_per_day)
    by ring.
  rewrite Z.div_add by discriminate. ring.
Qed.

Lemma date_of_monotone (x y : Z) :
  x <= y -> date_of x * ns_per_day <= date_of y * ns_per_day.
Proof.
  intros Hxy. unfold date_of.
  apply Z.mul_le_mono_nonneg_r; [discriminate|].
  apply Z.div_le_mono; [reflexivity|exact Hxy].
Qed.

(** Whom [analyze_dead_stock] flags in a log whose dates were overwritten. *)
Lemma dead_stock_of_truncated_log (log : list Tx) (current_date threshold : Z)
  (case_no : string) :
  In case_no (map ds_Case_No
                (analyze_dead_stock (dates_truncated log) current_date threshold)) <->
  In case_no (map Case_No log) /\
  threshold <= date_of current_date -
               date_of (Zmax_list (map Date (rows_of String.eqb Case_No case_no log))).
Proof.
  assert (Hdays : forall c, In c (map Case_No log) ->
    (current_date -
     Zmax_list (map Date (rows_of String.eqb Case_No c (dates_truncated log))))
      / ns_per_day =
    date_of current_date -
    date_of (Zmax_list (map Date (rows_of String.eqb Case_No c log)))).
  { intros c Hc. rewrite rows_of_case_truncated.
    rewrite (Zmax_list_map_monotone _ _ date_of_monotone).
    - apply calendar_days.
    - intros E. apply map_eq_nil in E.
      now apply (rows_of_nonempty _ string_eqb_spec Case_No c log). }
  assert (Hcases : map Case_No (dates_truncated log) = map Case_No log).
  { unfold dates_truncated. now rewrite map_map. }
  rewrite in_map_iff. split.
  - intros (e & <- & He). apply analyze_dead_stock_In in He.
    destruct He as (c & Hc & Hth & ->). cbn [ds_Case_No].
    rewrite Hcases in Hc. split; [exact Hc|].
    rewrite <- (Hdays c Hc). exact Hth.
  - intros [Hc Hth]. eexists. split; [|apply analyze_dead_stock_In].
    2: { exists case_no. rewrite Hcases. split; [exact Hc|].
         cbv zeta. split; [|reflexivity].
         rewrite (Hdays case_no Hc). exact Hth. }
    reflexivity.
Qed.

(** The dates of a case in the log are the dates of its events: each
    transaction is dated by an event of the case, and each event dates a
    transaction that survives in the same second. *)
Lemma tx_in_written (case_no : string) (group : list Event) (prev : option string)
  (row : Event) :
  In row group ->
  exists loc_from, In (tx_in case_no loc_from row) (case_transactions case_no prev group).
Proof.
  revert prev. induction group as [|r rest IH]; intros prev; [contradiction|].
  cbn [case_transactions]. intros [->|H].
  - destruct prev as [p|]; eexists; apply in_or_app; left; left; reflexivity.
  - destruct (IH (Some (ev_Location r)) H) as (p & Hp).
    exists p. apply in_or_app. now right.
Qed.

Lemma log_dates_of_case (raw_events : list Event) (case_no : string) :
  let log_rows := rows_of String.eqb Case_No case_no (create_transaction_log raw_events) in
  let events := rows_of String.eqb ev_Case_No case_no raw_events in
  (forall t, In t log_rows -> exists e, In e events /\ Date t = ev_Date e) /\
  (forall e, In e events ->
     exists t, In t log_rows /\ Date t / ns_per_sec = ev_Date e / ns_per_sec).
Proof.
  cbv zeta.
  assert (Hlog : rows_of String.eqb Case_No case_no (create_transaction_log raw_events) =
                 drop_duplicates TxId_eqb Tx_ID
                   (case_transactions case_no None
                      (sort_values ev_Date_leb
                         (rows_of String.eqb ev_Case_No case_no raw_events))))
    by apply filter_log_by_case.
  rewrite Hlog. clear Hlog.
  set (group := sort_values ev_Date_leb
                  (rows_of String.eqb ev_Case_No case_no raw_events)).
  split.
  - intros t Ht. apply drop_duplicates_In in Ht.
    apply case_transactions_In in Ht. destruct Ht as (row & p & Hrow & Ht).
    exists row. split; [exact (proj1 (sort_values_In _ _ _) Hrow)|].
    destruct Ht as [->| ->]; reflexivity.
  - intros e He.
    assert (Hg : In e group) by (now apply (proj2 (sort_values_In _ _ _))).
    destruct (tx_in_written case_no group None e Hg) as (p & Hp).
    assert (Hk : In (Tx_ID (tx_in case_no p e))
                    (map Tx_ID (case_transactions case_no None group)))
      by (now apply in_map).
    apply (proj2 (drop_duplicates_keys TxId_eqb TxId_eqb_spec Tx_ID _ _)) in Hk.
    apply in_map_iff in Hk. destruct Hk as (t & Hid & Ht).
    exists t. split; [exact Ht|].
    apply drop_duplicates_In in Ht. apply case_transactions_shape in Ht.
    destruct Ht as (_ & Hshape & _). rewrite Hshape in Hid.
    cbn in Hid. unfold make_Tx_ID in Hid. now injection Hid as _ Hsec _.
Qed.

Lemma date_of_seconds (x y : Z) :
  x / ns_per_sec = y / ns_per_sec -> date_of x = date_of y.
Proof.
  intros H. unfold date_of, ns_per_day.
  rewrite (Z.mul_comm 86400 ns_per_sec).
  rewrite <- !Z.div_div by (try discriminate; reflexivity).
  now rewrite H.
Qed.

Lemma date_of_le (x y : Z) : x <= y -> date_of x <= date_of y.
Proof. intros H. apply Z.div_le_mono; [reflexivity|exact H]. Qed.

Lemma log_cases (raw_events : list Event) (case_no : string) :
  In case_no (map Case_No (create_transaction_log raw_events)) <->
  In case_no (map ev_Case_No raw_events).
Proof.
  destruct (log_dates_of_case raw_events case_no) as [Hlog Hev]. cbv zeta in *.
  rewrite !in_map_iff. split.
  - intros (t & Hc & Ht).
    destruct (Hlog t) as (e & He & _).
    { apply filter_In. split; [exact Ht|]. rewrite Hc. apply String.eqb_refl. }
    apply filter_In in He. destruct He as [He Hce].
    exists e. split; [now apply String.eqb_eq|exact He].
  - intros (e & Hc & He).
    destruct (Hev e) as (t & Ht & _).
    { apply filter_In. split; [exact He|]. rewrite Hc. apply String.eqb_refl. }
    apply filter_In in Ht. destruct Ht as [Ht Hct].
    exists t. split; [now apply String.eqb_eq|exact Ht].
Qed.

(** The day of the last transaction of a case is the day of its last event. *)
Lemma last_move_day (raw_events : list Event) (case_no : string) :
  In case_no (map ev_Case_No raw_events) ->
  date_of (Zmax_list (map Date (rows_of String.eqb Case_No case_no
                                  (create_transaction_log raw_events)))) =
  date_of (Zmax_list (map ev_Date (rows_of String.eqb ev_Case_No case_no raw_events))).
Proof.
  intros Hc.
  destruct (log_dates_of_case raw_events case_no) as [Hlog Hev]. cbv zeta in *.
  set (log_rows := rows_of String.eqb Case_No case_no
                     (create_transaction_log raw_events)) in *.
  set (events := rows_of String.eqb ev_Case_No case_no raw_events) in *.
  assert (Hne : map ev_Date events <> []).
  { intros E. apply map_eq_nil in E.
    now apply (rows_of_nonempty _ string_eqb_spec ev_Case_No case_no raw_events). }
  assert (Hne' : map Date log_rows <> []).
  { intros E. apply map_eq_nil in E.
    apply (rows_of_nonempty _ string_eqb_spec Case_No case_no
             (create_transaction_log raw_events)); [|exact E].
    now apply log_cases. }
  destruct (Zmax_list_spec _ Hne) as [Hin Hmax].
  destruct (Zmax_list_spec _ Hne') as [Hin' Hmax'].
  apply Z.le_antisymm.
  - apply date_of_le.
    apply in_map_iff in Hin'. destruct Hin' as (t & <- & Ht).
    destruct (Hlog t Ht) as (e & He & ->).
    apply Hmax. now apply in_map.
  - apply in_map_iff in Hin. destruct Hin as (e & <- & He).
    destruct (Hev e He) as (t & Ht & Hsec).
    rewrite <- (date_of_seconds _ _ Hsec).
    apply date_of_le, Hmax'. now apply in_map.
Qed.

(** X10: [main] looks for the dead stock in the log whose dates the daily
    stock has overwritten with their days: it flags a case exactly when the
    number of calendar days from the day of the last event loaded for the
    case to the day of the analysis is at least 180. *)
Theorem main_counts_calendar_days (raw_data : list Event) (current_date : Z)
  (daily_stock : list StockRecord) (validation_results : IntegrityReport)
  (dead_stock : list DeadStock) :
  main_analysis raw_data current_date =
    Some (daily_stock, validation_results, dead_stock) ->
  forall case_no,
    In case_no (map ds_Case_No dead_stock) <->
    In case_no (map ev_Case_No raw_data) /\
    180 <= date_of current_date -
           date_of (Zmax_list (map ev_Date
                                 (rows_of String.eqb ev_Case_No case_no raw_data))).
Proof.
  intros Hmain case_no.
  assert (Hdead : dead_stock =
            analyze_dead_stock (dates_truncated (create_transaction_log raw_data))
                               current_date 180).
  { destruct raw_data as [|e raw_data]; [discriminate|].
    apply (f_equal (fun o => match o with
                             | Some (_, _, found) => found
                             | None => dead_stock
                             end)) in Hmain.
    symmetry. exact Hmain. }
  subst dead_stock.
  rewrite dead_stock_of_truncated_log, log_cases.
  split; intros [Hc Hth]; (split; [exact Hc|]).
  - now rewrite <- (last_move_day raw_data case_no Hc).
  - now rewrite (last_move_day raw_data case_no Hc).
Qed.

Lemma main_counts_calendar_days_witness :
  exists daily_stock validation_results dead_stock,
    main_analysis sample_events (19907 * ns_per_day + 43200 * ns_per_sec) =
      Some (daily_stock, validation_results, dead_stock) /\
    (In "C1" (map ds_Case_No dead_stock) <->
     In "C1" (map ev_Case_No sample_events) /\
     180 <= date_of (19907 * ns_per_day + 43200 * ns_per_sec) -
            date_of (Zmax_list (map ev_Date (rows_of String.eqb ev_Case_No "C1"
                                               sample_events)))).
Proof.
  eexists _, _, _. split; [reflexivity|].
  exact (main_counts_calendar_days sample_events
           (19907 * ns_per_day + 43200 * ns_per_sec) _ _ _ eq_refl "C1").
Defined.

(** X11: the overwrite of the dates only adds to the dead stock: a case
    that [analyze_dead_stock] flags in the log as the engine wrote it is
    flagged by [main] as well. *)
Theorem main_flags_all_dead_stock_of_the_log (raw_data : list Event)
  (current_date : Z) (daily_stock : list StockRecord)
  (validation_results : IntegrityReport) (dead_stock : list DeadStock)
  (case_no : string) :
  main_analysis raw_data current_date =
    Some (daily_stock, validation_results, dead_stock) ->
  In case_no (map ds_Case_No
                (analyze_dead_stock (create_transaction_log raw_data)
                                    current_date default_threshold_days)) ->
  In case_no (map ds_Case_No dead_stock).
Proof.
  intros Hmain Hfresh.
  assert (Hdead : dead_stock =
            analyze_dead_stock (dates_truncated (create_transaction_log raw_data))
                               current_date default_threshold_days).
  { destruct raw_data as [|e raw_data]; [discriminate|].
    apply (f_equal (fun o => match o with
                             | Some (_, _, found) => found
                             | None => dead_stock
                             end)) in Hmain.
    symmetry. exact Hmain. }
  subst dead_stock.
  apply dead_stock_of_truncated_log.
  apply in_map_iff in Hfresh. destruct Hfresh as (e & <- & He).
  apply analyze_dead_stock_In in He. destruct He as (c & Hc & Hth & ->).
  cbn [ds_Case_No]. split; [exact Hc|].
  rewrite <- calendar_days.
  etransitivity; [exact Hth|].
  apply Z.div_le_mono; [reflexivity|].
  set (last_move := Zmax_list (map Date (rows_of String.eqb Case_No c
                                           (create_transaction_log raw_data)))).
  pose proof (Z.mul_div_le last_move ns_per_day ns_per_day_pos).
  unfold date_of. lia.
Qed.

Lemma main_flags_all_dead_stock_of_the_log_witness :
  exists daily_stock validation_results dead_stock,
    main_analysis sample_events sample_now =
      Some (daily_stock, validation_results, dead_stock) /\
    In "C1" (map ds_Case_No
               (analyze_dead_stock (create_transaction_log sample_events)
                                   sample_now default_threshold_days)) /\
    In "C1" (map ds_Case_No dead_stock).
Proof.
  assert (Hfresh : In "C1" (map ds_Case_No
               (analyze_dead_stock (create_transaction_log sample_events)
                                   sample_now default_threshold_days))).
  { vm_compute. left. reflexivity. }
  eexists _, _, _. split; [reflexivity|]. split; [exact Hfresh|].
  exact (main_flags_all_dead_stock_of_the_log sample_events sample_now _ _ _ "C1"
           eq_refl Hfresh).
Defined.

(** ** Canonical names are fixed points *)

Lemma first_fullmatch_canonical (rules : list (string * string))
  (raw_str canonical : string) :
  first_fullmatch rules raw_str = Some canonical -> In canonical (map snd rules).
Proof.
  induction rules as [|[p c] rules IH]; simpl; [discriminate|].
  destruct (re_fullmatch p raw_str).
  - intros H. injection H as <-. now left.
  - intros H. right. now apply IH.
Qed.

(** X12: [map_loc] maps each of its results to itself: a canonical name,
    UNKNOWN and a text it only stripped are all left as they are by a
    second call. *)
Theorem map_loc_is_idempotent (raw_code : option string) :
  map_loc (Some (map_loc raw_code)) = map_loc raw_code.
Proof.
  destruct raw_code as [raw|]; [|reflexivity].
  assert (Hraw : map_loc (Some raw) =
                 match first_fullmatch LOC_MAP (strip raw) with
                 | Some canonical => canonical
                 | None => strip raw
                 end) by reflexivity.
  rewrite Hraw. clear Hraw.
  destruct (first_fullmatch LOC_MAP (strip raw)) as [canonical|] eqn:E.
  - apply first_fullmatch_canonical in E.
    unfold LOC_MAP in E. simpl in E.
    repeat (destruct E as [<-|E]; [vm_compute; reflexivity|]).
    contradiction.
  - unfold map_loc. cbv zeta. now rewrite strip_idempotent, E.
Qed.

Lemma first_site_vocabulary (rules : list (string * list string))
  (name site : string) :
  first_site rules name = Some site -> In site (map fst rules).
Proof.
  induction rules as [|[s ps] rules IH]; simpl; [discriminate|].
  destruct (existsb _ ps).
  - intros H. injection H as <-. now left.
  - intros H. right. now apply IH.
Qed.

(** X13: [normalize_site_name] answers with one of AGI, DAS, MIR, SHU and
    UNK, whatever it is given, and maps each of the five to itself. *)
Theorem normalize_site_name_vocabulary (raw_name : option string) :
  In (normalize_site_name raw_name) ["AGI"; "DAS"; "MIR"; "SHU"; "UNK"] /\
  normalize_site_name (Some (normalize_site_name raw_name)) =
    normalize_site_name raw_name.
Proof.
  assert (H : In (normalize_site_name raw_name) ["AGI"; "DAS"; "MIR"; "SHU"; "UNK"]).
  { destruct raw_name as [raw|]; [|simpl; tauto].
    unfold normalize_site_name.
    destruct (first_site site_patterns (str_upper raw)) as [site|] eqn:E;
      [|simpl; tauto].
    apply first_site_vocabulary in E. simpl in E. simpl. tauto. }
  split; [exact H|].
  cbn [In] in H.
  repeat (destruct H as [<-|H]; [vm_compute; reflexivity|]).
  contradiction.
Qed.

(** ** The loader: where the events of a row come from *)

Lemma extracted_warehouse_vocabulary (col_name : string) :
  _extract_warehouse_from_column_name col_name = "UNKNOWN" \/
  In (_extract_warehouse_from_column_name col_name)
     (map fst warehouse_patterns ++ map str_upper column_site_patterns).
Proof.
  unfold _extract_warehouse_from_column_name. cbv zeta.
  destruct (existsb _ date_keywords); [now left|].
  destruct (first_site warehouse_patterns (str_lower col_name)) as [w|] eqn:E.
  - right. apply in_or_app. left. exact (first_site_vocabulary _ _ _ E).
  - destruct (find _ column_site_patterns) as [site|] eqn:F; [|now left].
    right. apply in_or_app. right. apply in_map.
    exact (proj1 (find_some _ _ F)).
Qed.

Lemma extracted_warehouse_not_a_date (col_name : string) :
  _extract_warehouse_from_column_name col_name <> "UNKNOWN" ->
  existsb (fun keyword => str_in keyword (str_lower col_name)) date_keywords = false.
Proof.
  unfold _extract_warehouse_from_column_name. cbv zeta.
  destruct (existsb _ date_keywords); [intros H; now contradiction H|reflexivity].
Qed.

Section LoaderEvents.
Variable coerce_numeric : PyVal -> Num.
Variable to_datetime : PyVal -> option Z.
Variable py_str : PyVal -> string.

Lemma row_events_origin (case_no : string) (qty : Num) (source_file : string)
  (row : string -> PyVal) (date_cols : list string) (e : Event) :
  In e (row_events to_datetime case_no qty source_file row date_cols) ->
  In (ev_Raw_Location e) date_cols /\
  notna (row (ev_Raw_Location e)) = true /\
  to_datetime (row (ev_Raw_Location e)) = Some (ev_Date e) /\
  ev_Location e = _extract_warehouse_from_column_name (ev_Raw_Location e) /\
  ev_Location e <> "UNKNOWN" /\
  ev_Case_No e = case_no /\ ev_Source_File e = source_file.
Proof.
  induction date_cols as [|c rest IH]; simpl; [tauto|].
  assert (Hrest : In e (row_events to_datetime case_no qty source_file row rest) ->
                  (c = ev_Raw_Location e \/ In (ev_Raw_Location e) rest) /\
                  notna (row (ev_Raw_Location e)) = true /\
                  to_datetime (row (ev_Raw_Location e)) = Some (ev_Date e) /\
                  ev_Location e = _extract_warehouse_from_column_name (ev_Raw_Location e) /\
                  ev_Location e <> "UNKNOWN" /\
                  ev_Case_No e = case_no /\ ev_Source_File e = source_file).
  { intros H. destruct (IH H) as (H1 & H2). split; [now right|exact H2]. }
  destruct (notna (row c)) eqn:Ena; [|exact Hrest].
  destruct (to_datetime (row c)) as [d|] eqn:Ed; [|exact Hrest].
  destruct (String.eqb _ "UNKNOWN") eqn:Eu; [exact Hrest|].
  intros [<-|H]; [|exact (Hrest H)].
  cbn [ev_Raw_Location ev_Date ev_Location ev_Case_No ev_Source_File].
  repeat split; auto.
  intros Hu. rewrite Hu in Eu. discriminate.
Qed.

(** X14: every event the loader extracts from a sheet row comes from one
    of the date columns whose cell holds a date; its location is the
    warehouse or site read off the name of that column, which is one of
    the twelve names of the two tables and never UNKNOWN, so that a column
    whose name contains a date keyword (ETD, ETA, date, ...) gives no
    event; the events of the row are in the order of their dates. *)
Theorem row_events_come_from_warehouse_columns (case_col : string)
  (qty_col : option string) (date_cols : list string) (source_file : string)
  (idx : nat) (row : string -> PyVal) :
  let events := process_row coerce_numeric to_datetime py_str case_col qty_col
                  date_cols source_file idx row in
  StronglySorted (fun a b => ev_Date a <= ev_Date b) events /\
  (List.length events <= List.length date_cols)%nat /\
  forall e, In e events ->
    In (ev_Raw_Location e) date_cols /\
    notna (row (ev_Raw_Location e)) = true /\
    to_datetime (row (ev_Raw_Location e)) = Some (ev_Date e) /\
    ev_Location e = _extract_warehouse_from_column_name (ev_Raw_Location e) /\
    In (ev_Location e)
       (map fst warehouse_patterns ++ map str_upper column_site_patterns) /\
    ev_Location e <> "UNKNOWN" /\
    existsb (fun keyword => str_in keyword (str_lower (ev_Raw_Location e)))
            date_keywords = false /\
    ev_Source_File e = source_file.
Proof.
  unfold process_row. cbv zeta.
  generalize (if notna (row case_col) then py_str (row case_col)
              else ("CASE_" ++ NilZero.string_of_uint (Nat.to_uint idx))%string).
  intros case_no.
  set (unsorted := row_events to_datetime case_no (resolve_qty coerce_numeric row qty_col)
                     source_file row date_cols).
  split; [|split].
  - eapply StronglySorted_weaken;
      [|exact (sort_values_sorted _ ev_Date_leb_total ev_Date_leb_trans unsorted)].
    intros a b H. apply Z.leb_le. exact H.
  - rewrite (Permutation_length (sort_values_Permutation ev_Date_leb unsorted)).
    unfold unsorted. clear. induction date_cols as [|c rest IH]; simpl; [lia|].
    destruct (notna (row c)); [|lia].
    destruct (to_datetime (row c)); [|lia].
    destruct (String.eqb _ _); simpl; lia.
  - intros e He. apply (proj1 (sort_values_In _ _ _)) in He.
    apply row_events_origin in He.
    destruct He as (H1 & H2 & H3 & H4 & H5 & _ & H7).
    repeat split; auto.
    + destruct (extracted_warehouse_vocabulary (ev_Raw_Location e)) as [E|E];
        rewrite <- H4 in E; [contradiction|exact E].
    + apply extracted_warehouse_not_a_date. now rewrite <- H4.
Qed.

End LoaderEvents.

Lemma row_events_come_from_warehouse_columns_witness :
  In (mkEvent "C7" (19723 * ns_per_day) (Fin 1) "DSV Indoor" "DSV Indoor" sample_file)
     (sample_process_row (Some "Q'ty") (VNum 0)) /\
  "DSV Indoor" <> "UNKNOWN".
Proof.
  assert (Hin : In (mkEvent "C7" (19723 * ns_per_day) (Fin 1) "DSV Indoor"
                            "DSV Indoor" sample_file)
                   (sample_process_row (Some "Q'ty") (VNum 0))).
  { vm_compute. left. reflexivity. }
  split; [exact Hin|].
  pose proof (proj2 (proj2 (row_events_come_from_warehouse_columns
                sample_coerce_numeric sample_to_datetime sample_py_str
                "Case No." (Some "Q'ty") ["DSV Indoor"] sample_file 0
                (sample_row (VNum 0)))) _ Hin) as H.
  exact (proj1 (proj2 (proj2 (proj2 (proj2 (proj2 H)))))).
Defined.

(** ** The validator of the monthly detail *)

Lemma location_balance_errors_None (stock_df : list MonthlyRow)
  (location : option string) :
  location_balance_errors stock_df location = None <->
  filter (fun r => cell_equals (mr_Location r) location) stock_df = [].
Proof.
  unfold location_balance_errors. cbv zeta.
  destruct (filter _ stock_df); split; intros H; try reflexivity; discriminate.
Qed.

Lemma balance_errors_None (stock_df : list MonthlyRow)
  (locations : list (option string)) :
  balance_errors stock_df locations = None <->
  exists location,
    In location locations /\ location_balance_errors stock_df location = None.
Proof.
  induction locations as [|l rest IH]; simpl.
  - split; [discriminate|intros (? & [] & _)].
  - destruct (location_balance_errors stock_df l) as [found|] eqn:E.
    + destruct (balance_errors stock_df rest) as [more|].
      * split; [discriminate|].
        intros (l' & [<-|Hin] & H); [congruence|].
        assert (Hrest : Some more = None) by (apply (proj2 IH); eauto).
        discriminate.
      * split; [|reflexivity]. intros _.
        destruct (proj1 IH eq_refl) as (l' & Hin & H). eauto.
    + split; [|reflexivity]. intros _. eauto.
Qed.

Lemma balance_errors_clear (stock_df : list MonthlyRow)
  (locations : list (option string)) :
  (forall location, In location locations ->
     location_balance_errors stock_df location = Some []) ->
  balance_errors stock_df locations = Some [].
Proof.
  induction locations as [|l rest IH]; intros H; simpl; [reflexivity|].
  rewrite (H l) by (now left). rewrite IH; [reflexivity|].
  intros; apply H; now right.
Qed.

Lemma rows_of_present_location (stock_df : list MonthlyRow) (l : string) :
  In (Some l) (map mr_Location stock_df) ->
  filter (fun r => cell_equals (mr_Location r) (Some l)) stock_df <> [].
Proof.
  rewrite in_map_iff. intros (row & Hl & Hin) E.
  assert (H : In row (filter (fun r => cell_equals (mr_Location r) (Some l)) stock_df)).
  { apply filter_In. split; [exact Hin|]. rewrite Hl. simpl. apply String.eqb_refl. }
  rewrite E in H. exact H.
Qed.

(** X15: [validate_stock_logic] answers 'No stock detail data' without the
    detail frame, and with it raises the IndexError of its balance check
    exactly when a row of the frame has no location; otherwise it returns
    its report, which counts every row of the frame as checked. *)
Theorem validate_stock_logic_fails_on_missing_location (stock_df : list MonthlyRow) :
  validate_stock_logic None = NoStockDetail /\
  (validate_stock_logic (Some stock_df) = IndexError <->
   exists row, In row stock_df /\ mr_Location row = None) /\
  ((forall row, In row stock_df -> mr_Location row <> None) ->
   exists report,
     validate_stock_logic (Some stock_df) = Checked report /\
     total_records_checked report = List.length stock_df /\
     validation_passed report = match lr_errors report with
                                | [] => true
                                | _ :: _ => false
                                end).
Proof.
  assert (Hraise : balance_errors stock_df
                     (unique option_string_eqb (map mr_Location stock_df)) = None <->
                   exists row, In row stock_df /\ mr_Location row = None).
  { rewrite balance_errors_None. split.
    - intros (location & Hin & Hnone).
      apply (proj1 (unique_In _ option_string_eqb_spec _ _)) in Hin.
      apply location_balance_errors_None in Hnone.
      destruct location as [l|].
      + now apply rows_of_present_location in Hin.
      + apply in_map_iff in Hin. destruct Hin as (row & Hl & Hrow). eauto.
    - intros (row & Hrow & Hl). exists None. split.
      + apply (proj2 (unique_In _ option_string_eqb_spec _ _)).
        rewrite <- Hl. now apply in_map.
      + apply location_balance_errors_None, filter_none.
        intros r _. now destruct (mr_Location r). }
  split; [reflexivity|]. split.
  - unfold validate_stock_logic. cbv zeta.
    destruct (balance_errors stock_df _) as [balance|] eqn:E.
    + split; [discriminate|]. intros H. apply (proj2 Hraise) in H. discriminate.
    + split; [|reflexivity]. intros _. exact (proj1 Hraise eq_refl).
  - intros Hall. unfold validate_stock_logic. cbv zeta.
    destruct (balance_errors stock_df _) as [balance|] eqn:E.
    + eexists. split; [reflexivity|]. split; reflexivity.
    + destruct (proj1 Hraise eq_refl) as (row & Hrow & Hl).
      now destruct (Hall row Hrow).
Qed.

Lemma validate_stock_logic_fails_on_missing_location_witness :
  validate_stock_logic
    (Some [mkMonthlyRow None 202402 0 0 10 (-10) 0 0 (-10)]) = IndexError.
Proof.
  apply (proj2 (proj1 (proj2 (validate_stock_logic_fails_on_missing_location
                                [mkMonthlyRow None 202402 0 0 10 (-10) 0 0 (-10)])))).
  eexists. split; [left; reflexivity|reflexivity].
Defined.

(** What the last row of the months of a location closes at. *)
Lemma month_rows_last_closing (inbound outbound : list MonthlySummary)
  (location : option string) (months : list Z) :
  forall (opening_stock : Q) (default : MonthlyRow),
  months <> [] ->
  let rows := month_rows inbound outbound location opening_stock months in
  (mr_Closing_Stock (last rows default) ==
   opening_stock + Qsum (map Inbound_Qty rows) - Qsum (map Outbound_Qty rows))%Q.
Proof.
  induction months as [|m rest IH]; intros o d Hne; [contradiction|].
  cbv zeta.
  pose (r := mkMonthlyRow location m o
               (Qsum (map ms_Qty (select_month inbound location m)))
               (Qsum (map ms_Qty (select_month outbound location m)))
               (o + Qsum (map ms_Qty (select_month inbound location m))
                  - Qsum (map ms_Qty (select_month outbound location m)))%Q
               (Qsum (map ms_SQM (select_month inbound location m)))
               (Qsum (map ms_SQM (select_month outbound location m)))
               (Qsum (map ms_Qty (select_month inbound location m))
                  - Qsum (map ms_Qty (select_month outbound location m)))%Q).
  change (month_rows inbound outbound location o (m :: rest))
    with (r :: month_rows inbound outbound location (mr_Closing_Stock r) rest).
  destruct rest as [|m' rest'].
  - cbn [month_rows last map]. unfold Qsum, r.
    cbn [fold_right mr_Closing_Stock Inbound_Qty Outbound_Qty]. ring.
  - assert (Hne' : m' :: rest' <> []) by discriminate.
    specialize (IH (mr_Closing_Stock r) d Hne'). cbv zeta in IH.
    set (rows' := month_rows inbound outbound location (mr_Closing_Stock r)
                    (m' :: rest')) in *.
    assert (Hrows' : rows' <> []) by (unfold rows'; discriminate).
    assert (Hlast : last (r :: rows') d = last rows' d).
    { destruct rows'; [contradiction|reflexivity]. }
    rewrite Hlast, IH.
    cbn [map]. unfold Qsum. cbn [fold_right].
    fold (Qsum (map Inbound_Qty rows')). fold (Qsum (map Outbound_Qty rows')).
    unfold r. cbn [mr_Closing_Stock Inbound_Qty Outbound_Qty]. ring.
Qed.

Lemma within_tolerance (x y : Q) :
  (x == y)%Q -> negb (Qle_bool (Qabs (x - y)) tolerance) = false.
Proof.
  intros E. apply negb_false_iff, Qle_bool_iff.
  assert (E0 : (x - y == 0)%Q) by (rewrite E; ring).
  rewrite E0. discriminate.
Qed.

Lemma monthly_detail_rows (df : list Movement) (detail : list MonthlyRow)
  (row : MonthlyRow) :
  monthly_stock_detail df = Some detail -> In row detail ->
  mr_Closing_Stock row =
    (mr_Opening_Stock row + Inbound_Qty row - Outbound_Qty row)%Q.
Proof.
  intros Hdetail Hrow. apply monthly_stock_detail_Some in Hdetail.
  destruct Hdetail as (all_locations & _ & ->).
  apply in_flat_map in Hrow. destruct Hrow as (location & _ & Hrow).
  unfold location_months in Hrow.
  destruct (option_string_eqb location (Some "UNKNOWN")); [contradiction|].
  now apply month_rows_In in Hrow.
Qed.

(** X16: when the monthly warehouse analysis returns its detail frame,
    each row of the frame has a location, and the quantities of the
    transactions are whole numbers that add up, in absolute value, to
    less than 2^53 (so that no sum or difference rounds), the frame
    passes [validate_stock_logic]: the report has no stock mismatch, no
    continuity error and no balance error, and negative closing stock
    gives a warning, not an error. *)
Theorem monthly_detail_passes_validation (df : list Movement)
  (detail : list MonthlyRow) :
  create_proper_monthly_warehouse_analysis df = Returns (Some detail) ->
  (forall row, In row detail -> mr_Location row <> None) ->
  exact_quantities (map mt_Qty (monthly_transactions df)) ->
  exists report,
    validate_stock_logic (Some detail) = Checked report /\
    validation_passed report = true /\
    lr_errors report = [] /\
    (lr_warnings report = [] <->
     forall row, In row detail -> (0 <= mr_Closing_Stock row)%Q).
Proof.
  intros Hdetail Hall _. apply analysis_returns_detail in Hdetail.
  assert (Hmis : flat_map stock_mismatch detail = []).
  { apply flat_map_nil. intros row Hrow. unfold stock_mismatch. cbv zeta.
    rewrite <- (monthly_detail_rows df detail row Hdetail Hrow).
    now rewrite no_continuity_error. }
  assert (Hcont : continuity_errors detail = [])
    by exact (monthly_detail_passes_continuity_check df detail Hdetail).
  assert (Hbal : balance_errors detail
                   (unique option_string_eqb (map mr_Location detail)) = Some []).
  { apply balance_errors_clear. intros location Hin.
    apply (proj1 (unique_In _ option_string_eqb_spec _ _)) in Hin.
    destruct location as [l|].
    2: { apply in_map_iff in Hin. destruct Hin as (row & Hl & Hrow).
         now destruct (Hall row Hrow). }
    pose proof (rows_of_present_location detail l Hin) as Hne.
    unfold location_balance_errors. cbv zeta.
    rewrite (filter_ext (fun r => cell_equals (mr_Location r) (Some l))
                        (fun r => option_string_eqb (mr_Location r) (Some l))) in *
      by (intros r; destruct (mr_Location r); reflexivity).
    destruct (monthly_rows_of_location df detail (Some l) Hdetail) as [E|E];
      cbv zeta in E; [|contradiction].
    rewrite E in *. unfold location_months in *.
    destruct (option_string_eqb (Some l) (Some "UNKNOWN")); [contradiction|].
    set (months := all_months (monthly_transactions df)) in *.
    assert (Hmonths : months <> []).
    { intros Em. rewrite Em in Hne. now apply Hne. }
    destruct (month_rows _ _ (Some l) 0%Q months) as [|first rest] eqn:Erows;
      [contradiction|].
    rewrite <- Erows.
    pose proof (month_rows_last_closing
                  (monthly_inbound (monthly_transactions df))
                  (monthly_outbound (monthly_transactions df))
                  (Some l) months 0%Q first Hmonths) as Hlast.
    cbv zeta in Hlast.
    rewrite within_tolerance; [reflexivity|].
    rewrite Hlast. ring. }
  unfold validate_stock_logic. cbv zeta.
  rewrite Hbal, Hmis, Hcont. cbn [map app].
  eexists. split; [reflexivity|].
  cbn [validation_passed lr_errors lr_warnings].
  split; [reflexivity|]. split; [reflexivity|].
  split.
  - intros Hw row Hrow.
    destruct (Qle_bool 0 (mr_Closing_Stock row)) eqn:Ec;
      [now apply Qle_bool_iff|].
    assert (Hin : In row (filter (fun r => negb (Qle_bool 0 (mr_Closing_Stock r)))
                                 detail)).
    { apply filter_In. split; [exact Hrow|]. now rewrite Ec. }
    destruct (filter _ detail); [contradiction|discriminate].
  - intros Hpos. rewrite filter_none; [reflexivity|].
    intros row Hrow. apply negb_false_iff, Qle_bool_iff. now apply Hpos.
Qed.

Lemma monthly_detail_passes_validation_witness :
  create_proper_monthly_warehouse_analysis sample_movements =
    Returns (Some sample_detail) /\
  exact_quantities (map mt_Qty (monthly_transactions sample_movements)) /\
  (exists row, In row sample_detail /\ (mr_Closing_Stock row < 0)%Q) /\
  exists report,
    validate_stock_logic (Some sample_detail) = Checked report /\
    validation_passed report = true /\
    lr_errors report = [].
Proof.
  assert (Hdetail : create_proper_monthly_warehouse_analysis sample_movements =
                    Returns (Some sample_detail))
    by (vm_compute; reflexivity).
  assert (Hall : forall row, In row sample_detail -> mr_Location row <> None).
  { intros row Hrow. vm_compute in Hrow.
    repeat (destruct Hrow as [<-|Hrow]; [discriminate|]). contradiction. }
  assert (Hexact : exact_quantities
                     (map mt_Qty (monthly_transactions sample_movements))).
  { split; vm_compute; reflexivity. }
  split; [exact Hdetail|]. split; [exact Hexact|]. split.
  - exists (mkMonthlyRow (Some "WAREHOUSE") 202402 0 0 10 (-10) 0 0 (-10)).
    split; [vm_compute; tauto|reflexivity].
  - destruct (monthly_detail_passes_validation sample_movements sample_detail
                Hdetail Hall Hexact) as (report & Hreport & Hpassed & Herrors & _).
    exists report. auto.
Defined.

(** ** What the monthly detail adds up *)

Lemma monthly_summary_keys (tx_df : list MonthlyTx) :
  map (fun r => (ms_Location r, ms_YearMonth r, ms_TxType r)) (monthly_summary tx_df) =
  map fst (groupby MonthKey_eqb month_key MonthKey_leb (located tx_df)).
Proof.
  unfold monthly_summary. rewrite map_map. apply map_ext.
  intros [[[l m] d] g]. reflexivity.
Qed.

Lemma filter_filter {A : Type} (p q : A -> bool) (l : list A) :
  filter p (filter q l) = filter (fun a => q a && p a) l.
Proof.
  induction l as [|x l IH]; [reflexivity|].
  simpl. destruct (q x); simpl; [destruct (p x)|]; now rewrite IH.
Qed.

(** The summed quantity of the summary rows selected for a location, a
    month and a direction is that of the transactions of the three. *)
Lemma selected_month_quantity (tx_df : list MonthlyTx) (l : string) (m : Z)
  (d : TxDirection) :
  (Qsum (map ms_Qty
           (select_month (filter (fun r => TxDirection_eqb (ms_TxType r) d)
                                 (monthly_summary tx_df)) (Some l) m)) ==
   Qsum (map (fun r => mt_Qty (snd r))
             (rows_of MonthKey_eqb month_key (l, m, d) (located tx_df))))%Q.
Proof.
  unfold select_month. rewrite filter_filter.
  rewrite (filter_ext _ (fun r => MonthKey_eqb
                                    (ms_Location r, ms_YearMonth r, ms_TxType r)
                                    (l, m, d))).
  2: { intros r. unfold MonthKey_eqb.
       destruct (TxDirection_eqb (ms_TxType r) d), (String.eqb (ms_Location r) l),
                (ms_YearMonth r =? m); reflexivity. }
  change (filter (fun r => MonthKey_eqb (ms_Location r, ms_YearMonth r, ms_TxType r)
                                        (l, m, d)) (monthly_summary tx_df))
    with (rows_of MonthKey_eqb
                  (fun r => (ms_Location r, ms_YearMonth r, ms_TxType r))
                  (l, m, d) (monthly_summary tx_df)).
  assert (Hnd : NoDup (map (fun r => (ms_Location r, ms_YearMonth r, ms_TxType r))
                           (monthly_summary tx_df))).
  { rewrite monthly_summary_keys. apply (groupby_keys_NoDup _ MonthKey_eqb_spec). }
  destruct (in_dec (fun a b => sumbool_of_bool_eq MonthKey_eqb MonthKey_eqb_spec a b)
                   (l, m, d) (map month_key (located tx_df))) as [Hin|Hnotin].
  - set (g := rows_of MonthKey_eqb month_key (l, m, d) (located tx_df)).
    set (r := mkMonthlySummary l m d
                (Qsum (map (fun r => mt_Qty (snd r)) g))
                (Qsum (map (fun r => mt_SQM (snd r)) g))
                (List.length (unique String.eqb (map (fun r => mt_Case_No (snd r)) g)))).
    assert (Hr : In r (monthly_summary tx_df)).
    { unfold monthly_summary. apply in_map_iff. exists ((l, m, d), g).
      split; [reflexivity|]. apply (groupby_In _ MonthKey_eqb_spec). auto. }
    pose proof (rows_of_single _ MonthKey_eqb_spec
                  (fun r => (ms_Location r, ms_YearMonth r, ms_TxType r))
                  _ _ Hnd Hr) as E.
    cbn [r ms_Location ms_YearMonth ms_TxType] in E. rewrite E.
    unfold r. cbn [map ms_Qty]. unfold Qsum at 1. cbn [fold_right]. ring.
  - rewrite (rows_of_absent _ MonthKey_eqb_spec _ _ _ Hnotin).
    rewrite (rows_of_absent _ MonthKey_eqb_spec); [reflexivity|].
    rewrite monthly_summary_keys. intros H. apply Hnotin.
    apply in_map_iff in H. destruct H as ([k g] & Hk & Hg). cbn [fst] in Hk. subst k.
    now apply (groupby_In _ MonthKey_eqb_spec) in Hg.
Qed.

Lemma located_quantities (tx_df : list MonthlyTx) (l : string) (m : Z)
  (d : TxDirection) :
  map (fun r => mt_Qty (snd r))
      (rows_of MonthKey_eqb month_key (l, m, d) (located tx_df)) =
  map mt_Qty
      (filter (fun t => option_string_eqb (mt_Location t) (Some l) &&
                        (mt_YearMonth t =? m) && TxDirection_eqb (mt_TxType t) d)
              tx_df).
Proof.
  unfold rows_of, located.
  induction tx_df as [|t tx_df IH]; [reflexivity|].
  cbn [flat_map filter]. rewrite filter_app, map_app, IH.
  destruct (mt_Location t) as [l'|]; cbn [filter app option_string_eqb andb map].
  - unfold month_key, MonthKey_eqb. cbn [fst snd].
    destruct (String.eqb l' l && (mt_YearMonth t =? m) &&
              TxDirection_eqb (mt_TxType t) d); reflexivity.
  - reflexivity.
Qed.

Lemma inbound_quantities (df : list Movement) (l : string) (m : Z) :
  map mt_Qty
      (filter (fun t => option_string_eqb (mt_Location t) (Some l) &&
                        (mt_YearMonth t =? m) && TxDirection_eqb (mt_TxType t) IN)
              (monthly_transactions df)) =
  map mv_Qty
      (filter (fun row => option_string_eqb (mv_Loc_To row) (Some l) &&
                          (year_month (mv_Date row) =? m)) df).
Proof.
  unfold monthly_transactions.
  induction df as [|row df IH]; [reflexivity|].
  cbn [flat_map filter]. rewrite filter_app, map_app, IH.
  unfold normalize_movement. rewrite filter_app, map_app.
  assert (Hout : map mt_Qty
            (filter (fun t => option_string_eqb (mt_Location t) (Some l) &&
                              (mt_YearMonth t =? m) && TxDirection_eqb (mt_TxType t) IN)
               (if is_some (mv_Site row) && String.eqb (mv_TxType row) "OUT"
                then [mkMonthlyTx (mv_Case_No row) (mv_Date row)
                                  (year_month (mv_Date row)) (mv_Loc_From row) OUT
                                  (mv_Qty row) (mv_SQM row)]
                else [])) = []).
  { destruct (is_some (mv_Site row) && String.eqb (mv_TxType row) "OUT");
      [|reflexivity].
    cbn [filter mt_TxType TxDirection_eqb]. rewrite andb_false_r. reflexivity. }
  rewrite Hout, app_nil_r.
  destruct (mv_Loc_To row) as [loc_to|];
    cbn [filter mt_Location mt_YearMonth mt_TxType TxDirection_eqb option_string_eqb
         andb map app].
  - rewrite andb_true_r.
    destruct (String.eqb loc_to l && (year_month (mv_Date row) =? m)); reflexivity.
  - reflexivity.
Qed.

Lemma outbound_quantities (df : list Movement) (l : string) (m : Z) :
  map mt_Qty
      (filter (fun t => option_string_eqb (mt_Location t) (Some l) &&
                        (mt_YearMonth t =? m) && TxDirection_eqb (mt_TxType t) OUT)
              (monthly_transactions df)) =
  map mv_Qty
      (filter (fun row => is_some (mv_Site row) && String.eqb (mv_TxType row) "OUT" &&
                          option_string_eqb (mv_Loc_From row) (Some l) &&
                          (year_month (mv_Date row) =? m)) df).
Proof.
  unfold monthly_transactions.
  induction df as [|row df IH]; [reflexivity|].
  cbn [flat_map filter]. rewrite filter_app, map_app, IH.
  unfold normalize_movement. rewrite filter_app, map_app.
  assert (Hin : map mt_Qty
            (filter (fun t => option_string_eqb (mt_Location t) (Some l) &&
                              (mt_YearMonth t =? m) && TxDirection_eqb (mt_TxType t) OUT)
               (match mv_Loc_To row with
                | Some loc_to =>
                    [mkMonthlyTx (mv_Case_No row) (mv_Date row)
                                 (year_month (mv_Date row)) (Some loc_to) IN
                                 (mv_Qty row) (mv_SQM row)]
                | None => []
                end)) = []).
  { destruct (mv_Loc_To row); [|reflexivity].
    cbn [filter mt_TxType TxDirection_eqb]. rewrite andb_false_r. reflexivity. }
  rewrite Hin. cbn [app].
  destruct (is_some (mv_Site row) && String.eqb (mv_TxType row) "OUT");
    cbn [filter mt_Location mt_YearMonth mt_TxType TxDirection_eqb andb map app].
  - rewrite andb_true_r.
    destruct (option_string_eqb (mv_Loc_From row) (Some l) &&
              (year_month (mv_Date row) =? m)); reflexivity.
  - reflexivity.
Qed.

(** X17: when the monthly analysis returns its detail frame and the
    quantities of the movements are whole numbers that add up, in
    absolute value, to less than 2^53 (so that no sum wraps or rounds),
    the inbound quantity of a location and a month in the frame is the
    sum of the quantities of the movements of that month whose
    destination is the location, and the outbound quantity is the sum of
    the quantities of the movements of that month of type OUT that name a
    site and whose origin is the location. *)
Theorem monthly_detail_sums_the_movements (df : list Movement)
  (detail : list MonthlyRow) (row : MonthlyRow) (location : string) :
  create_proper_monthly_warehouse_analysis df = Returns (Some detail) ->
  exact_quantities (map mv_Qty df) ->
  In row detail ->
  mr_Location row = Some location ->
  (Inbound_Qty row ==
   Qsum (map mv_Qty
           (filter (fun mv => option_string_eqb (mv_Loc_To mv) (Some location) &&
                              (year_month (mv_Date mv) =? mr_YearMonth row)) df)))%Q /\
  (Outbound_Qty row ==
   Qsum (map mv_Qty
           (filter (fun mv => is_some (mv_Site mv) && String.eqb (mv_TxType mv) "OUT" &&
                              option_string_eqb (mv_Loc_From mv) (Some location) &&
                              (year_month (mv_Date mv) =? mr_YearMonth row)) df)))%Q.
Proof.
  intros Hdetail _ Hrow Hloc.
  apply analysis_returns_detail, monthly_stock_detail_Some in Hdetail.
  destruct Hdetail as (all_locations & _ & ->).
  apply in_flat_map in Hrow. destruct Hrow as (loc & _ & Hrow).
  unfold location_months in Hrow.
  destruct (option_string_eqb loc (Some "UNKNOWN")); [contradiction|].
  apply month_rows_In in Hrow.
  destruct Hrow as (Hl & _ & Hin & Hout & _).
  rewrite Hloc in Hl. subst loc.
  rewrite Hin, Hout. unfold monthly_inbound, monthly_outbound.
  rewrite !selected_month_quantity, !located_quantities.
  now rewrite inbound_quantities, outbound_quantities.
Qed.

Lemma monthly_detail_sums_the_movements_witness :
  create_proper_monthly_warehouse_analysis sample_movements =
    Returns (Some sample_detail) /\
  exact_quantities (map mv_Qty sample_movements) /\
  In sample_idle_month_row sample_detail /\
  (Inbound_Qty sample_idle_month_row ==
   Qsum (map mv_Qty
           (filter (fun mv => option_string_eqb (mv_Loc_To mv) (Some "DSV Indoor") &&
                              (year_month (mv_Date mv) =? 202402)) sample_movements)))%Q.
Proof.
  assert (Hdetail : create_proper_monthly_warehouse_analysis sample_movements =
                    Returns (Some sample_detail))
    by (vm_compute; reflexivity).
  assert (Hexact : exact_quantities (map mv_Qty sample_movements)).
  { split; vm_compute; reflexivity. }
  assert (Hrow : In sample_idle_month_row sample_detail)
    by (vm_compute; right; left; reflexivity).
  split; [exact Hdetail|]. split; [exact Hexact|]. split; [exact Hrow|].
  exact (proj1 (monthly_detail_sums_the_movements sample_movements sample_detail
                  sample_idle_month_row "DSV Indoor" Hdetail Hexact Hrow eq_refl)).
Defined.

(** ** The column finder *)

Lemma dict_set_In (d : list (string * string)) (k v k' v' : string) :
  In (k', v') (dict_set d k v) -> (k', v') = (k, v) \/ In (k', v') d.
Proof.
  induction d as [|[a b] d IH]; simpl.
  - intros [H|[]]. left. now symmetry.
  - destruct (String.eqb a k) eqn:E.
    + apply String.eqb_eq in E. subst a.
      intros [H|H]; [left; now symmetry|right; now right].
    + intros [H|H]; [right; now left|].
      destruct (IH H); [now left|right; now right].
Qed.

Lemma dict_set_keys (d : list (string * string)) (k v k' : string) :
  In k' (map fst (dict_set d k v)) <-> k' = k \/ In k' (map fst d).
Proof.
  induction d as [|[a b] d IH]; simpl.
  - split; [intros [H|[]]; now left|intros [H|[]]; now left].
  - destruct (String.eqb a k) eqn:E; simpl.
    + apply String.eqb_eq in E. subst a. intuition congruence.
    + rewrite IH. intuition congruence.
Qed.

Lemma df_cols_lower_items (columns : list string) (k v : string) :
  In (k, v) (df_cols_lower columns) -> In v columns /\ k = str_lower v.
Proof.
  unfold df_cols_lower.
  assert (H : forall d,
            In (k, v) (fold_left (fun d col => dict_set d (str_lower col) col) columns d) ->
            In (k, v) d \/ (In v columns /\ k = str_lower v)).
  { induction columns as [|c columns IH]; intros d; simpl; [auto|].
    intros Hin. destruct (IH _ Hin) as [Hd|[Hc Hk]]; [|tauto].
    apply dict_set_In in Hd. destruct Hd as [E|Hd]; [|auto].
    injection E as -> ->. right. auto. }
  intros Hin. destruct (H [] Hin) as [[]|Hv]. exact Hv.
Qed.

Lemma df_cols_lower_keys (columns : list string) (k : string) :
  In k (map fst (df_cols_lower columns)) <-> In k (map str_lower columns).
Proof.
  unfold df_cols_lower.
  assert (H : forall d,
            In k (map fst (fold_left (fun d col => dict_set d (str_lower col) col)
                                     columns d)) <->
            In k (map fst d) \/ In k (map str_lower columns)).
  { induction columns as [|c columns IH]; intros d; simpl; [tauto|].
    rewrite IH, dict_set_keys. intuition congruence. }
  rewrite H. simpl. tauto.
Qed.

(** X18: [find_column] answers with a column whose lower-cased name
    contains the lower-cased text of one of the patterns, no earlier
    pattern being contained in the name of any column; it answers with
    nothing exactly when no pattern is contained in any column name. *)
Theorem find_column_first_pattern_wins (columns patterns : list string) :
  (forall col, find_column columns patterns = Some col ->
     In col columns /\
     exists before pattern after,
       patterns = (before ++ pattern :: after)%list /\
       str_in (str_lower pattern) (str_lower col) = true /\
       forall earlier other, In earlier before -> In other columns ->
         str_in (str_lower earlier) (str_lower other) = false) /\
  (find_column columns patterns = None <->
   forall pattern col, In pattern patterns -> In col columns ->
     str_in (str_lower pattern) (str_lower col) = false).
Proof.
  assert (Hnone : forall p,
            find (fun item => str_in (str_lower p) (fst item)) (df_cols_lower columns)
              = None <->
            forall col, In col columns -> str_in (str_lower p) (str_lower col) = false).
  { intros p. split.
    - intros Hf col Hcol.
      assert (Hk : In (str_lower col) (map fst (df_cols_lower columns)))
        by (apply df_cols_lower_keys; now apply in_map).
      apply in_map_iff in Hk. destruct Hk as (item & Hitem & Hin).
      rewrite <- Hitem. exact (find_none _ _ Hf item Hin).
    - intros Hall.
      destruct (find _ (df_cols_lower columns)) as [[k v]|] eqn:Hf; [|reflexivity].
      apply find_some in Hf. destruct Hf as [Hin Hm]. cbn [fst] in Hm.
      apply df_cols_lower_items in Hin. destruct Hin as [Hv ->].
      rewrite (Hall v Hv) in Hm. discriminate. }
  induction patterns as [|p rest IH].
  - split; [discriminate|]. split; [contradiction|reflexivity].
  - cbn [find_column]. cbv zeta.
    destruct (find _ (df_cols_lower columns)) as [[k v]|] eqn:Hf.
    + split.
      * intros col E. injection E as <-.
        apply find_some in Hf. destruct Hf as [Hin Hm]. cbn [fst] in Hm.
        apply df_cols_lower_items in Hin. destruct Hin as [Hv ->].
        split; [exact Hv|]. exists [], p, rest.
        split; [reflexivity|]. split; [exact Hm|]. contradiction.
      * split; [discriminate|]. intros Hall. exfalso.
        apply find_some in Hf. destruct Hf as [Hin Hm]. cbn [fst] in Hm.
        apply df_cols_lower_items in Hin. destruct Hin as [Hv ->].
        rewrite (Hall p v) in Hm; [discriminate|now left|exact Hv].
    + pose proof (proj1 (Hnone p) Hf) as Hp.
      destruct IH as [IHsome IHnone]. split.
      * intros col E. destruct (IHsome col E) as (Hcol & before & q & after & -> & Hq & Hb).
        split; [exact Hcol|]. exists (p :: before), q, after.
        split; [reflexivity|]. split; [exact Hq|].
        intros earlier other [<-|He] Ho; [now apply Hp|now apply Hb].
      * rewrite IHnone. split.
        -- intros H q col [<-|Hq] Hcol; [now apply Hp|now apply H].
        -- intros H q col Hq Hcol. apply H; [now right|exact Hcol].
Qed.

Lemma find_column_first_pattern_wins_witness :
  find_column ["Qty"; "Case No."; "QTY"] ["box"; "qty"] = Some "QTY" /\
  In "QTY" ["Qty"; "Case No."; "QTY"].
Proof.
  assert (E : find_column ["Qty"; "Case No."; "QTY"] ["box"; "qty"] = Some "QTY")
    by reflexivity.
  split; [exact E|].
  exact (proj1 (proj1 (find_column_first_pattern_wins
                         ["Qty"; "Case No."; "QTY"] ["box"; "qty"]) "QTY" E)).
Defined.

(** ** The monthly summary against the daily stock *)

Lemma last_of_map {A B : Type} (f : A -> B) (rows : list A) (a : A) (b : B) :
  rows <> [] -> last (map f rows) b = f (last rows a).
Proof.
  induction rows as [|x rows IH]; [contradiction|]. intros _.
  destruct rows as [|y rows]; [reflexivity|].
  change (last (map f (x :: y :: rows)) b) with (last (map f (y :: rows)) b).
  change (last (x :: y :: rows) a) with (last (y :: rows) a).
  apply IH. discriminate.
Qed.

Lemma last_is_a_row {A : Type} (rows : list A) (a : A) :
  rows <> [] -> In (last rows a) rows.
Proof.
  induction rows as [|x rows IH]; [contradiction|]. intros _.
  destruct rows as [|y rows]; [now left|].
  right. change (last (x :: y :: rows) a) with (last (y :: rows) a).
  apply IH. discriminate.
Qed.

Lemma last_of_sorted {A : Type} (R : A -> A -> Prop) (rows : list A) (a x : A) :
  StronglySorted R rows -> In x rows -> x = last rows a \/ R x (last rows a).
Proof.
  induction 1 as [|y rows Hs IH Hall]; [contradiction|].
  destruct rows as [|z rows].
  - intros [<-|[]]. now left.
  - change (last (y :: z :: rows) a) with (last (z :: rows) a).
    intros [<-|Hx]; [|now apply IH].
    right. rewrite Forall_forall in Hall. apply Hall.
    apply last_is_a_row. discriminate.
Qed.

Lemma sorted_selection {A : Type} (R : A -> A -> Prop) (keep : A -> bool)
  (rows : list A) :
  StronglySorted R rows -> StronglySorted R (filter keep rows).
Proof.
  induction 1 as [|y rows Hs IH Hall]; simpl; [constructor|].
  destruct (keep y); [|exact IH].
  constructor; [exact IH|].
  rewrite Forall_forall in *. intros z Hz. apply filter_In in Hz. now apply Hall.
Qed.

Lemma monthly_pivot_rows (tx_df : list Tx) (p : PivotRow) :
  In p (monthly_pivot tx_df) ->
  exists t, In t tx_df /\ Location t = pv_Location p /\
            year_month (Date t) = pv_Date p.
Proof.
  unfold monthly_pivot. cbv zeta. intros Hp. apply in_map_iff in Hp.
  destruct Hp as (idx & <- & Hidx). cbn [pv_Location pv_Date].
  apply (proj1 (sort_values_In _ _ _)) in Hidx.
  apply (proj1 (unique_In _ LocDate_eqb_spec _ _)) in Hidx.
  unfold monthly_tx in Hidx. rewrite map_map in Hidx. cbn [fst] in Hidx.
  apply in_map_iff in Hidx. destruct Hidx as ([k g] & <- & Hg). cbn [fst].
  apply (groupby_In _ SummaryKey_eqb_spec) in Hg. destruct Hg as [Hk _].
  apply in_map_iff in Hk. destruct Hk as (t & <- & Ht).
  exists t. split; [exact Ht|]. split; reflexivity.
Qed.

Lemma year_month_of_day (t : Z) : day_year_month (date_of t) = year_month t.
Proof. reflexivity. Qed.

(** The daily rows of a location and a month, in the order of the frame,
    are in the order of their dates. *)
Lemma month_rows_of_daily_stock (tx_df : list Tx) (location : string) (ym : Z) :
  let rows := rows_of LocDate_eqb closing_key (location, ym)
                      (calculate_daily_stock tx_df) in
  StronglySorted (fun a b => sr_Date a < sr_Date b) rows /\
  forall d, In d rows <->
            In d (calculate_daily_stock tx_df) /\ sr_Location d = location /\
            day_year_month (sr_Date d) = ym.
Proof.
  cbv zeta. split.
  - unfold rows_of.
    rewrite (filter_ext _ (fun r => String.eqb (sr_Location r) location &&
                                    (day_year_month (sr_Date r) =? ym)))
      by reflexivity.
    rewrite <- filter_filter. apply sorted_selection.
    destruct (rows_of_location tx_df location) as [E|E]; cbv zeta in E; rewrite E;
      [apply location_stock_sorted|constructor].
  - intros d. unfold rows_of. rewrite filter_In.
    unfold LocDate_eqb, closing_key. cbn [fst snd].
    rewrite andb_true_iff, String.eqb_eq, Z.eqb_eq. tauto.
Qed.

(** X19: a row of the monthly summary stands for a location and a month
    in which the location has a transaction; its closing stock is 0 for
    the locations UNKNOWN and UNK, which the daily stock leaves out, and
    for any other location the closing stock of that month's last day in
    the daily stock. *)
Theorem monthly_summary_closes_at_month_end (tx_df : list Tx)
  (r : MonthlySummaryRow) :
  In r (create_monthly_summary tx_df (calculate_daily_stock tx_df)) ->
  (exists t, In t tx_df /\ Location t = msr_Location r /\
             year_month (Date t) = msr_YearMonth r) /\
  (excluded_location (msr_Location r) = true -> msr_Closing_Stock r = 0%Q) /\
  (excluded_location (msr_Location r) = false ->
   exists d, In d (calculate_daily_stock tx_df) /\
             sr_Location d = msr_Location r /\
             day_year_month (sr_Date d) = msr_YearMonth r /\
             msr_Closing_Stock r = Closing_Stock d /\
             forall d', In d' (calculate_daily_stock tx_df) ->
                        sr_Location d' = msr_Location r ->
                        day_year_month (sr_Date d') = msr_YearMonth r ->
                        sr_Date d' <= sr_Date d).
Proof.
  intros Hr.
  set (daily_stock := calculate_daily_stock tx_df) in *.
  assert (Hp : exists p, In p (monthly_pivot tx_df) /\
                         (r = with_closing p 0%Q /\ daily_stock = [] \/
                          In r (merge_closing (monthly_closing daily_stock) p))).
  { unfold create_monthly_summary in Hr. destruct tx_df as [|t0 tx0]; [contradiction|].
    cbv zeta in Hr. destruct daily_stock as [|d0 ds0] eqn:Ed.
    - apply in_map_iff in Hr. destruct Hr as (p & <- & Hp). eauto.
    - apply in_flat_map in Hr. destruct Hr as (p & Hp & Hr). eauto. }
  destruct Hp as (p & Hp & Hr').
  destruct (monthly_pivot_rows tx_df p Hp) as (t & Ht & Hloc & Hym).
  set (location := pv_Location p) in *. set (ym := pv_Date p) in *.
  destruct (month_rows_of_daily_stock tx_df location ym) as [Hsorted Hrows].
  cbv zeta in Hsorted, Hrows. fold daily_stock in Hsorted, Hrows.
  set (rows := rows_of LocDate_eqb closing_key (location, ym) daily_stock) in *.
  assert (Hpresent : excluded_location location = false -> rows <> []).
  { intros Hex E.
    destruct (proj2 (daily_stock_rows_iff_activity tx_df location (date_of (Date t))))
      as (d & Hd & Hdl & Hdd); [split; [exact Hex|eauto]|].
    assert (Hin : In d rows).
    { apply Hrows. fold daily_stock in Hd. split; [exact Hd|]. split; [exact Hdl|].
      rewrite Hdd. exact Hym. }
    rewrite E in Hin. exact Hin. }
  assert (Habsent : excluded_location location = true -> rows = []).
  { intros Hex. destruct rows as [|d rest]; [reflexivity|].
    destruct (proj1 (Hrows d) (or_introl eq_refl)) as (Hd & Hdl & _).
    unfold daily_stock in Hd.
    apply calculate_daily_stock_In, location_stock_In in Hd.
    destruct Hd as [Hd _]. rewrite Hdl in Hd. congruence. }
  assert (Hclosing :
    (rows = [] /\ r = with_closing p 0%Q) \/
    (rows <> [] /\ r = with_closing p (last (map Closing_Stock rows) 0%Q))).
  { destruct Hr' as [[-> Hempty]|Hr'].
    - left. split; [|reflexivity]. unfold rows. now rewrite Hempty.
    - unfold merge_closing in Hr'.
      change (filter (fun c => LocDate_eqb (fst c) (pv_Location p, pv_Date p))
                     (monthly_closing daily_stock))
        with (rows_of LocDate_eqb fst (location, ym) (monthly_closing daily_stock))
        in Hr'.
      assert (Hnd : NoDup (map fst (monthly_closing daily_stock))).
      { unfold monthly_closing. rewrite map_map. cbn [fst].
        apply (groupby_keys_NoDup _ LocDate_eqb_spec). }
      destruct (in_dec (fun a b => sumbool_of_bool_eq LocDate_eqb LocDate_eqb_spec a b)
                       (location, ym) (map closing_key daily_stock)) as [Hin|Hnotin].
      + right.
        assert (Hentry : In ((location, ym), last (map Closing_Stock rows) 0%Q)
                            (monthly_closing daily_stock)).
        { unfold monthly_closing. apply in_map_iff.
          exists ((location, ym), rows). split; [reflexivity|].
          apply (groupby_In _ LocDate_eqb_spec). auto. }
        pose proof (rows_of_single _ LocDate_eqb_spec fst _ _ Hnd Hentry) as E.
        cbn [fst] in E. rewrite E in Hr'. cbn [map snd] in Hr'.
        destruct Hr' as [<-|[]].
        split; [|reflexivity].
        now apply (rows_of_nonempty _ LocDate_eqb_spec closing_key).
      + left.
        rewrite (rows_of_absent _ LocDate_eqb_spec fst) in Hr'.
        * destruct Hr' as [<-|[]]. split; [|reflexivity].
          now apply (rows_of_absent _ LocDate_eqb_spec closing_key).
        * unfold monthly_closing. rewrite map_map. cbn [fst]. intros H.
          apply Hnotin. apply in_map_iff in H. destruct H as ([k g] & Hk & Hg).
          cbn [fst] in Hk. subst k.
          exact (proj1 (proj1 (groupby_In _ LocDate_eqb_spec _ _ _ _ _) Hg)). }
  assert (Hrl : msr_Location r = location /\ msr_YearMonth r = ym).
  { destruct Hclosing as [[_ ->]|[_ ->]]; split; reflexivity. }
  destruct Hrl as [Hrl Hrm]. rewrite Hrl, Hrm.
  split; [exists t; auto|]. split.
  - intros Hex. destruct Hclosing as [[_ ->]|[Hne _]]; [reflexivity|].
    now destruct (Hne (Habsent Hex)).
  - intros Hex. destruct Hclosing as [[E _]|[Hne ->]];
      [now destruct (Hpresent Hex E)|].
    pose (d0 := mkStockRecord location 0 0 0 0 0 0 0 0).
    set (d := last rows d0).
    assert (Hd : In d rows) by (now apply last_is_a_row).
    exists d. apply Hrows in Hd. destruct Hd as (Hd & Hdl & Hdm).
    split; [exact Hd|]. split; [exact Hdl|]. split; [exact Hdm|]. split.
    + cbn [with_closing msr_Closing_Stock]. now apply last_of_map.
    + intros d' Hd' Hl' Hm'.
      assert (Hin' : In d' rows) by (apply Hrows; auto).
      destruct (last_of_sorted _ rows d0 d' Hsorted Hin') as [->|Hlt];
        fold d; [lia|]. fold d in Hlt. lia.
Qed.

Lemma monthly_summary_closes_at_month_end_witness :
  In (mkMonthlySummaryRow "DSV Indoor" 202401 10 0 10 0)
     (create_monthly_summary sample_log (calculate_daily_stock sample_log)) /\
  exists d, In d (calculate_daily_stock sample_log) /\
            sr_Location d = "DSV Indoor" /\
            day_year_month (sr_Date d) = 202401 /\
            0%Q = Closing_Stock d.
Proof.
  assert (Hin : In (mkMonthlySummaryRow "DSV Indoor" 202401 10 0 10 0)
                   (create_monthly_summary sample_log (calculate_daily_stock sample_log))).
  { vm_compute. left. reflexivity. }
  split; [exact Hin|].
  destruct (proj2 (proj2 (monthly_summary_closes_at_month_end sample_log _ Hin)) eq_refl)
    as (d & Hd & Hl & Hm & Hc & _).
  exists d. exact (conj Hd (conj Hl (conj Hm Hc))).
Defined.

Lemma monthly_tx_truncated (tx_df : list Tx) :
  monthly_tx (dates_truncated tx_df) = monthly_tx tx_df.
Proof.
  unfold monthly_tx, dates_truncated.
  assert (Hkey : forall t,
            month_summary_key (set_Date t (date_of (Date t) * ns_per_day)) =
            month_summary_key t).
  { intros t. unfold month_summary_key, set_Date, year_month. cbn.
    now rewrite date_of_midnight. }
  rewrite (groupby_map_invariant _ _ _ _ _ Hkey).
  rewrite map_map. apply map_ext. intros g. cbn [fst snd].
  now rewrite map_map.
Qed.

(** X22: [main] hands [create_monthly_summary] the log whose dates
    [calculate_daily_stock] has overwritten with their days; the monthly
    summary is the same as for the log before the overwrite. *)
Theorem monthly_summary_unchanged_by_the_overwrite (tx_df : list Tx)
  (daily_stock : list StockRecord) :
  create_monthly_summary (dates_truncated tx_df) daily_stock =
  create_monthly_summary tx_df daily_stock.
Proof.
  unfold create_monthly_summary, monthly_pivot.
  rewrite monthly_tx_truncated. now destruct tx_df.
Qed.

(** ** From the loader to the engine *)

Lemma existsb_eqb_In (name : string) (names : list string) :
  existsb (String.eqb name) names = true <-> In name names.
Proof.
  rewrite existsb_exists. split.
  - intros (x & Hx & E). apply String.eqb_eq in E. now subst x.
  - intros H. exists name. split; [exact H|apply String.eqb_refl].
Qed.

(** The names the loader gives to columns, against the site table of the
    engine: the four sites are sites, the eight warehouses are not. *)
Lemma loader_names_classified (location : string) :
  In location (map fst warehouse_patterns ++ map str_upper column_site_patterns) ->
  negb (String.eqb (normalize_site_name (Some location)) "UNK") =
    existsb (String.eqb location) (map str_upper column_site_patterns) /\
  existsb (String.eqb location) (map fst warehouse_patterns) =
    negb (existsb (String.eqb location) (map str_upper column_site_patterns)) /\
  normalize_site_name (Some location) =
    (if existsb (String.eqb location) (map str_upper column_site_patterns)
     then location else "UNK").
Proof.
  intros H. simpl in H.
  repeat (destruct H as [<-|H]; [vm_compute; repeat split; reflexivity|]).
  contradiction.
Qed.

Section LoadedEvents.
Variable coerce_numeric : PyVal -> Num.
Variable to_datetime : PyVal -> option Z.
Variable py_str : PyVal -> string.

(** X20: for an event that the loader extracted from a sheet row, the
    exit that the transaction engine writes is a FINAL_OUT exactly when
    the event is at one of the four sites AGI, DAS, MIR and SHU, and a
    TRANSFER_OUT exactly when it is at one of the eight warehouses; the
    site of the exit is that site, and UNK for a warehouse. *)
Theorem loaded_events_exit_kind (case_col : string) (qty_col : option string)
  (date_cols : list string) (source_file : string) (idx : nat)
  (row : string -> PyVal) (e : Event) (case_no prev_location : string) :
  In e (process_row coerce_numeric to_datetime py_str case_col qty_col
          date_cols source_file idx row) ->
  let t := tx_out case_no prev_location e in
  (TxType_Refined t = FINAL_OUT <->
   In (ev_Location e) (map str_upper column_site_patterns)) /\
  (TxType_Refined t = TRANSFER_OUT <->
   In (ev_Location e) (map fst warehouse_patterns)) /\
  (In (ev_Location e) (map str_upper column_site_patterns) -> Site t = ev_Location e) /\
  (In (ev_Location e) (map fst warehouse_patterns) -> Site t = "UNK").
Proof.
  intros He. unfold process_row in He.
  apply (proj1 (sort_values_In _ _ _)) in He.
  apply (row_events_origin coerce_numeric to_datetime py_str) in He.
  destruct He as (_ & _ & _ & Hloc & Hknown & _).
  assert (Hname : In (ev_Location e)
                     (map fst warehouse_patterns ++ map str_upper column_site_patterns)).
  { destruct (extracted_warehouse_vocabulary (ev_Raw_Location e)) as [E|E];
      rewrite <- Hloc in E; [contradiction|exact E]. }
  destruct (loader_names_classified _ Hname) as (Hsite & Hwh & Hnorm).
  cbv zeta. unfold tx_out. cbn [TxType_Refined Site].
  rewrite Hsite, Hnorm.
  rewrite <- !existsb_eqb_In, Hwh.
  destruct (existsb (String.eqb (ev_Location e)) (map str_upper column_site_patterns));
    cbn [negb]; repeat split; intros; try reflexivity; try congruence;
    try discriminate.
Qed.

End LoadedEvents.

Lemma loaded_events_exit_kind_witness :
  In (mkEvent "C7" (19723 * ns_per_day) (Fin 1) "DSV Indoor" "DSV Indoor" sample_file)
     (sample_process_row (Some "Q'ty") (VNum 0)) /\
  (In "DSV Indoor" (map fst warehouse_patterns) -> "UNK" = "UNK").
Proof.
  assert (Hin : In (mkEvent "C7" (19723 * ns_per_day) (Fin 1) "DSV Indoor"
                            "DSV Indoor" sample_file)
                   (sample_process_row (Some "Q'ty") (VNum 0))).
  { vm_compute. left. reflexivity. }
  split; [exact Hin|].
  exact (proj2 (proj2 (proj2 (loaded_events_exit_kind
                 sample_coerce_numeric sample_to_datetime sample_py_str
                 "Case No." (Some "Q'ty") ["DSV Indoor"] sample_file 0
                 (sample_row (VNum 0)) _ "C7" "SOURCE" Hin)))).
Defined.

(** ** Where the dead stock is reported to be *)

Lemma drop_duplicates_distinct {A K : Type} (keqb : K -> K -> bool)
  (keqb_spec : forall a b, keqb a b = true <-> a = b) (key : A -> K) (l : list A) :
  NoDup (map key l) -> drop_duplicates keqb key l = l.
Proof.
  induction l as [|x l IH]; [reflexivity|].
  cbn [map drop_duplicates]. intros Hnd.
  inversion Hnd as [|? ? Hnotin Hnd']; subst.
  rewrite filter_all.
  - f_equal. now apply IH.
  - intros y Hy. apply drop_duplicates_In in Hy.
    apply negb_true_iff. destruct (keqb (key y) (key x)) eqn:E; [|reflexivity].
    apply keqb_spec in E. exfalso. apply Hnotin. rewrite <- E. now apply in_map.
Qed.

Lemma case_transactions_ids (case_no : string) (group : list Event)
  (prev : option string) :
  NoDup (map (fun e => ev_Date e / ns_per_sec) group) ->
  NoDup (map Tx_ID (case_transactions case_no prev group)).
Proof.
  revert prev. induction group as [|row rest IH]; intros prev Hnd; [constructor|].
  cbn [map] in Hnd. inversion Hnd as [|? ? Hnotin Hnd']; subst.
  assert (Hfresh : forall d,
            ~ In (case_no, ev_Date row / ns_per_sec, d)
                 (map Tx_ID (case_transactions case_no (Some (ev_Location row)) rest))).
  { intros d Hin. apply in_map_iff in Hin. destruct Hin as (t & Hid & Ht).
    apply case_transactions_In in Ht. destruct Ht as (r & p & Hr & Ht).
    apply Hnotin. apply in_map_iff. exists r. split; [|exact Hr].
    destruct Ht as [-> | ->]; cbn in Hid; unfold make_Tx_ID in Hid;
      now injection Hid as Hsec. }
  cbn [case_transactions]. rewrite map_app.
  specialize (IH (Some (ev_Location row)) Hnd').
  destruct prev as [p|]; cbn [map app Tx_ID tx_in tx_out]; unfold make_Tx_ID.
  - constructor.
    + intros [E|Hin]; [discriminate|]. exact (Hfresh IN Hin).
    + constructor; [exact (Hfresh OUT)|exact IH].
  - constructor; [exact (Hfresh IN)|exact IH].
Qed.

Lemma last_after {A : Type} (front back : list A) (d : A) :
  back <> [] -> last (front ++ back)%list d = last back d.
Proof.
  intros Hne. induction front as [|x front IH]; [reflexivity|].
  cbn [app]. destruct (front ++ back)%list as [|y rest] eqn:E.
  - destruct front; simpl in E; [contradiction|discriminate].
  - exact IH.
Qed.

Lemma case_transactions_nonempty (case_no : string) (prev : option string)
  (group : list Event) :
  group <> [] -> case_transactions case_no prev group <> [].
Proof.
  destruct group as [|e rest]; [contradiction|]. intros _.
  cbn [case_transactions]. destruct prev; discriminate.
Qed.

Lemma case_transactions_last (case_no : string) (init : list Event)
  (prev final : Event) (before : option string) (d : Tx) :
  last (case_transactions case_no before (init ++ [prev; final])%list) d =
  tx_out case_no (ev_Location prev) final.
Proof.
  revert before. induction init as [|x init IH]; intros before.
  - cbn [app case_transactions].
    rewrite last_after by discriminate. reflexivity.
  - cbn [app case_transactions].
    rewrite last_after; [apply IH|].
    apply case_transactions_nonempty. destruct init; discriminate.
Qed.

(** X21: for a case with at least two events, no two in the same second,
    the location in a dead stock entry of [main] is the location of the
    last but one event: the place the case left last, not the place it
    then reached. *)
Theorem dead_stock_reports_the_place_left (raw_data : list Event) (current_date : Z)
  (daily_stock : list StockRecord) (validation_results : IntegrityReport)
  (dead_stock : list DeadStock)
  (entry : DeadStock) (init : list Event) (prev final : Event) :
  main_analysis raw_data current_date =
    Some (daily_stock, validation_results, dead_stock) ->
  In entry dead_stock ->
  sort_values ev_Date_leb
    (rows_of String.eqb ev_Case_No (ds_Case_No entry) raw_data) =
    (init ++ [prev; final])%list ->
  NoDup (map (fun e => ev_Date e / ns_per_sec)
             (rows_of String.eqb ev_Case_No (ds_Case_No entry) raw_data)) ->
  ds_Location entry = Some (ev_Location prev).
Proof.
  intros Hmain Hentry Hgroup Hsec.
  assert (Hdead : dead_stock =
            analyze_dead_stock (dates_truncated (create_transaction_log raw_data))
                               current_date default_threshold_days).
  { destruct raw_data as [|e raw_data]; [discriminate|].
    apply (f_equal (fun o => match o with
                             | Some (_, _, found) => found
                             | None => dead_stock
                             end)) in Hmain.
    symmetry. exact Hmain. }
  subst dead_stock.
  apply analyze_dead_stock_In in Hentry.
  destruct Hentry as (case_no & _ & _ & ->).
  cbn [ds_Case_No ds_Location] in *.
  assert (Hrows : map (fun t => Some (Location t))
                      (rows_of String.eqb Case_No case_no
                         (dates_truncated (create_transaction_log raw_data))) =
                  map (fun t => Some (Location t))
                      (case_transactions case_no None (init ++ [prev; final])%list)).
  { unfold rows_of, dates_truncated.
    rewrite filter_map_invariant by reflexivity.
    rewrite map_map. cbn [set_Date Location].
    rewrite filter_log_by_case, Hgroup.
    rewrite (drop_duplicates_distinct _ TxId_eqb_spec); [reflexivity|].
    apply case_transactions_ids. rewrite <- Hgroup.
    eapply Permutation_NoDup; [|exact Hsec].
    apply Permutation_map. symmetry. apply sort_values_Permutation. }
  rewrite Hrows.
  rewrite (last_of_map _ _ (tx_out case_no (ev_Location prev) final)).
  - now rewrite case_transactions_last.
  - apply case_transactions_nonempty. destruct init; discriminate.
Qed.

Lemma dead_stock_reports_the_place_left_witness :
  In sample_dead_entry
     (analyze_dead_stock (dates_truncated (create_transaction_log sample_events))
                         sample_now default_threshold_days) /\
  ds_Location sample_dead_entry = Some (ev_Location ev_c1_indoor).
Proof.
  assert (Hin : In sample_dead_entry
     (analyze_dead_stock (dates_truncated (create_transaction_log sample_events))
                         sample_now default_threshold_days)).
  { vm_compute. left. reflexivity. }
  split; [exact Hin|].
  apply (dead_stock_reports_the_place_left sample_events sample_now
           _ _ _ sample_dead_entry [] ev_c1_indoor ev_c1_mir eq_refl Hin).
  - vm_compute. reflexivity.
  - vm_compute. repeat constructor; simpl; intuition discriminate.
Defined.
